(** * Arc history search: timestamp codec, query builder, per-profile
    executor, cross-profile merge and the HTTP search route.

    A shallow embedding of [data.py] and [app.py].  Python integers are [Z],
    Python floats are the binary64 values, carried as the rationals they
    denote and produced by an explicit round-to-nearest-even step after every
    arithmetic operation; text is [string]; a raised exception is [None]. *)

From Stdlib Require Import ZArith NArith QArith Qround Qabs Qpower Lia Lqa
  List Bool String Ascii Sorting.Sorted Permutation.
Import ListNotations.

Ltac Zify.zify_post_hook ::= Z.to_euclidean_division_equations.

#[local] Open Scope Z_scope.

(* ================================================================== *)
(** * Python floats *)
(* ================================================================== *)

Module PyFloat.

#[local] Open Scope Q_scope.

(** [2 ^ e] for an exponent of either sign. *)
Definition pow2 (e : Z) : Q := Qpower 2 e.

(** Round half to even, from a rational to an integer. *)
Definition rne (x : Q) : Z :=
  let f := Qfloor x in
  match Qcompare (x - inject_Z f) (1 # 2) with
  | Lt => f
  | Gt => (f + 1)%Z
  | Eq => if Z.even f then f else (f + 1)%Z
  end.

(** [binade x] is [floor (log2 |x|)] for a non-zero [x]. *)
Definition binade (x : Q) : Z :=
  let e0 := (Z.log2 (Z.abs (Qnum x)) - Z.log2 (Zpos (Qden x)))%Z in
  if Qle_bool (pow2 e0) (Qabs x) then e0 else (e0 - 1)%Z.

(** Exponent of the unit in the last place: 53 significant bits, and the
    subnormal floor at [2 ^ -1074]. *)
Definition ulp_exp (x : Q) : Z := Z.max (binade x - 52) (-1074)%Z.

(** The binary64 value nearest to [x], ties to even.  Values beyond the
    largest finite float are left unbounded here: every use below feeds a
    range check that rejects them. *)
Definition b64 (x : Q) : Q :=
  if Qeq_bool x 0 then 0
  else let e := ulp_exp x in inject_Z (rne (x * pow2 (- e))) * pow2 e.

(** [float(n)] *)
Definition of_int (n : Z) : Q := b64 (inject_Z n).

(** [a / b] on two Python ints: the correctly rounded quotient. *)
Definition truediv (a b : Z) : Q := b64 (inject_Z a / inject_Z b).

Definition add (x y : Q) : Q := b64 (x + y).
Definition sub (x y : Q) : Q := b64 (x - y).
Definition mul (x y : Q) : Q := b64 (x * y).
Definition div (x y : Q) : Q := b64 (x / y).

(** [int(x)]: truncation toward zero. *)
Definition to_int (x : Q) : Z :=
  if Qle_bool 0 x then Qfloor x else Qceiling x.

(** [math.modf(x)]: fractional and integral part, both with the sign of
    [x]; the fractional part of a float is a float, no rounding occurs. *)
Definition modf (x : Q) : Q * Z :=
  let i := to_int x in (x - inject_Z i, i).

(** [round(x)] on a float: the nearest integer, ties to even. *)
Definition round (x : Q) : Z := rne x.

End PyFloat.

(* ================================================================== *)
(** * Python's [datetime] *)
(* ================================================================== *)

Module PyDatetime.

(** A naive [datetime]: calendar fields, no zone attached, and the
    [fold] attribute that tells the second occurrence of a repeated
    wall-clock reading from the first. *)
Record datetime := new_datetime {
  year : Z; month : Z; day : Z;
  hour : Z; minute : Z; second : Z; microsecond : Z;
  fold : bool
}.

(** [datetime(y, m, d, h, mi, s, us)]: the constructor's [fold] defaults
    to 0. *)
Abbreviation mk_datetime y m d h mi s us := (new_datetime y m d h mi s us false).

(** [dt.replace(fold=f)] *)
Definition with_fold (dt : datetime) (f : bool) : datetime :=
  new_datetime (year dt) (month dt) (day dt) (hour dt) (minute dt) (second dt)
               (microsecond dt) f.

(** A [date] as [date.fromisoformat] returns it. *)
Record date := mk_date { d_year : Z; d_month : Z; d_day : Z }.

Definition MINYEAR : Z := 1.
Definition MAXYEAR : Z := 9999.

Definition is_leap (y : Z) : bool :=
  (y mod 4 =? 0) && (negb (y mod 100 =? 0) || (y mod 400 =? 0)).

Definition days_before_year (y : Z) : Z :=
  let y1 := y - 1 in y1 * 365 + y1 / 4 - y1 / 100 + y1 / 400.

Definition DAYS_IN_MONTH (m : Z) : Z :=
  match m with
  | 1 => 31 | 2 => 28 | 3 => 31 | 4 => 30 | 5 => 31 | 6 => 30
  | 7 => 31 | 8 => 31 | 9 => 30 | 10 => 31 | 11 => 30 | 12 => 31
  | _ => -1
  end.

Definition DAYS_BEFORE_MONTH (m : Z) : Z :=
  match m with
  | 1 => 0 | 2 => 31 | 3 => 59 | 4 => 90 | 5 => 120 | 6 => 151
  | 7 => 181 | 8 => 212 | 9 => 243 | 10 => 273 | 11 => 304 | 12 => 334
  | _ => -1
  end.

Definition days_in_month (y m : Z) : Z :=
  if (m =? 2) && is_leap y then 29 else DAYS_IN_MONTH m.

Definition days_before_month (y m : Z) : Z :=
  DAYS_BEFORE_MONTH m + (if (2 <? m) && is_leap y then 1 else 0).

(** Proleptic Gregorian ordinal, 0001-01-01 is day 1. *)
Definition ymd2ord (y m d : Z) : Z :=
  days_before_year y + days_before_month y m + d.

Definition DI400Y : Z := 146097.
Definition DI100Y : Z := 36524.
Definition DI4Y : Z := 1461.

(** Ordinal to (year, month, day). *)
Definition ord2ymd (n : Z) : Z * Z * Z :=
  let n := n - 1 in
  let n400 := n / DI400Y in let n := n mod DI400Y in
  let y := n400 * 400 + 1 in
  let n100 := n / DI100Y in let n := n mod DI100Y in
  let n4 := n / DI4Y in let n := n mod DI4Y in
  let n1 := n / 365 in let n := n mod 365 in
  let y := y + n100 * 100 + n4 * 4 + n1 in
  if (n1 =? 4) || (n100 =? 4) then (y - 1, 12, 31)
  else
    let leapyear := (n1 =? 3) && (negb (n4 =? 24) || (n100 =? 3)) in
    let m := (n + 50) / 32 in
    let preceding :=
      DAYS_BEFORE_MONTH m + (if (2 <? m) && leapyear then 1 else 0) in
    if n <? preceding then
      let m := m - 1 in
      let preceding :=
        preceding - (DAYS_IN_MONTH m + (if (m =? 2) && leapyear then 1 else 0)) in
      (y, m, n - preceding + 1)
    else (y, m, n - preceding + 1).

(** The checks of the [date] and [datetime] constructors. *)
Definition valid_date (y m d : Z) : bool :=
  (MINYEAR <=? y) && (y <=? MAXYEAR) && (1 <=? m) && (m <=? 12)
  && (1 <=? d) && (d <=? days_in_month y m).

Definition valid_time (h mi s us : Z) : bool :=
  (0 <=? h) && (h <? 24) && (0 <=? mi) && (mi <? 60)
  && (0 <=? s) && (s <? 60) && (0 <=? us) && (us <? 1000000).

Definition valid_datetime (dt : datetime) : bool :=
  valid_date (year dt) (month dt) (day dt)
  && valid_time (hour dt) (minute dt) (second dt) (microsecond dt).

(** [datetime(y, m, d, h, mi, s, us)]: [ValueError] on a field out of
    range. *)
Definition make_datetime (y m d h mi s us : Z) : option datetime :=
  if valid_date y m d && valid_time h mi s us
  then Some (mk_datetime y m d h mi s us) else None.

(** Ordinal of 1970-01-01. *)
Definition EPOCH_ORD : Z := 719163.

(** Seconds from 1970-01-01T00:00:00 to the wall-clock reading [dt], both
    read on the same clock. *)
Definition wall_seconds (dt : datetime) : Z :=
  (ymd2ord (year dt) (month dt) (day dt) - EPOCH_ORD) * 86400
  + hour dt * 3600 + minute dt * 60 + second dt.

(** The wall-clock reading [w] seconds after 1970-01-01T00:00:00, with
    [us] microseconds; [ValueError] when the year leaves [1..9999]. *)
Definition of_wall_seconds (w us : Z) : option datetime :=
  let days := w / 86400 in
  let sod := w mod 86400 in
  let '(y, m, d) := ord2ymd (days + EPOCH_ORD) in
  make_datetime y m d (sod / 3600) (sod mod 3600 / 60) (sod mod 60) us.

(** The local zone of the process: the UTC offset in seconds (east
    positive) that the system's zone rules put in force at each POSIX
    time.  [time.localtime(u)] reads the clock at [u + utcoffset u]. *)
Record zone := mk_zone { utcoffset : Z -> Z }.

(** The zone that keeps one offset at all times, as UTC does.  A number
    written where a zone is expected stands for that zone: a statement
    about a zone [tz] with [-86400 < tz < 86400] is about the zones of
    one fixed offset. *)
Definition fixed (offset : Z) : zone := mk_zone (fun _ => offset).

Coercion fixed : Z >-> zone.

Section LocalZone.

Variable tz : zone.

(** Fold detection probes the clock this many seconds away. *)
Definition max_fold_seconds : Z := 24 * 3600.

(** [local(u)] of [_mktime]: the reading of the local clock at POSIX
    time [u], in seconds from the epoch's reading; [ValueError] when that
    reading is not a representable datetime. *)
Definition local (u : Z) : option Z :=
  option_map wall_seconds (of_wall_seconds (u + utcoffset tz u) 0).

(** [datetime._mktime]: solve [t = local(u)] for [u], the earlier
    solution for [fold = 0] and the later one for [fold = 1]; a reading
    inside a skipped hour has none and is moved across the gap. *)
Definition mktime (dt : datetime) : option Z :=
  let t := wall_seconds dt in
  match local t with
  | None => None
  | Some lt =>
      let a := lt - t in
      let u1 := t - a in
      match local u1 with
      | None => None
      | Some t1 =>
          let finish (b : Z) : option Z :=
            let u2 := t - b in
            match local u2 with
            | None => None
            | Some t2 =>
                if t2 =? t then Some u2
                else if t1 =? t then Some u1
                else Some (if fold dt then Z.min u1 u2 else Z.max u1 u2)
            end in
          if t1 =? t then
            let u2 :=
              if fold dt then u1 + max_fold_seconds else u1 - max_fold_seconds in
            match local u2 with
            | None => None
            | Some lt2 =>
                let b := lt2 - u2 in
                if a =? b then Some u1 else finish b
            end
          else finish (t1 - u1)
      end
  end.

(** [dt.timestamp()] on a naive datetime. *)
Definition timestamp (dt : datetime) : option Q :=
  match mktime dt with
  | None => None
  | Some s =>
      Some (PyFloat.add (PyFloat.of_int s)
              (PyFloat.div (PyFloat.of_int (microsecond dt)) (inject_Z 1000000)))
  end.

(** [datetime.fromtimestamp(t)]: split the float into seconds and
    microseconds rounded half to even and read the local clock.  Then
    detect a repeated hour: read the clock [max_fold_seconds] earlier,
    and when the offset has dropped since, read it once more that drop
    earlier; the same reading there means this is its second
    occurrence, [fold = 1].  Each probe has to be a representable
    datetime. *)
Definition fromtimestamp (t : Q) : option datetime :=
  let '(frac, secs) := PyFloat.modf t in
  let us := PyFloat.round (PyFloat.mul frac (inject_Z 1000000)) in
  let '(secs, us) :=
    if 1000000 <=? us then (secs + 1, us - 1000000)
    else if us <? 0 then (secs - 1, us + 1000000)
    else (secs, us) in
  match of_wall_seconds (secs + utcoffset tz secs) us with
  | None => None
  | Some result =>
      let probe := secs - max_fold_seconds in
      match of_wall_seconds (probe + utcoffset tz probe) us with
      | None => None
      | Some probe1 =>
          let trans := wall_seconds result - wall_seconds probe1 - max_fold_seconds in
          if trans <? 0 then
            let probe := secs + trans in
            match of_wall_seconds (probe + utcoffset tz probe) us with
            | None => None
            | Some probe2 =>
                if wall_seconds probe2 =? wall_seconds result
                then Some (with_fold result true)
                else Some result
            end
          else Some result
      end
  end.

End LocalZone.

(** Zero-padded decimal, [w] digits wide ([%0wd]). *)
Definition digit (d : Z) : ascii := ascii_of_N (Z.to_N (48 + d)).

Fixpoint pad (w : nat) (n : Z) : string :=
  match w with
  | O => EmptyString
  | S w' => String (digit ((n / 10 ^ Z.of_nat w') mod 10)) (pad w' n)
  end.

(** [dt.isoformat()]: [YYYY-MM-DDTHH:MM:SS], and [.ffffff] after it when
    the microsecond is not zero. *)
Definition isoformat (dt : datetime) : string :=
  (pad 4 (year dt) ++ "-" ++ pad 2 (month dt) ++ "-" ++ pad 2 (day dt) ++ "T"
   ++ pad 2 (hour dt) ++ ":" ++ pad 2 (minute dt) ++ ":" ++ pad 2 (second dt)
   ++ (if (microsecond dt =? 0)%Z then "" else "." ++ pad 6 (microsecond dt)))%string.

(** [dt.strftime("%Y-%m-%d %H:%M:%S")] *)
Definition strftime_display (dt : datetime) : string :=
  (pad 4 (year dt) ++ "-" ++ pad 2 (month dt) ++ "-" ++ pad 2 (day dt) ++ " "
   ++ pad 2 (hour dt) ++ ":" ++ pad 2 (minute dt) ++ ":" ++ pad 2 (second dt))%string.

End PyDatetime.

(* ================================================================== *)
(** * data.py: the timestamp codec *)
(* ================================================================== *)

Import PyDatetime.

(** Chrome's epoch is 1601-01-01, Unix's is 1970-01-01; the difference in
    seconds. *)
Definition CHROME_EPOCH_OFFSET : Z := 11644473600.

Section Codec.

Variable tz : zone.

(** Chrome timestamp (microseconds since 1601) to a local datetime. *)
Definition chrome_time_to_datetime (chrome_time : Z) : option datetime :=
  let unix_timestamp :=
    PyFloat.sub (PyFloat.truediv chrome_time 1000000)
                (PyFloat.of_int CHROME_EPOCH_OFFSET) in
  fromtimestamp tz unix_timestamp.

(** Local datetime to Chrome timestamp; [None] when [dt.timestamp()]
    raises. *)
Definition datetime_to_chrome_time (dt : datetime) : option Z :=
  match timestamp tz dt with
  | None => None
  | Some unix_timestamp =>
      Some (PyFloat.to_int
              (PyFloat.mul
                 (PyFloat.add unix_timestamp (PyFloat.of_int CHROME_EPOCH_OFFSET))
                 (PyFloat.of_int 1000000)))
  end.

End Codec.

(* ================================================================== *)
(** * Sequences: stable descending sort, slices *)
(* ================================================================== *)

Section StableSort.

Context {A K : Type}.
Variable ltb : K -> K -> bool.
Variable key : A -> K.

(** Insert [x], which stood before every element of [l], into [l] sorted
    by descending key: [x] passes only elements with a strictly larger
    key, so elements with equal keys keep their order. *)
Fixpoint insert_desc (x : A) (l : list A) : list A :=
  match l with
  | [] => [x]
  | y :: l' => if ltb (key x) (key y) then y :: insert_desc x l' else x :: l
  end.

(** Stable sort by descending key: SQL's [ORDER BY k DESC] and Python's
    [list.sort(key=k, reverse=True)]. *)
Fixpoint sort_desc (l : list A) : list A :=
  match l with
  | [] => []
  | x :: l' => insert_desc x (sort_desc l')
  end.

(** Stable merge of two descending runs, the left one first on ties. *)
Fixpoint merge_desc (l1 : list A) : list A -> list A :=
  fix inner (l2 : list A) : list A :=
    match l1, l2 with
    | [], _ => l2
    | _, [] => l1
    | x :: l1', y :: l2' =>
        if ltb (key x) (key y) then y :: inner l2'
        else x :: merge_desc l1' l2
    end.

End StableSort.

(** Python's [l[start:stop]], negative indices counting from the end. *)
Definition clamp_index (len i : Z) : Z :=
  if i <? 0 then Z.max (i + len) 0 else Z.min i len.

Definition py_slice {A : Type} (l : list A) (start stop : Z) : list A :=
  let len := Z.of_nat (List.length l) in
  let s := clamp_index len start in
  let e := clamp_index len stop in
  firstn (Z.to_nat (e - s)) (skipn (Z.to_nat s) l).

(** Python's [str.strip()] on ASCII text. *)
Definition is_space (c : ascii) : bool :=
  let n := N_of_ascii c in
  ((9 <=? n) && (n <=? 13) || (28 <=? n) && (n <=? 32))%N.

Fixpoint lstrip (s : string) : string :=
  match s with
  | String c s' => if is_space c then lstrip s' else s
  | EmptyString => EmptyString
  end.

Fixpoint rstrip (s : string) : string :=
  match s with
  | String c s' =>
      match rstrip s' with
      | EmptyString => if is_space c then EmptyString else String c EmptyString
      | r => String c r
      end
  | EmptyString => EmptyString
  end.

Definition strip (s : string) : string := rstrip (lstrip s).

(* ================================================================== *)
(** * The SQLite snapshot of a profile *)
(* ================================================================== *)

Module Sqlite.

(** Table [urls (id, url, title)]; the title may be [NULL]. *)
Record url_row := mk_url { u_id : Z; u_url : string; u_title : option string }.

(** Table [visits (id, url, visit_time)]. *)
Record visit_row := mk_visit { v_id : Z; v_url : Z; v_time : Z }.

Record database := mk_db { urls : list url_row; visits : list visit_row }.

(** A row of [visits JOIN urls ON visits.url = urls.id], with the three
    selected columns. *)
Record row := mk_row { r_url : string; r_title : option string; r_visit_time : Z }.

Definition join (db : database) : list row :=
  flat_map
    (fun v =>
       map (fun u => mk_row (u_url u) (u_title u) (v_time v))
           (filter (fun u => u_id u =? v_url v) (urls db)))
    (visits db).

(** What is found at a path: a file SQLite cannot read, or a database. *)
Inductive file := Unreadable | Database (db : database).

(** The file system: what each path holds, [None] where nothing exists. *)
Definition filesystem := string -> option file.

(** [sqlite3.connect("file:<path>?mode=ro", uri=True)] and the first
    [execute]: an exception unless the path holds a database. *)
Definition connect (fs : filesystem) (db_path : string) : option database :=
  match fs db_path with
  | Some (Database db) => Some db
  | _ => None
  end.

(** ASCII lower case, the only folding [LIKE] does. *)
Definition tolower (c : ascii) : ascii :=
  let n := N_of_ascii c in
  if ((65 <=? n) && (n <=? 90))%N then ascii_of_N (n + 32) else c.

(** [s LIKE pat]: [%] matches any run of characters, [_] any one
    character, every other character itself up to ASCII case; there is no
    escape character. *)
Fixpoint like (pat : string) : string -> bool :=
  match pat with
  | EmptyString => fun s => match s with EmptyString => true | _ => false end
  | String c p =>
      if Ascii.eqb c "%" then
        fix any (s : string) : bool :=
          like p s || match s with
                      | EmptyString => false
                      | String _ s' => any s'
                      end
      else if Ascii.eqb c "_" then
        fun s => match s with EmptyString => false | String _ s' => like p s' end
      else
        fun s => match s with
                 | EmptyString => false
                 | String d s' => Ascii.eqb (tolower c) (tolower d) && like p s'
                 end
  end.

(** A value bound to a [?] placeholder. *)
Inductive param := PText (s : string) | PInt (n : Z).

(** The clause templates [_build_where_clause] emits; the WHERE text is
    their conjunction, and [1=1] when there is none. *)
Inductive clause :=
| KeywordLike   (* (urls.url LIKE ? OR urls.title LIKE ?) *)
| VisitTimeGe   (* visits.visit_time >= ? *)
| VisitTimeLe.  (* visits.visit_time <= ? *)

Definition int64 (n : Z) : bool := (- 2 ^ 63 <=? n) && (n <? 2 ^ 63).

(** A [NULL] title makes [title LIKE ?] unknown, which selects the row no
    more than false does. *)
Definition like_opt (pat : string) (s : option string) : bool :=
  match s with Some t => like pat t | None => false end.

(** Bind the placeholders of the WHERE text left to right.  The result is
    the row predicate and the parameters left over; an exception when a
    parameter is missing, has the wrong type or does not fit SQLite's
    64-bit INTEGER. *)
Fixpoint bind_where (w : list clause) (ps : list param)
  : option ((row -> bool) * list param) :=
  match w with
  | [] => Some (fun _ => true, ps)
  | c :: w' =>
      match c, ps with
      | KeywordLike, PText p1 :: PText p2 :: ps' =>
          match bind_where w' ps' with
          | Some (f, rest) =>
              Some (fun r => (like p1 (r_url r) || like_opt p2 (r_title r)) && f r, rest)
          | None => None
          end
      | VisitTimeGe, PInt n :: ps' =>
          if int64 n then
            match bind_where w' ps' with
            | Some (f, rest) => Some (fun r => (n <=? r_visit_time r) && f r, rest)
            | None => None
            end
          else None
      | VisitTimeLe, PInt n :: ps' =>
          if int64 n then
            match bind_where w' ps' with
            | Some (f, rest) => Some (fun r => (r_visit_time r <=? n) && f r, rest)
            | None => None
            end
          else None
      | _, _ => None
      end
  end.

(** [LIMIT limit OFFSET offset]: a negative limit is no limit, a negative
    offset is no offset. *)
Definition limit_offset {A : Type} (limit offset : Z) (l : list A) : list A :=
  let l' := skipn (Z.to_nat offset) l in
  if limit <? 0 then l' else firstn (Z.to_nat limit) l'.

(** [SELECT COUNT( * ) FROM visits JOIN urls ... WHERE <w>] *)
Definition select_count (db : database) (w : list clause) (ps : list param)
  : option Z :=
  match bind_where w ps with
  | Some (f, []) => Some (Z.of_nat (List.length (filter f (join db))))
  | _ => None
  end.

(** [SELECT url, title, visit_time FROM visits JOIN urls ... WHERE <w>
    ORDER BY visits.visit_time DESC LIMIT ? OFFSET ?] *)
Definition select_rows (db : database) (w : list clause) (ps : list param)
  : option (list row) :=
  match bind_where w ps with
  | Some (f, [PInt limit; PInt offset]) =>
      if int64 limit && int64 offset then
        Some (limit_offset limit offset
                (sort_desc Z.ltb r_visit_time (filter f (join db))))
      else None
  | _ => None
  end.

End Sqlite.

(* ================================================================== *)
(** * data.py: query builder, per-profile executor, merge coordinator *)
(* ================================================================== *)

Import Sqlite.

(** One entry of the result list: the dict built by
    [_query_profile_rows]. *)
Record VisitRecord := mk_record {
  url : string;
  title : string;
  visit_time : string;
  visit_time_display : string;
  profile : string
}.

Definition TEMP_DIR : string := "/tmp/arc_history_search".

Definition NO_TITLE : string := "(No title)".

Section DataLayer.

Variable tz : zone.
Variable fs : filesystem.

(** Path to the copied history database of a profile, when it exists. *)
Definition get_history_db_path (profile : string) : option string :=
  let path := (TEMP_DIR ++ "/" ++ profile ++ "_History")%string in
  match fs path with Some _ => Some path | None => None end.

(** WHERE clause and parameters from the filters; [None] when a date has
    no timestamp. *)
Definition _build_where_clause
    (keyword : option string) (start_date end_date : option datetime)
  : option (list clause * list param) :=
  let '(clauses, params) := (@nil clause, @nil param) in
  let '(clauses, params) :=
    match keyword with
    | Some (String _ _ as k) =>
        let keyword_pattern := ("%" ++ k ++ "%")%string in
        (clauses ++ [KeywordLike],
         params ++ [PText keyword_pattern; PText keyword_pattern])
    | _ => (clauses, params)
    end in
  match
    match start_date with
    | Some sd =>
        match datetime_to_chrome_time tz sd with
        | Some n => Some (clauses ++ [VisitTimeGe], params ++ [PInt n])
        | None => None
        end
    | None => Some (clauses, params)
    end
  with
  | None => None
  | Some (clauses, params) =>
      match end_date with
      | Some ed =>
          match make_datetime (year ed) (month ed) (day ed) 23 59 59 0 with
          | Some end_of_day =>
              match datetime_to_chrome_time tz end_of_day with
              | Some n => Some (clauses ++ [VisitTimeLe], params ++ [PInt n])
              | None => None
              end
          | None => None
          end
      | None => Some (clauses, params)
      end
  end.

(** Total count for a profile with given filters; 0 on any exception. *)
Definition _query_profile_count
    (db_path : string) (where_ : list clause) (params : list param) : Z :=
  match connect fs db_path with
  | Some db =>
      match select_count db where_ params with
      | Some count => count
      | None => 0
      end
  | None => 0
  end.

(** The dict of one fetched row; [None] when its timestamp does not
    convert. *)
Definition record_of_row (profile : string) (r : row) : option VisitRecord :=
  match chrome_time_to_datetime tz (r_visit_time r) with
  | Some vt =>
      Some (mk_record
              (r_url r)
              (match r_title r with
               | Some (String _ _ as t) => t
               | _ => NO_TITLE
               end)
              (isoformat vt)
              (strftime_display vt)
              profile)
  | None => None
  end.

(** The loop over [cursor.fetchall()]: stops at the first exception. *)
Fixpoint records_of_rows (profile : string) (rows : list row)
  : option (list VisitRecord) :=
  match rows with
  | [] => Some []
  | r :: rows' =>
      match record_of_row profile r with
      | Some rec =>
          match records_of_rows profile rows' with
          | Some results => Some (rec :: results)
          | None => None
          end
      | None => None
      end
  end.

(** Paginated rows from a profile; the empty list on any exception. *)
Definition _query_profile_rows
    (db_path : string) (where_ : list clause) (params : list param)
    (limit offset : Z) (profile : string) : list VisitRecord :=
  match connect fs db_path with
  | Some db =>
      match select_rows db where_ (params ++ [PInt limit; PInt offset]) with
      | Some rows =>
          match records_of_rows profile rows with
          | Some results => results
          | None => []
          end
      | None => []
      end
  | None => []
  end.

(** The profiles that have a database, each with its path. *)
Fixpoint active_profiles (profiles : list string) : list (string * string) :=
  match profiles with
  | [] => []
  | profile :: rest =>
      match get_history_db_path profile with
      | Some db_path => (profile, db_path) :: active_profiles rest
      | None => active_profiles rest
      end
  end.

(** The multi-profile branch of [search_history]: sum the counts, fetch
    [page * per_page] rows from each profile, sort the concatenation by
    [visit_time] descending and take the page. *)
Definition merge_profiles
    (active : list (string * string)) (where_ : list clause) (params : list param)
    (page per_page : Z) : list VisitRecord * Z :=
  let total_count :=
    fold_left Z.add
      (map (fun a => _query_profile_count (snd a) where_ params) active) 0 in
  let fetch_limit := page * per_page in
  let all_results :=
    flat_map
      (fun a => _query_profile_rows (snd a) where_ params fetch_limit 0 (fst a))
      active in
  let all_results := sort_desc String.ltb visit_time all_results in
  let start_idx := (page - 1) * per_page in
  let end_idx := start_idx + per_page in
  (py_slice all_results start_idx end_idx, total_count).

(** Search history with filters; results and total count, or [None]
    when building the WHERE clause raises. *)
Definition search_history
    (keyword : option string) (start_date end_date : option datetime)
    (profiles : option (list string)) (page per_page : Z)
  : option (list VisitRecord * Z) :=
  let profiles :=
    match profiles with
    | None => ["default"; "profile7"]%string
    | Some ps => ps
    end in
  match _build_where_clause keyword start_date end_date with
  | None => None
  | Some (where_, params) =>
      let active := active_profiles profiles in
      match active with
      | [] => Some ([], 0)
      | [(profile, db_path)] =>
          let total_count := _query_profile_count db_path where_ params in
          let offset := (page - 1) * per_page in
          let results :=
            _query_profile_rows db_path where_ params per_page offset profile in
          Some (results, total_count)
      | _ => Some (merge_profiles active where_ params page per_page)
      end
  end.

End DataLayer.

(* ================================================================== *)
(** * app.py: the search route *)
(* ================================================================== *)

Definition PER_PAGE : Z := 50.

(** The query string of a request: [request.args.get] of each name the
    route reads, [None] when the name is absent. *)
Record request := mk_request {
  arg_q : option string;
  arg_start : option string;
  arg_end : option string;
  arg_profile : option string;
  arg_page : option string
}.

(** The JSON body of the response. *)
Record response := mk_response {
  results : list VisitRecord;
  total_count : Z;
  page : Z;
  per_page : Z;
  total_pages : Z
}.

Definition is_digit (c : ascii) : bool :=
  let n := N_of_ascii c in ((48 <=? n) && (n <=? 57))%N.

Definition digit_value (c : ascii) : Z := Z.of_N (N_of_ascii c) - 48.

(** Decimal digits with single underscores allowed between them;
    [acc] is the value read so far, [after_digit] whether the last
    character was a digit. *)
Fixpoint parse_digits (s : string) (acc : Z) (after_digit : bool) : option Z :=
  match s with
  | EmptyString => if after_digit then Some acc else None
  | String c s' =>
      if is_digit c then parse_digits s' (acc * 10 + digit_value c) true
      else if Ascii.eqb c "_" && after_digit then parse_digits s' acc false
      else None
  end.

(** [int(s)] on a string: surrounding whitespace, an optional sign,
    decimal digits; [ValueError] otherwise. *)
Definition int_of_string (s : string) : option Z :=
  match strip s with
  | String "-" s' => option_map Z.opp (parse_digits s' 0 false)
  | String "+" s' => parse_digits s' 0 false
  | s' => parse_digits s' 0 false
  end.

(** [date.fromisoformat(s)] for the format [YYYY-MM-DD]; [ValueError] on
    any other text and on a date that does not exist. *)
Definition date_fromisoformat (s : string) : option date :=
  match s with
  | String y1 (String y2 (String y3 (String y4 (String "-"
    (String m1 (String m2 (String "-" (String d1 (String d2 EmptyString))))))))) =>
      if forallb is_digit [y1; y2; y3; y4; m1; m2; d1; d2] then
        let y := ((digit_value y1 * 10 + digit_value y2) * 10 + digit_value y3) * 10
                 + digit_value y4 in
        let m := digit_value m1 * 10 + digit_value m2 in
        let d := digit_value d1 * 10 + digit_value d2 in
        if valid_date y m d then Some (mk_date y m d) else None
      else None
  | _ => None
  end.

(** The [try: ... except ValueError: pass] around one date argument. *)
Definition parse_date_arg (date_str : string) : option datetime :=
  match date_str with
  | EmptyString => None
  | _ =>
      match date_fromisoformat date_str with
      | Some d => make_datetime (d_year d) (d_month d) (d_day d) 0 0 0 0
      | None => None
      end
  end.

Definition get_or (a : option string) (default : string) : string :=
  match a with Some s => s | None => default end.

Section App.

Variable tz : zone.
Variable fs : filesystem.

(** [GET /search]: [None] is an exception escaping the route, answered
    with a server error. *)
Definition search (req : request) : option response :=
  let keyword :=
    match strip (get_or (arg_q req) "") with
    | EmptyString => None
    | k => Some k
    end in
  let start_date_str := strip (get_or (arg_start req) "") in
  let end_date_str := strip (get_or (arg_end req) "") in
  let profile := get_or (arg_profile req) "both" in
  match
    match arg_page req with
    | Some s => int_of_string s
    | None => Some 1
    end
  with
  | None => None
  | Some page =>
      let start_date := parse_date_arg start_date_str in
      let end_date := parse_date_arg end_date_str in
      let profiles :=
        if String.eqb profile "default" then ["default"]%string
        else if String.eqb profile "profile7" then ["profile7"]%string
        else ["default"; "profile7"]%string in
      match
        search_history tz fs keyword start_date end_date (Some profiles)
                       page PER_PAGE
      with
      | None => None
      | Some (results, total_count) =>
          let total_pages := (total_count + PER_PAGE - 1) / PER_PAGE in
          Some (mk_response results total_count page PER_PAGE total_pages)
      end
  end.

End App.

(* ================================================================== *)
(** * data.py and app.py: refreshing the snapshots *)
(* ================================================================== *)

(** [HISTORY_PATHS]: the history file of each profile below the home
    directory [home] ([Path.home()], written without a trailing slash),
    in the order of the dict. *)
Definition HISTORY_PATHS (home : string) : list (string * string) :=
  [("default",
    home ++ "/Library/Application Support/Arc/User Data/Default/History");
   ("profile7",
    home ++ "/Library/Application Support/Arc/User Data/Profile 7/History")]%string.

(** What one call of [shutil.copy2] does: it completes, or it raises and
    leaves [remains] at the destination (the file that was there, a partial
    copy, or nothing). *)
Inductive copy_outcome := Copied | CopyFailed (remains : option file).

(** The file system with the content of one path replaced. *)
Definition write_file (fs : filesystem) (path : string) (f : option file)
  : filesystem :=
  fun p => if String.eqb p path then f else fs p.

Section Refresh.

(** The environment of a refresh: the home directory, whether
    [TEMP_DIR.mkdir(parents=True, exist_ok=True)] succeeds, and the
    outcome of copying from each source path. *)
Variable home : string.
Variable mkdir_ok : bool.
Variable copy2 : string -> copy_outcome.

(** One round of the loop of [copy_history_files]: the file system and
    the dict [copied] after it. *)
Definition copy_profile
    (state : filesystem * list (string * option string))
    (entry : string * string) : filesystem * list (string * option string) :=
  let '(fs, copied) := state in
  let '(profile, source_path) := entry in
  let dest_path := (TEMP_DIR ++ "/" ++ profile ++ "_History")%string in
  match fs source_path with
  | Some f =>
      match copy2 source_path with
      | Copied =>
          (write_file fs dest_path (Some f), copied ++ [(profile, Some dest_path)])
      | CopyFailed remains =>
          (write_file fs dest_path remains, copied ++ [(profile, None)])
      end
  | None => (fs, copied ++ [(profile, None)])
  end.

(** Copy history files to the temp location: the file system afterwards
    and the dict from profile to copied path; [None] when the directory
    cannot be made. *)
Definition copy_history_files (fs : filesystem)
  : option (filesystem * list (string * option string)) :=
  if mkdir_ok then Some (fold_left copy_profile (HISTORY_PATHS home) (fs, []))
  else None.

(** The JSON body of [POST /refresh]. *)
Record refresh_response := mk_refresh_response {
  success : bool;
  message : string;
  profiles_available : list string
}.

(** [POST /refresh]: re-copy the history files and report the profiles
    that have a fresh copy. *)
Definition refresh (fs : filesystem) : option (filesystem * refresh_response) :=
  match copy_history_files fs with
  | None => None
  | Some (fs', copied) =>
      let available :=
        map fst
            (filter (fun e => match snd e with Some _ => true | None => false end)
                    copied) in
      Some (fs',
            mk_refresh_response true
              ("Refreshed history for: "
               ++ match available with
                  | [] => "none"
                  | _ => String.concat ", " available
                  end)
              available)
  end.

End Refresh.

(** * Notions used in the statements

    Everything below is defined in terms of the program above: closed
    forms of its intermediate values, orderings of its outputs, and the
    example databases the statements are evaluated on. *)

Import PyFloat.

#[local] Open Scope Q_scope.

(** Microseconds of a timestamp, as [fromtimestamp] computes them before
    the carry: [secs * 10^6 + us]. *)
Definition micros (t : Q) : Z :=
  let '(frac, secs) := modf t in
  (secs * 1000000 + round (mul frac (inject_Z 1000000)))%Z.

#[local] Open Scope Z_scope.

(** Month and day from the zero-based day of the year, the tail of
    [ord2ymd]. *)
Definition month_day (leapyear : bool) (n : Z) : Z * Z :=
  let m := (n + 50) / 32 in
  let preceding :=
    DAYS_BEFORE_MONTH m + (if (2 <? m) && leapyear then 1 else 0) in
  if n <? preceding then
    let m := m - 1 in
    let preceding :=
      preceding - (DAYS_IN_MONTH m + (if (m =? 2) && leapyear then 1 else 0)) in
    (m, n - preceding + 1)
  else (m, n - preceding + 1).

Definition month_day_ok (leapyear : bool) (n : Z) : bool :=
  let '(m, d) := month_day leapyear n in
  (1 <=? m) && (m <=? 12) && (1 <=? d)
  && (d <=? DAYS_IN_MONTH m + (if (m =? 2) && leapyear then 1 else 0))
  && (DAYS_BEFORE_MONTH m + (if (2 <? m) && leapyear then 1 else 0) + d =? n + 1).

Definition valid_md (y m d : Z) : Prop := 1 <= m <= 12 /\ 1 <= d <= days_in_month y m.

Definition MIN_ORD : Z := 1.
Definition MAX_ORD : Z := 3652059.

Definition MIN_WALL : Z := -62135596800.
Definition MAX_WALL : Z := 253402300799.

(** Lexicographic step: the first difference decides. *)
Definition lex (c rest : comparison) : comparison :=
  match c with Eq => rest | _ => c end.

(** Field-by-field comparison of two datetimes. *)
Definition cmp_fields (a b : datetime) : comparison :=
  lex (year a ?= year b)
 (lex (month a ?= month b)
 (lex (day a ?= day b)
 (lex (hour a ?= hour b)
 (lex (minute a ?= minute b)
 (lex (second a ?= second b)
      (microsecond a ?= microsecond b)))))).

(** The datetime [fromtimestamp] builds from the microsecond count. *)
Definition datetime_of_micros (tz : zone) (T : Z) : option datetime :=
  let secs := T / 1000000 in
  let us := T mod 1000000 in
  match of_wall_seconds (secs + utcoffset tz secs) us with
  | None => None
  | Some result =>
      let probe := secs - max_fold_seconds in
      match of_wall_seconds (probe + utcoffset tz probe) us with
      | None => None
      | Some probe1 =>
          let trans := wall_seconds result - wall_seconds probe1 - max_fold_seconds in
          if trans <? 0 then
            let probe := secs + trans in
            match of_wall_seconds (probe + utcoffset tz probe) us with
            | None => None
            | Some probe2 =>
                if wall_seconds probe2 =? wall_seconds result
                then Some (with_fold result true)
                else Some result
            end
          else Some result
      end
  end.

(** Local microseconds since the epoch's reading: the sort key behind a
    datetime. *)
Definition wall_micros (dt : datetime) : Z := wall_seconds dt * 1000000 + microsecond dt.

#[local] Open Scope Q_scope.

(** The float [(chrome_time / 1_000_000) - CHROME_EPOCH_OFFSET]. *)
Definition chrome_unix (chrome_time : Z) : Q :=
  sub (truediv chrome_time 1000000) (of_int CHROME_EPOCH_OFFSET).

#[local] Open Scope Z_scope.

(** The reading [_mktime] probes for another solution: a day earlier
    for [fold = 0], a day later for [fold = 1]. *)
Definition fold_probe (dt : datetime) : Z :=
  if fold dt then wall_seconds dt + 86400 else wall_seconds dt - 86400.

(** The integer [int((unix_timestamp + CHROME_EPOCH_OFFSET) * 1_000_000)]. *)
Definition encode_micros (unix_timestamp : Q) : Z :=
  to_int (mul (add unix_timestamp (of_int CHROME_EPOCH_OFFSET)) (of_int 1000000)).

(** Every offset of the zone is less than a day from UTC. *)
Definition offsets_within_a_day (tz : zone) : Prop :=
  forall u, -86400 < utcoffset tz u < 86400.

(** The zone changes its offset at most once in any stretch of two days:
    of three instants, two of them less than a day from the third, two
    have the same offset. *)
Definition one_change_at_a_time (tz : zone) : Prop :=
  forall u v w, Z.abs (v - u) < 86400 -> Z.abs (w - u) < 86400 ->
    utcoffset tz u = utcoffset tz v \/ utcoffset tz u = utcoffset tz w \/
    utcoffset tz v = utcoffset tz w.

(** The reading [dt] occurs on the local clock: some instant shows it.
    A reading inside an hour that the clock skips does not. *)
Definition on_the_clock (tz : zone) (dt : datetime) : Prop :=
  exists u, u + utcoffset tz u = wall_seconds dt.

(** The same date and time of day, the [fold] attribute apart. *)
Definition same_fields (a b : datetime) : Prop :=
  year a = year b /\ month a = month b /\ day a = day b /\
  hour a = hour b /\ minute a = minute b /\ second a = second b /\
  microsecond a = microsecond b.

(** America/New_York in 2024: Eastern Standard Time, five hours behind
    UTC, and from 2024-03-10T07:00:00Z until 2024-11-03T06:00:00Z daylight
    time, four hours behind. *)
Definition new_york_2024 : zone :=
  mk_zone (fun u => if (1710054000 <=? u) && (u <? 1730613600) then -14400 else -18000).

(** Africa/Cairo in 2024: two hours ahead of UTC, and from
    2024-04-25T22:00:00Z until 2024-10-31T21:00:00Z summer time, three
    hours ahead. *)
Definition cairo_2024 : zone :=
  mk_zone (fun u => if (1714082400 <=? u) && (u <? 1730408400) then 10800 else 7200).

(** Within three days of the instant [u] the zone changes its offset at
    most once, and then by less than a day. *)
Definition one_transition_near (tz : zone) (u : Z) : Prop :=
  exists T before after,
    -86400 < before < 86400 /\ -86400 < after < 86400 /\
    -86400 < after - before < 86400 /\
    forall x, u - 3 * 86400 <= x <= u + 3 * 86400 ->
      utcoffset tz x = if x <? T then before else after.

(** The arithmetic of [_mktime] on the offsets [z], for the reading [t]
    and the fold [f], when no reading of the clock raises. *)
Definition mktime_seconds (z : Z -> Z) (t : Z) (f : bool) : Z :=
  let a := z t in
  let u1 := t - a in
  let t1 := u1 + z u1 in
  let finish (b : Z) : Z :=
    let u2 := t - b in
    let t2 := u2 + z u2 in
    if t2 =? t then u2
    else if t1 =? t then u1
    else if f then Z.min u1 u2 else Z.max u1 u2 in
  if t1 =? t then
    let u2 := if f then u1 + 86400 else u1 - 86400 in
    let b := z u2 in
    if a =? b then u1 else finish b
  else finish (t1 - u1).

(** The fold [fromtimestamp] detects at the instant [u]. *)
Definition fold_reading (z : Z -> Z) (u : Z) : bool :=
  let trans := (u + z u) - (u - 86400 + z (u - 86400)) - 86400 in
  if trans <? 0 then (u + trans + z (u + trans) =? u + z u) else false.

(** [a] does not sort after [b]. *)
Definition key_ge {A K : Type} (ltb : K -> K -> bool) (key : A -> K) (a b : A) : Prop :=
  ltb (key a) (key b) = false.





(** The rows a WHERE clause selects from a database, newest first;
    [None] when the statement does not execute. *)
Definition matching_rows (db : database) (w : list clause) (ps : list param)
  : option (list row) :=
  match bind_where w ps with
  | Some (f, []) => Some (sort_desc Z.ltb r_visit_time (filter f (join db)))
  | _ => None
  end.

(** Rows and the records built from them, index by index. *)
Definition rows_records (tz : zone) (profile : string)
  : list row -> list VisitRecord -> Prop :=
  Forall2 (fun r rec => record_of_row tz profile r = Some rec).

(** The timestamp of a row converts. *)
Definition convertible (tz : zone) (r : row) : Prop :=
  chrome_time_to_datetime tz (r_visit_time r) <> None.

(** The zone shows the rows in their stored order: of two rows the one
    stored with the later timestamp is never shown at an earlier reading
    of the local clock.  A zone that sets its clock back shows the visits
    of the repeated hour out of order. *)
Definition keeps_order (tz : zone) (rows : list row) : Prop :=
  forall r1 r2 d1 d2, In r1 rows -> In r2 rows ->
    r_visit_time r2 <= r_visit_time r1 ->
    chrome_time_to_datetime tz (r_visit_time r1) = Some d1 ->
    chrome_time_to_datetime tz (r_visit_time r2) = Some d2 ->
    wall_micros d2 <= wall_micros d1.

(** The whole second of Unix time at which [fromtimestamp] reads the
    local clock for a Chrome timestamp. *)
Definition unix_second (chrome_time : Z) : Z := micros (chrome_unix chrome_time) / 1000000.

Definition rows_descending : list row -> Prop := Sorted (key_ge Z.ltb r_visit_time).

Definition records_descending : list VisitRecord -> Prop :=
  Sorted (key_ge String.ltb visit_time).

(** The profiles a search names, the two configured ones by default. *)
Definition requested_profiles (profiles : option (list string)) : list string :=
  match profiles with
  | None => ["default"; "profile7"]%string
  | Some ps => ps
  end.

(** Every record of a profile that matches the WHERE clause, newest
    first: what a fetch without a limit returns.  [a] is the profile with
    the path of its database. *)
Definition matching_records (tz : zone) (fs : filesystem)
    (w : list clause) (ps : list param) (a : string * string) : list VisitRecord :=
  match connect fs (snd a) with
  | Some db =>
      match matching_rows db w ps with
      | Some rows =>
          match records_of_rows tz (fst a) rows with
          | Some res => res
          | None => []
          end
      | None => []
      end
  | None => []
  end.

(** Every row of the profile's database has a timestamp that converts. *)
Definition timestamps_convert (tz : zone) (fs : filesystem) (a : string * string) : bool :=
  match connect fs (snd a) with
  | Some db =>
      forallb
        (fun r => match chrome_time_to_datetime tz (r_visit_time r) with
                  | Some _ => true
                  | None => false
                  end)
        (join db)
  | None => true
  end.

(** The records of all profiles that match, globally sorted by
    [visit_time] descending. *)
Definition sorted_union (tz : zone) (fs : filesystem) (w : list clause) (ps : list param)
    (active : list (string * string)) : list VisitRecord :=
  sort_desc String.ltb visit_time (flat_map (matching_records tz fs w ps) active).

(** Non-increasing [visit_time] along the list. *)
Definition newest_first : list VisitRecord -> Prop :=
  Sorted (fun a b => String.leb (visit_time b) (visit_time a) = true).

Definition example_urls : list url_row :=
  [mk_url 1 "https://github.com/anthropics/claude" (Some "Anthropic Claude"%string);
   mk_url 2 "https://google.com/search?q=python" (Some "Python - Google Search"%string);
   mk_url 3 "https://stackoverflow.com/questions/123"
          (Some "How to code - Stack Overflow"%string);
   mk_url 4 "https://example.com/page" None].

(** Profile A: visits on 2024-01-01T10:00 and 2024-02-01T14:00 (UTC). *)
Definition example_db_a : database :=
  mk_db example_urls [mk_visit 1 1 13348576800000000; mk_visit 2 3 13351269600000000].

(** Profile B: visits on 2024-01-15T12:00 and 2024-02-15T16:00 (UTC). *)
Definition example_db_b : database :=
  mk_db example_urls [mk_visit 1 2 13349793600000000; mk_visit 2 4 13352486400000000].

(** Both configured profiles copied, and a third file that is no
    database. *)
Definition example_fs : filesystem :=
  fun path =>
    if String.eqb path "/tmp/arc_history_search/default_History"
    then Some (Database example_db_a)
    else if String.eqb path "/tmp/arc_history_search/profile7_History"
    then Some (Database example_db_b)
    else if String.eqb path "/tmp/arc_history_search/broken_History"
    then Some Unreadable
    else None.

(** The zone keeps the stored order of the rows of every profile
    searched. *)
Definition profiles_keep_order (tz : zone) (fs : filesystem)
    (active : list (string * string)) : Prop :=
  forall a db, In a active -> connect fs (snd a) = Some db -> keeps_order tz (join db).

(** The night of 2024-11-03, when the clocks of New York went back from
    02:00 to 01:00.  Profile A visited at 05:50 and at 06:10 UTC, which
    the local clock shows as 01:50 and, an hour of daylight time later,
    01:10. *)
Definition fall_back_db_a : database :=
  mk_db [mk_url 1 "https://example.com/a-0550z" (Some "A at 05:50 UTC"%string);
         mk_url 2 "https://example.com/a-0610z" (Some "A at 06:10 UTC"%string)]
        [mk_visit 1 1 13375086600000000; mk_visit 2 2 13375087800000000].

(** Profile B visited at 05:30 UTC, 01:30 on the local clock. *)
Definition fall_back_db_b : database :=
  mk_db [mk_url 1 "https://example.com/b-0530z" (Some "B at 05:30 UTC"%string)]
        [mk_visit 1 1 13375085400000000].

Definition fall_back_fs : filesystem :=
  fun path =>
    if String.eqb path "/tmp/arc_history_search/default_History"
    then Some (Database fall_back_db_a)
    else if String.eqb path "/tmp/arc_history_search/profile7_History"
    then Some (Database fall_back_db_b)
    else None.

(** The three records of that night as the search shows them. *)
Definition fall_back_a_0550z : VisitRecord :=
  mk_record "https://example.com/a-0550z" "A at 05:50 UTC"
            "2024-11-03T01:50:00" "2024-11-03 01:50:00" "default".

Definition fall_back_a_0610z : VisitRecord :=
  mk_record "https://example.com/a-0610z" "A at 06:10 UTC"
            "2024-11-03T01:10:00" "2024-11-03 01:10:00" "default".

Definition fall_back_b_0530z : VisitRecord :=
  mk_record "https://example.com/b-0530z" "B at 05:30 UTC"
            "2024-11-03T01:30:00" "2024-11-03 01:30:00" "profile7".

(** Chrome timestamps at or below [CHROME_MIN_ERROR] (0001-01-01T00:00:00
    UTC) and at or above [CHROME_MAX_ERROR] (10000-01-01T23:59:59 UTC) do
    not convert in any zone less than a day from UTC. *)
Definition CHROME_MIN_ERROR : Z := -50491123200000000.
Definition CHROME_MAX_ERROR : Z := 265046860799000000.






(** Whether the WHERE clause of a filter selects a row; [None] when the
    clause was not built or does not bind. *)
Definition where_accepts (wc : option (list clause * list param)) (r : row)
  : option bool :=
  match wc with
  | Some (w, ps) =>
      match bind_where w ps with
      | Some (f, []) => Some (f r)
      | _ => None
      end
  | None => None
  end.


(** The bounds a filter puts on [visit_time]. *)
Definition date_bounds (tz : zone) (start_date end_date : option datetime)
  : option (option Z * option Z) :=
  match
    match start_date with
    | Some sd => option_map Some (datetime_to_chrome_time tz sd)
    | None => Some None
    end
  with
  | None => None
  | Some lo =>
      match end_date with
      | Some ed =>
          match make_datetime (year ed) (month ed) (day ed) 23 59 59 0 with
          | Some end_of_day =>
              option_map (fun n => (lo, Some n)) (datetime_to_chrome_time tz end_of_day)
          | None => None
          end
      | None => Some (lo, None)
      end
  end.



(** The window a page shows of a list. *)
Definition page_window {A : Type} (page per_page : Z) (l : list A) : list A :=
  firstn (Z.to_nat per_page) (skipn (Z.to_nat ((page - 1) * per_page)) l).

(** The records [search_history] returns for a page, none when it
    raises. *)
Definition page_results (tz : zone) (fs : filesystem) (keyword : option string)
    (start_date end_date : option datetime) (profiles : option (list string))
    (per_page : Z) (page : nat) : list VisitRecord :=
  match
    search_history tz fs keyword start_date end_date profiles (Z.of_nat page) per_page
  with
  | Some (results, _) => results
  | None => []
  end.

(** Pages 1 to [k], one after the other. *)
Definition first_pages (tz : zone) (fs : filesystem) (keyword : option string)
    (start_date end_date : option datetime) (profiles : option (list string))
    (per_page : Z) (k : nat) : list VisitRecord :=
  flat_map (page_results tz fs keyword start_date end_date profiles per_page) (seq 1 k).

(** The request with its [q] argument replaced. *)
Definition set_q (req : request) (a : option string) : request :=
  mk_request a (arg_start req) (arg_end req) (arg_profile req) (arg_page req).

Fixpoint all_space (s : string) : bool :=
  match s with
  | EmptyString => true
  | String c s' => is_space c && all_space s'
  end.

(** What [lstrip] leaves does not start with a space. *)
Definition no_leading_space (s : string) : Prop :=
  match s with
  | EmptyString => True
  | String c _ => is_space c = false
  end.

(** The path of a profile's snapshot. *)
Definition snapshot_path (profile : string) : string :=
  (TEMP_DIR ++ "/" ++ profile ++ "_History")%string.

(** One round of the loop on the file system alone. *)
Definition copy_profile_fs (copy2 : string -> copy_outcome) (fs : filesystem)
    (entry : string * string) : filesystem :=
  fst (copy_profile copy2 (fs, []) entry).

(** The entry one round adds to [copied]. *)
Definition copy_profile_entry (copy2 : string -> copy_outcome) (fs : filesystem)
    (entry : string * string) : string * option string :=
  (fst entry,
   match fs (snd entry) with
   | Some _ =>
       match copy2 (snd entry) with
       | Copied => Some (snapshot_path (fst entry))
       | CopyFailed _ => None
       end
   | None => None
   end).

(** The source paths of the two profiles. *)
Definition default_source (home : string) : string :=
  (home ++ "/Library/Application Support/Arc/User Data/Default/History")%string.

Definition profile7_source (home : string) : string :=
  (home ++ "/Library/Application Support/Arc/User Data/Profile 7/History")%string.

(** Whether the copy from [source] completes: the source exists and
    [copy2] does not raise. *)
Definition copy_succeeds (copy2 : string -> copy_outcome) (fs : filesystem)
    (source : string) : bool :=
  match fs source with
  | Some _ => match copy2 source with Copied => true | CopyFailed _ => false end
  | None => false
  end.

(** A home directory, and a file system in which the default profile
    has its history file and Profile 7 has none, only a snapshot from an
    earlier refresh. *)
Definition example_home : string := "/Users/arc".

Definition example_sources : filesystem :=
  fun path =>
    if String.eqb path (default_source example_home)
    then Some (Database example_db_a)
    else if String.eqb path (snapshot_path "profile7")
    then Some (Database example_db_b)
    else None.

(** The snapshots as a complete refresh writes them: each holds what
    the source of its profile held. *)
Definition fresh_snapshots (home : string) (fs : filesystem) : filesystem :=
  fun path =>
    if String.eqb path (snapshot_path "default") then fs (default_source home)
    else if String.eqb path (snapshot_path "profile7") then fs (profile7_source home)
    else None.

(** A file system in which both profiles have their history file. *)
Definition example_both_sources : filesystem :=
  fun path =>
    if String.eqb path (default_source example_home)
    then Some (Database example_db_a)
    else if String.eqb path (profile7_source example_home)
    then Some (Database example_db_b)
    else None.

(** * Properties *)

Section FloatFacts.
#[local] Open Scope Q_scope.

Lemma pow2_pos e : 0 < pow2 e.
Proof. unfold pow2. apply Qpower_0_lt. reflexivity. Qed.

Lemma pow2_add a b : pow2 (a + b) == pow2 a * pow2 b.
Proof. unfold pow2. apply Qpower_plus. discriminate. Qed.

Lemma pow2_le a b : (a <= b)%Z -> pow2 a <= pow2 b.
Proof. intros. unfold pow2. apply Qpower_le_compat_l; [assumption | discriminate]. Qed.

Lemma pow2_lt a b : (a < b)%Z -> pow2 a < pow2 b.
Proof. intros. unfold pow2. apply Qpower_lt_compat_l; [assumption | reflexivity]. Qed.

Lemma pow2_nonneg_exp e : (0 <= e)%Z -> pow2 e == inject_Z (2 ^ e).
Proof.
  intros. unfold pow2. change (2 # 1) with (inject_Z 2).
  rewrite Zpower_Qpower by assumption. reflexivity.
Qed.

Lemma pow2_cancel e : pow2 e * pow2 (- e) == 1.
Proof. rewrite <- pow2_add. replace (e + - e)%Z with 0%Z by lia. reflexivity. Qed.

(** ** Round half to even *)
Lemma rne_floor_bounds x : (Qfloor x <= rne x <= Qfloor x + 1)%Z.
Proof.
  unfold rne. destruct (Qcompare _ _); try destruct (Z.even _); lia.
Qed.

Lemma rne_comp x y : x == y -> rne x = rne y.
Proof.
  intros E. unfold rne. rewrite (Qfloor_comp _ _ E).
  assert (C : Qcompare (x - inject_Z (Qfloor y)) (1#2) = Qcompare (y - inject_Z (Qfloor y)) (1#2)).
  { apply Qcompare_comp; [rewrite E|]; reflexivity. }
  rewrite C. reflexivity.
Qed.

Lemma rne_inject n : rne (inject_Z n) = n.
Proof.
  unfold rne. rewrite Qfloor_Z.
  assert (C : Qcompare (inject_Z n - inject_Z n) (1#2) = Lt).
  { rewrite <- Qlt_alt. lra. }
  rewrite C. reflexivity.
Qed.

Lemma rne_mono x y : x <= y -> (rne x <= rne y)%Z.
Proof.
  intros L.
  pose proof (Qfloor_resp_le _ _ L) as F.
  pose proof (rne_floor_bounds x) as Bx. pose proof (rne_floor_bounds y) as By.
  destruct (Z.eq_dec (Qfloor x) (Qfloor y)) as [E|N]; [|lia].
  unfold rne in *. rewrite E in *.
  set (f := Qfloor y) in *.
  destruct (Qcompare (x - inject_Z f) (1#2)) eqn:Cx;
  destruct (Qcompare (y - inject_Z f) (1#2)) eqn:Cy;
  try rewrite <- Qeq_alt in *; try rewrite <- Qlt_alt in *; try rewrite <- Qgt_alt in *;
  try destruct (Z.even f); try lia; exfalso; lra.
Qed.

Lemma rne_ge n x : inject_Z n <= x -> (n <= rne x)%Z.
Proof. intros H. rewrite <- (rne_inject n). apply rne_mono, H. Qed.

Lemma rne_le n x : x <= inject_Z n -> (rne x <= n)%Z.
Proof. intros H. rewrite <- (rne_inject n). apply rne_mono, H. Qed.

Lemma Qfloor_opp_int x n : x == inject_Z n -> Qfloor x = n.
Proof. intros E. rewrite (Qfloor_comp _ _ E). apply Qfloor_Z. Qed.

Lemma rne_opp x : rne (- x) = (- rne x)%Z.
Proof.
  pose proof (Qfloor_le x) as F1. pose proof (Qlt_floor x) as F2.
  set (f := Qfloor x) in *.
  destruct (Qeq_dec x (inject_Z f)) as [E|N].
  - rewrite (rne_comp x (inject_Z f) E).
    assert (E' : - x == inject_Z (- f)) by (rewrite inject_Z_opp, E; reflexivity).
    rewrite (rne_comp _ _ E'). rewrite !rne_inject. reflexivity.
  - assert (Fn : Qfloor (- x) = (- f - 1)%Z).
    { pose proof (Qfloor_le (- x)) as G1. pose proof (Qlt_floor (- x)) as G2.
      set (g := Qfloor (- x)) in *.
      assert (I1 : inject_Z (f + 1) == inject_Z f + 1) by (rewrite inject_Z_plus; reflexivity).
      assert (I2 : inject_Z (g + 1) == inject_Z g + 1) by (rewrite inject_Z_plus; reflexivity).
      assert (L1 : inject_Z g < inject_Z (- f)).
      { assert (I3 : inject_Z (- f) == - inject_Z f) by (rewrite inject_Z_opp; reflexivity).
        destruct (Qlt_le_dec (inject_Z g) (inject_Z (- f))); [assumption|].
        exfalso. apply N. lra. }
      assert (L2 : inject_Z (- f - 2) < inject_Z g).
      { assert (I3 : inject_Z (- f - 2) == - inject_Z f - 2).
        { unfold Zminus. rewrite inject_Z_plus, inject_Z_opp. reflexivity. }
        lra. }
      rewrite <- Zlt_Qlt in *. lia. }
    unfold rne. rewrite Fn. fold f.
    replace (Z.even (- f - 1)) with (negb (Z.even f)).
    2:{ replace (- f - 1)%Z with (- (f + 1))%Z by lia. rewrite Z.even_opp.
        replace (f + 1)%Z with (Z.succ f) by lia. rewrite Z.even_succ, <- Z.negb_even. reflexivity. }
    assert (I : inject_Z (- f - 1) == - inject_Z f - 1).
    { unfold Zminus. rewrite inject_Z_plus, inject_Z_opp. reflexivity. }
    destruct (Qcompare (x - inject_Z f) (1#2)) eqn:Cx;
    destruct (Qcompare (- x - inject_Z (- f - 1)) (1#2)) eqn:Cy;
    try rewrite <- Qeq_alt in *; try rewrite <- Qlt_alt in *; try rewrite <- Qgt_alt in *;
    rewrite ?I in *;
    try (destruct (Z.even f); simpl; lia); try lia; exfalso; lra.
Qed.

(** ** The binade of a rational *)
Lemma pow2_sub a b : (0 <= a)%Z -> (0 <= b)%Z ->
  pow2 (a - b) == inject_Z (2 ^ a) / inject_Z (2 ^ b).
Proof.
  intros Ha Hb. unfold pow2. rewrite Qpower_minus by discriminate.
  change (2 # 1) with (inject_Z 2).
  rewrite <- (Zpower_Qpower 2 a), <- (Zpower_Qpower 2 b) by assumption. reflexivity.
Qed.

Lemma Qabs_frac x : Qabs x = Z.abs (Qnum x) # Qden x.
Proof. destruct x. reflexivity. Qed.

Lemma binade_spec x : ~ x == 0 ->
  pow2 (binade x) <= Qabs x /\ Qabs x < pow2 (binade x + 1).
Proof.
  intros Nz.
  assert (Hp : (0 < Z.abs (Qnum x))%Z).
  { destruct x as [n d]. unfold Qeq in Nz. simpl in *. lia. }
  unfold binade.
  set (p := Z.abs (Qnum x)) in *. set (q := Zpos (Qden x)).
  assert (Hq : (0 < q)%Z) by (unfold q; lia).
  pose proof (Z.log2_spec p Hp) as [Lp Up].
  pose proof (Z.log2_spec q Hq) as [Lq Uq].
  pose proof (Z.log2_nonneg p) as Na. pose proof (Z.log2_nonneg q) as Nb.
  set (a := Z.log2 p) in *. set (b := Z.log2 q) in *.
  rewrite Z.pow_succ_r in Up, Uq by assumption.
  assert (Pa : (0 < 2 ^ a)%Z) by (apply Z.pow_pos_nonneg; lia).
  assert (Pb : (0 < 2 ^ b)%Z) by (apply Z.pow_pos_nonneg; lia).
  assert (U : Qabs x < pow2 (a - b + 1)).
  { replace (a - b + 1)%Z with ((a + 1) - b)%Z by lia.
    rewrite pow2_sub by lia.
    apply Qlt_shift_div_l; [rewrite <- (Zlt_Qlt 0); assumption|].
    rewrite Qabs_frac. fold p. unfold Qlt. simpl.
    rewrite Z.pow_add_r by lia. change (2 ^ 1)%Z with 2%Z.
    fold q. nia. }
  assert (L : pow2 (a - b - 1) <= Qabs x).
  { replace (a - b - 1)%Z with (a - (b + 1))%Z by lia.
    rewrite pow2_sub by lia.
    apply Qle_shift_div_r; [rewrite <- (Zlt_Qlt 0); apply Z.pow_pos_nonneg; lia|].
    rewrite Qabs_frac. fold p. unfold Qle. simpl.
    rewrite Z.pow_add_r by lia. change (2 ^ 1)%Z with 2%Z.
    fold q. nia. }
  destruct (Qle_bool (pow2 (a - b)) (Qabs x)) eqn:C.
  - apply Qle_bool_iff in C. split; assumption.
  - assert (C' : Qabs x < pow2 (a - b)).
    { apply Qnot_le_lt. intros H. apply Qle_bool_iff in H. congruence. }
    replace (a - b - 1 + 1)%Z with (a - b)%Z by lia. split; assumption.
Qed.

Lemma binade_unique y e e' :
  pow2 e <= y -> y < pow2 (e + 1) -> pow2 e' <= y -> y < pow2 (e' + 1) -> e = e'.
Proof.
  intros L1 U1 L2 U2.
  destruct (Z.lt_trichotomy e e') as [H|[H|H]]; [|assumption|]; exfalso.
  - assert (pow2 (e + 1) <= pow2 e') by (apply pow2_le; lia). lra.
  - assert (pow2 (e' + 1) <= pow2 e) by (apply pow2_le; lia). lra.
Qed.

Lemma binade_comp x y : ~ x == 0 -> x == y -> binade x = binade y.
Proof.
  intros Nz E.
  assert (Ny : ~ y == 0) by (rewrite <- E; assumption).
  destruct (binade_spec x Nz) as [L1 U1]. destruct (binade_spec y Ny) as [L2 U2].
  assert (Ea : Qabs x == Qabs y) by (apply Qabs_wd; assumption).
  apply (binade_unique (Qabs x)); try assumption; lra.
Qed.

Lemma binade_mono x y : ~ x == 0 -> ~ y == 0 -> Qabs x <= Qabs y ->
  (binade x <= binade y)%Z.
Proof.
  intros Nx Ny L.
  destruct (binade_spec x Nx) as [L1 U1]. destruct (binade_spec y Ny) as [L2 U2].
  destruct (Z_le_gt_dec (binade x) (binade y)) as [H|H]; [assumption|exfalso].
  assert (pow2 (binade y + 1) <= pow2 (binade x)) by (apply pow2_le; lia). lra.
Qed.

Lemma binade_lt x e : ~ x == 0 -> Qabs x < pow2 e -> (binade x < e)%Z.
Proof.
  intros Nx L. destruct (binade_spec x Nx) as [L1 U1].
  destruct (Z_lt_ge_dec (binade x) e) as [H|H]; [assumption|exfalso].
  assert (pow2 e <= pow2 (binade x)) by (apply pow2_le; lia). lra.
Qed.

(** ** Rounding to binary64 *)
Lemma b64_zero x : x == 0 -> b64 x = 0.
Proof. intros E. unfold b64. rewrite (Qeq_eq_bool _ _ E). reflexivity. Qed.

Lemma b64_nz x : ~ x == 0 ->
  b64 x = inject_Z (rne (x * pow2 (- ulp_exp x))) * pow2 (ulp_exp x).
Proof.
  intros N. unfold b64. destruct (Qeq_bool x 0) eqn:C; [|reflexivity].
  apply Qeq_bool_eq in C. contradiction.
Qed.

Lemma ulp_exp_comp x y : ~ x == 0 -> x == y -> ulp_exp x = ulp_exp y.
Proof. intros N E. unfold ulp_exp. rewrite (binade_comp x y N E). reflexivity. Qed.

Lemma b64_comp x y : x == y -> b64 x == b64 y.
Proof.
  intros E. destruct (Qeq_dec x 0) as [Z0|N].
  - rewrite (b64_zero x Z0), (b64_zero y) by (rewrite <- E; assumption). reflexivity.
  - assert (Ny : ~ y == 0) by (rewrite <- E; assumption).
    rewrite (b64_nz x N), (b64_nz y Ny), (ulp_exp_comp x y N E).
    rewrite (rne_comp (x * pow2 (- ulp_exp y)) (y * pow2 (- ulp_exp y))); [reflexivity|].
    rewrite E. reflexivity.
Qed.

#[global] Instance b64_proper : Proper (Qeq ==> Qeq) b64.
Proof. intros x y E. apply b64_comp, E. Qed.

Lemma binade_opp x : binade (- x) = binade x.
Proof. unfold binade. destruct x as [n d]. simpl. rewrite Z.abs_opp. 
  replace (Qabs (- (n # d))) with (Qabs (n # d)); [reflexivity|].
  unfold Qabs, Qopp. simpl. rewrite Z.abs_opp. reflexivity.
Qed.

Lemma b64_opp x : b64 (- x) == - b64 x.
Proof.
  destruct (Qeq_dec x 0) as [Z0|N].
  - rewrite (b64_zero x Z0), (b64_zero (- x)) by (rewrite Z0; reflexivity). reflexivity.
  - assert (Nn : ~ - x == 0) by (intros H; apply N; lra).
    rewrite (b64_nz x N), (b64_nz _ Nn). unfold ulp_exp. rewrite binade_opp.
    rewrite (rne_comp (- x * pow2 (- Z.max (binade x - 52) (-1074)))
                      (- (x * pow2 (- Z.max (binade x - 52) (-1074))))) by ring.
    rewrite rne_opp, inject_Z_opp. ring.
Qed.

Lemma scale_cancel x e : x * pow2 (- e) * pow2 e == x.
Proof.
  rewrite <- Qmult_assoc, <- pow2_add. replace (- e + e)%Z with 0%Z by lia.
  unfold pow2. simpl. ring.
Qed.

(** A rational with at most 53 significant bits above the subnormal floor
    is a binary64 value. *)
Lemma b64_exact x m j :
  x == inject_Z m * pow2 j -> (Z.abs m < 2 ^ 53)%Z -> (-1074 <= j)%Z ->
  b64 x == x.
Proof.
  intros E Hm Hj. destruct (Qeq_dec x 0) as [Z0|N].
  - rewrite (b64_zero x Z0), Z0. reflexivity.
  - rewrite (b64_nz x N).
    assert (He : (ulp_exp x <= j)%Z).
    { unfold ulp_exp. apply Z.max_lub; [|assumption].
      assert ((binade x < 53 + j)%Z); [|lia].
      apply binade_lt; [assumption|].
      rewrite (Qabs_wd _ _ E), Qabs_Qmult, pow2_add.
      rewrite (Qabs_pos (pow2 j)) by (apply Qlt_le_weak, pow2_pos).
      apply Qmult_lt_compat_r; [apply pow2_pos|].
      rewrite pow2_nonneg_exp by lia.
      change (Qabs (inject_Z m)) with (inject_Z (Z.abs m)).
      rewrite <- Zlt_Qlt. assumption. }
    set (e := ulp_exp x) in *.
    assert (S : x * pow2 (- e) == inject_Z (m * 2 ^ (j - e))).
    { rewrite E, inject_Z_mult, <- pow2_nonneg_exp by lia.
      rewrite <- Qmult_assoc, <- pow2_add. replace (j + - e)%Z with (j - e)%Z by lia.
      reflexivity. }
    rewrite (rne_comp _ _ S), rne_inject, <- S. apply scale_cancel.
Qed.

Lemma b64_int n : (Z.abs n < 2 ^ 53)%Z -> b64 (inject_Z n) == inject_Z n.
Proof.
  intros H. apply (b64_exact _ n 0); [|assumption|lia].
  unfold pow2. simpl. ring.
Qed.

Lemma ulp_scaled_upper x : 0 < x -> x * pow2 (- ulp_exp x) <= pow2 53.
Proof.
  intros P. assert (N : ~ x == 0) by lra.
  destruct (binade_spec x N) as [_ U]. rewrite Qabs_pos in U by lra.
  apply Qle_trans with (pow2 (binade x + 1) * pow2 (- ulp_exp x)).
  - apply Qmult_le_compat_r; [lra | apply Qlt_le_weak, pow2_pos].
  - rewrite <- pow2_add. apply pow2_le. unfold ulp_exp. lia.
Qed.

Lemma ulp_scaled_lower x : 0 < x -> (-1074 < ulp_exp x)%Z ->
  pow2 52 <= x * pow2 (- ulp_exp x).
Proof.
  intros P G. assert (N : ~ x == 0) by lra.
  destruct (binade_spec x N) as [L _]. rewrite Qabs_pos in L by lra.
  apply Qle_trans with (pow2 (binade x) * pow2 (- ulp_exp x)).
  - rewrite <- pow2_add. apply pow2_le. unfold ulp_exp in *. lia.
  - apply Qmult_le_compat_r; [lra | apply Qlt_le_weak, pow2_pos].
Qed.

Lemma b64_pos_upper x : 0 < x -> b64 x <= pow2 (53 + ulp_exp x).
Proof.
  intros P. rewrite (b64_nz x) by lra. rewrite pow2_add.
  apply Qmult_le_compat_r; [|apply Qlt_le_weak, pow2_pos].
  rewrite (pow2_nonneg_exp 53) by lia. rewrite <- Zle_Qle. apply rne_le.
  rewrite <- (pow2_nonneg_exp 53) by lia. apply ulp_scaled_upper, P.
Qed.

Lemma b64_pos_lower x : 0 < x -> (-1074 < ulp_exp x)%Z ->
  pow2 (52 + ulp_exp x) <= b64 x.
Proof.
  intros P G. rewrite (b64_nz x) by lra. rewrite pow2_add.
  apply Qmult_le_compat_r; [|apply Qlt_le_weak, pow2_pos].
  rewrite (pow2_nonneg_exp 52) by lia. rewrite <- Zle_Qle. apply rne_ge.
  rewrite <- (pow2_nonneg_exp 52) by lia. apply ulp_scaled_lower; assumption.
Qed.

Lemma b64_nonneg x : 0 <= x -> 0 <= b64 x.
Proof.
  intros P. destruct (Qeq_dec x 0) as [Z0|N].
  - rewrite (b64_zero x Z0). lra.
  - rewrite (b64_nz x N). apply Qmult_le_0_compat; [|apply Qlt_le_weak, pow2_pos].
    rewrite <- (Zle_Qle 0). apply rne_ge.
    apply Qmult_le_0_compat; [assumption|apply Qlt_le_weak, pow2_pos].
Qed.

Lemma b64_mono_pos x y : 0 < x -> x <= y -> b64 x <= b64 y.
Proof.
  intros P L. assert (Py : 0 < y) by lra.
  assert (Nx : ~ x == 0) by lra. assert (Ny : ~ y == 0) by lra.
  assert (He : (ulp_exp x <= ulp_exp y)%Z).
  { unfold ulp_exp. apply Z.max_le_compat_r.
    assert ((binade x <= binade y)%Z); [|lia].
    apply binade_mono; try assumption. rewrite !Qabs_pos by lra. assumption. }
  destruct (Z.eq_dec (ulp_exp x) (ulp_exp y)) as [E|NE].
  - rewrite (b64_nz x Nx), (b64_nz y Ny), E.
    apply Qmult_le_compat_r; [|apply Qlt_le_weak, pow2_pos].
    rewrite <- Zle_Qle. apply rne_mono.
    apply Qmult_le_compat_r; [assumption|apply Qlt_le_weak, pow2_pos].
  - apply Qle_trans with (pow2 (53 + ulp_exp x)); [apply b64_pos_upper, P|].
    apply Qle_trans with (pow2 (52 + ulp_exp y)); [apply pow2_le; lia|].
    apply b64_pos_lower; [assumption|]. unfold ulp_exp in *. lia.
Qed.

(** Rounding to nearest is monotone. *)
Lemma b64_mono x y : x <= y -> b64 x <= b64 y.
Proof.
  intros L.
  destruct (Qlt_le_dec 0 x) as [Px|Nx].
  - apply b64_mono_pos; assumption.
  - destruct (Qlt_le_dec y 0) as [Ny|Py].
    + assert (H : b64 (- y) <= b64 (- x)) by (apply b64_mono_pos; lra).
      rewrite !b64_opp in H. lra.
    + assert (H1 : 0 <= b64 y) by (apply b64_nonneg, Py).
      assert (H2 : 0 <= b64 (- x)) by (apply b64_nonneg; lra).
      rewrite b64_opp in H2. lra.
Qed.

(** ** Truncation and the split into seconds and microseconds *)
Lemma to_int_comp x y : x == y -> to_int x = to_int y.
Proof.
  intros E. unfold to_int. rewrite (Qleb_comp 0 0 (Qeq_refl 0) x y E).
  rewrite (Qfloor_comp _ _ E), (Qceiling_comp _ _ E). reflexivity.
Qed.

Lemma to_int_inject n : to_int (inject_Z n) = n.
Proof. unfold to_int. rewrite Qfloor_Z, Qceiling_Z. destruct (Qle_bool _ _); reflexivity. Qed.

Lemma to_int_nonneg x : 0 <= x -> to_int x = Qfloor x.
Proof. intros H. unfold to_int. apply Qle_bool_iff in H. rewrite H. reflexivity. Qed.

Lemma to_int_neg x : x < 0 -> to_int x = Qceiling x.
Proof.
  intros H. unfold to_int. destruct (Qle_bool 0 x) eqn:C; [|reflexivity].
  apply Qle_bool_iff in C. lra.
Qed.

Lemma to_int_mono x y : x <= y -> (to_int x <= to_int y)%Z.
Proof.
  intros L. destruct (Qlt_le_dec x 0) as [Nx|Px]; destruct (Qlt_le_dec y 0) as [Ny|Py].
  - rewrite !to_int_neg by assumption. apply Qceiling_resp_le, L.
  - rewrite (to_int_neg x), (to_int_nonneg y) by assumption.
    assert ((Qceiling x <= 0)%Z).
    { change 0%Z with (Qceiling 0). apply Qceiling_resp_le. lra. }
    assert ((0 <= Qfloor y)%Z).
    { change 0%Z with (Qfloor 0). apply Qfloor_resp_le. assumption. }
    lia.
  - lra.
  - rewrite !to_int_nonneg by assumption. apply Qfloor_resp_le, L.
Qed.

Lemma b64_million : b64 (inject_Z 1000000) == inject_Z 1000000.
Proof. apply b64_int. reflexivity. Qed.

Lemma million_nonneg : 0 <= inject_Z 1000000.
Proof. change 0 with (inject_Z 0). rewrite <- Zle_Qle. lia. Qed.

Lemma mult_million_mono f g : f <= g -> f * inject_Z 1000000 <= g * inject_Z 1000000.
Proof. intros L. apply Qmult_le_compat_r; [assumption|apply million_nonneg]. Qed.

Lemma frac_us_nonneg_bounds f : 0 <= f -> f <= 1 ->
  (0 <= round (mul f (inject_Z 1000000)) <= 1000000)%Z.
Proof.
  intros L U. unfold round, mul. split.
  - apply rne_ge. apply b64_nonneg.
    apply Qmult_le_0_compat; [assumption|apply million_nonneg].
  - apply rne_le. apply Qle_trans with (b64 (inject_Z 1000000)).
    + apply b64_mono. apply Qle_trans with (1 * inject_Z 1000000).
      * apply mult_million_mono, U.
      * rewrite Qmult_1_l. apply Qle_refl.
    + rewrite b64_million. apply Qle_refl.
Qed.

Lemma frac_us_nonpos_bounds f : -1 <= f -> f <= 0 ->
  (-1000000 <= round (mul f (inject_Z 1000000)) <= 0)%Z.
Proof.
  intros L U.
  assert (H := frac_us_nonneg_bounds (- f) ltac:(lra) ltac:(lra)).
  unfold round, mul in *.
  rewrite (rne_comp (b64 (- f * inject_Z 1000000)) (- b64 (f * inject_Z 1000000))) in H.
  - rewrite rne_opp in H. lia.
  - rewrite <- b64_opp. apply b64_comp. ring.
Qed.

Lemma frac_us_mono f g : f <= g ->
  (round (mul f (inject_Z 1000000)) <= round (mul g (inject_Z 1000000)))%Z.
Proof.
  intros L. unfold round, mul. apply rne_mono, b64_mono, mult_million_mono, L.
Qed.

Lemma modf_nonneg x : 0 <= x ->
  0 <= x - inject_Z (to_int x) /\ x - inject_Z (to_int x) <= 1.
Proof.
  intros P. rewrite (to_int_nonneg x P).
  pose proof (Qfloor_le x). pose proof (Qlt_floor x) as H2.
  rewrite inject_Z_plus in H2. change (inject_Z 1) with 1 in H2. lra.
Qed.

Lemma modf_neg x : x < 0 ->
  -1 <= x - inject_Z (to_int x) /\ x - inject_Z (to_int x) <= 0.
Proof.
  intros P. rewrite (to_int_neg x P).
  pose proof (Qle_ceiling x). pose proof (Qceiling_lt x) as H2.
  unfold Zminus in H2. rewrite inject_Z_plus, inject_Z_opp in H2.
  change (inject_Z 1) with 1 in H2. lra.
Qed.

Lemma micros_bounds x :
  (if Qle_bool 0 x
   then to_int x * 1000000 <= micros x <= to_int x * 1000000 + 1000000
   else to_int x * 1000000 - 1000000 <= micros x <= to_int x * 1000000)%Z.
Proof.
  unfold micros, modf. destruct (Qle_bool 0 x) eqn:C.
  - apply Qle_bool_iff in C. destruct (modf_nonneg x C) as [L U].
    pose proof (frac_us_nonneg_bounds _ L U). lia.
  - assert (N : x < 0).
    { apply Qnot_le_lt. intros H. apply Qle_bool_iff in H. congruence. }
    destruct (modf_neg x N) as [L U].
    pose proof (frac_us_nonpos_bounds _ L U). lia.
Qed.

Lemma micros_mono x y : x <= y -> (micros x <= micros y)%Z.
Proof.
  intros L. pose proof (to_int_mono x y L) as I.
  destruct (Z.eq_dec (to_int x) (to_int y)) as [E|NE].
  - unfold micros, modf. rewrite E.
    assert (H : x - inject_Z (to_int y) <= y - inject_Z (to_int y)) by lra.
    pose proof (frac_us_mono _ _ H). lia.
  - pose proof (micros_bounds x) as Bx. pose proof (micros_bounds y) as By.
    destruct (Qle_bool 0 x) eqn:Cx; destruct (Qle_bool 0 y) eqn:Cy; try lia.
    exfalso. apply Qle_bool_iff in Cx.
    assert (Qle_bool 0 y = true) by (apply Qle_bool_iff; lra). congruence.
Qed.

Lemma micros_inject n : micros (inject_Z n) = (n * 1000000)%Z.
Proof.
  unfold micros, modf. rewrite to_int_inject. unfold round, mul.
  rewrite (rne_comp _ 0); [change (rne 0) with 0%Z; lia|].
  rewrite b64_zero; [reflexivity|]. ring.
Qed.

Lemma micros_comp x y : x == y -> micros x = micros y.
Proof.
  intros E. unfold micros, modf, round, mul. rewrite (to_int_comp x y E).
  f_equal. apply rne_comp, b64_comp. rewrite E. reflexivity.
Qed.

End FloatFacts.

Lemma month_day_table :
  forallb (fun k => month_day_ok false (Z.of_nat k)) (seq 0%nat 365%nat)
  && forallb (fun k => month_day_ok true (Z.of_nat k)) (seq 0%nat 366%nat) = true.
Proof. vm_compute. reflexivity. Qed.

Lemma month_day_spec (leapyear : bool) (n : Z) :
  0 <= n < 365 + (if leapyear then 1 else 0) ->
  month_day_ok leapyear n = true.
Proof.
  intros H. pose proof month_day_table as T. apply andb_prop in T as [T1 T2].
  rewrite forallb_forall in T1, T2.
  replace n with (Z.of_nat (Z.to_nat n)) by lia.
  destruct leapyear; [apply T2 | apply T1]; apply in_seq; lia.
Qed.

Lemma ord2ymd_unfold n :
  ord2ymd n =
  let n0 := n - 1 in
  let n400 := n0 / DI400Y in let r1 := n0 mod DI400Y in
  let n100 := r1 / DI100Y in let r2 := r1 mod DI100Y in
  let n4 := r2 / DI4Y in let r3 := r2 mod DI4Y in
  let n1 := r3 / 365 in let r4 := r3 mod 365 in
  let y := n400 * 400 + 1 + n100 * 100 + n4 * 4 + n1 in
  if (n1 =? 4) || (n100 =? 4) then (y - 1, 12, 31)
  else
    let '(m, d) := month_day ((n1 =? 3) && (negb (n4 =? 24) || (n100 =? 3))) r4 in
    (y, m, d).
Proof.
  unfold ord2ymd, month_day. cbv zeta.
  destruct (_ || _); [reflexivity|].
  destruct (_ <? _); reflexivity.
Qed.

Lemma is_leap_spec y :
  is_leap y = true <-> (y mod 4 = 0 /\ (y mod 100 <> 0 \/ y mod 400 = 0)).
Proof.
  unfold is_leap. rewrite andb_true_iff, orb_true_iff, negb_true_iff, !Z.eqb_eq, Z.eqb_neq.
  tauto.
Qed.

(** [ord2ymd] returns a date of the calendar, the one with ordinal [n]. *)
Lemma ord2ymd_spec n :
  let '(y, m, d) := ord2ymd n in
  1 <= m <= 12 /\ 1 <= d <= days_in_month y m /\ ymd2ord y m d = n.
Proof.
  rewrite ord2ymd_unfold. cbv zeta. unfold DI400Y, DI100Y, DI4Y.
  set (n0 := n - 1).
  set (n400 := n0 / 146097). set (r1 := n0 mod 146097).
  set (n100 := r1 / 36524). set (r2 := r1 mod 36524).
  set (n4 := r2 / 1461). set (r3 := r2 mod 1461).
  set (n1 := r3 / 365). set (r4 := r3 mod 365).
  assert (E0 : n0 = 146097 * n400 + r1 /\ 0 <= r1 < 146097) by (unfold n400, r1; lia).
  assert (E1 : r1 = 36524 * n100 + r2 /\ 0 <= r2 < 36524) by (unfold n100, r2; lia).
  assert (E2 : r2 = 1461 * n4 + r3 /\ 0 <= r3 < 1461) by (unfold n4, r3; lia).
  assert (E3 : r3 = 365 * n1 + r4 /\ 0 <= r4 < 365) by (unfold n1, r4; lia).
  clearbody n400 r1 n100 r2 n4 r3 n1 r4.
  destruct ((n1 =? 4) || (n100 =? 4)) eqn:Sp.
  - (* last day of a leap year *)
    assert (L : is_leap (n400 * 400 + 1 + n100 * 100 + n4 * 4 + n1 - 1) = true).
    { apply is_leap_spec. apply orb_true_iff in Sp. rewrite !Z.eqb_eq in Sp. lia. }
    unfold ymd2ord, days_in_month, days_before_month, days_before_year.
    rewrite L. simpl.
    apply orb_true_iff in Sp. rewrite !Z.eqb_eq in Sp. lia.
  - apply orb_false_iff in Sp. rewrite !Z.eqb_neq in Sp.
    set (lp := (n1 =? 3) && (negb (n4 =? 24) || (n100 =? 3))).
    set (y := n400 * 400 + 1 + n100 * 100 + n4 * 4 + n1).
    assert (L : is_leap y = lp).
    { unfold lp. destruct (is_leap y) eqn:IL.
      - apply is_leap_spec in IL. symmetry.
        rewrite andb_true_iff, orb_true_iff, negb_true_iff, !Z.eqb_eq, Z.eqb_neq.
        unfold y in IL. lia.
      - symmetry. apply not_true_is_false. intros C.
        rewrite andb_true_iff, orb_true_iff, negb_true_iff, !Z.eqb_eq, Z.eqb_neq in C.
        assert (is_leap y = true); [|congruence].
        apply is_leap_spec. unfold y. lia. }
    assert (R : 0 <= r4 < 365 + (if lp then 1 else 0)) by (destruct lp; lia).
    pose proof (month_day_spec lp r4 R) as MD. unfold month_day_ok in MD.
    destruct (month_day lp r4) as [m d].
    rewrite !andb_true_iff, !Z.leb_le, Z.eqb_eq in MD.
    destruct MD as [[[[M1 M2] D1] D2] O].
    unfold ymd2ord, days_in_month, days_before_month. rewrite L.
    split; [lia|]. split.
    + destruct ((m =? 2) && lp) eqn:F; [|lia].
      apply andb_prop in F as [F _]. apply Z.eqb_eq in F. subst m.
      change (DAYS_IN_MONTH 2) with 28 in D2. lia.
    + unfold days_before_year, y. lia.
Qed.

Lemma days_before_year_succ y :
  days_before_year (y + 1) = days_before_year y + 365 + (if is_leap y then 1 else 0).
Proof.
  unfold days_before_year. destruct (is_leap y) eqn:L.
  - apply is_leap_spec in L. lia.
  - assert (N : ~ (y mod 4 = 0 /\ (y mod 100 <> 0 \/ y mod 400 = 0))).
    { intros C. apply is_leap_spec in C. congruence. }
    lia.
Qed.

Lemma days_before_year_mono a b : a <= b -> days_before_year a <= days_before_year b.
Proof. intros H. unfold days_before_year. lia. Qed.

Lemma month_cases m : 1 <= m <= 12 ->
  m = 1 \/ m = 2 \/ m = 3 \/ m = 4 \/ m = 5 \/ m = 6 \/
  m = 7 \/ m = 8 \/ m = 9 \/ m = 10 \/ m = 11 \/ m = 12.
Proof. lia. Qed.

Ltac month_split H :=
  apply month_cases in H;
  repeat (destruct H as [H|H]; [subst|]); [..|subst].

Ltac month_tables :=
  cbv [DAYS_BEFORE_MONTH DAYS_IN_MONTH Z.eqb Z.ltb Z.compare Pos.eqb
       Pos.compare Pos.compare_cont andb] in *.

Lemma day_of_year_bounds y m d : valid_md y m d ->
  1 <= days_before_month y m + d <= 365 + (if is_leap y then 1 else 0).
Proof.
  intros [M D]. unfold days_before_month, days_in_month in *.
  month_split M; destruct (is_leap y); month_tables; lia.
Qed.

Lemma day_of_year_lt y m d m' d' : valid_md y m d -> valid_md y m' d' ->
  m < m' -> days_before_month y m + d < days_before_month y m' + d'.
Proof.
  intros [M D] [M' D'] L. unfold days_before_month, days_in_month in *.
  month_split M; month_split M'; try lia;
    destruct (is_leap y); month_tables; lia.
Qed.

(** The ordinal grows with the date. *)
Lemma ymd2ord_lt y m d y' m' d' : valid_md y m d -> valid_md y' m' d' ->
  y < y' \/ (y = y' /\ (m < m' \/ (m = m' /\ d < d'))) ->
  ymd2ord y m d < ymd2ord y' m' d'.
Proof.
  intros V V' [L|[E [L|[E' L]]]]; unfold ymd2ord.
  - pose proof (day_of_year_bounds _ _ _ V). pose proof (day_of_year_bounds _ _ _ V').
    pose proof (days_before_year_succ y).
    pose proof (days_before_year_mono (y + 1) y' ltac:(lia)). lia.
  - subst y'. pose proof (day_of_year_lt _ _ _ _ _ V V' L). lia.
  - subst. lia.
Qed.

Lemma ymd2ord_inj y m d y' m' d' : valid_md y m d -> valid_md y' m' d' ->
  ymd2ord y m d = ymd2ord y' m' d' -> y = y' /\ m = m' /\ d = d'.
Proof.
  intros V V' E.
  destruct (Z.lt_trichotomy y y') as [H|[H|H]];
    [pose proof (ymd2ord_lt _ _ _ _ _ _ V V' (or_introl H)); lia| |
     pose proof (ymd2ord_lt _ _ _ _ _ _ V' V (or_introl H)); lia].
  subst y'.
  destruct (Z.lt_trichotomy m m') as [H|[H|H]];
    [pose proof (ymd2ord_lt _ _ _ _ _ _ V V' (or_intror (conj eq_refl (or_introl H)))); lia| |
     pose proof (ymd2ord_lt _ _ _ _ _ _ V' V (or_intror (conj eq_refl (or_introl H)))); lia].
  subst m'. unfold ymd2ord in E. lia.
Qed.

Lemma ord2ymd_ymd2ord y m d : valid_md y m d -> ord2ymd (ymd2ord y m d) = (y, m, d).
Proof.
  intros V. pose proof (ord2ymd_spec (ymd2ord y m d)) as S.
  destruct (ord2ymd (ymd2ord y m d)) as [[y' m'] d'].
  destruct S as [M [D E]].
  destruct (ymd2ord_inj y' m' d' y m d (conj M D) V E) as [-> [-> ->]]. reflexivity.
Qed.

Lemma ymd2ord_year_range y m d : valid_md y m d ->
  (MINYEAR <= y <= MAXYEAR <-> MIN_ORD <= ymd2ord y m d <= MAX_ORD).
Proof.
  intros V. pose proof (day_of_year_bounds _ _ _ V) as B.
  pose proof (days_before_year_succ y) as S.
  unfold MINYEAR, MAXYEAR, MIN_ORD, MAX_ORD, ymd2ord. split.
  - intros [L U].
    pose proof (days_before_year_mono 1 y L).
    pose proof (days_before_year_mono (y + 1) 10000 ltac:(lia)).
    change (days_before_year 1) with 0 in *.
    change (days_before_year 10000) with 3652059 in *. lia.
  - intros [L U]. split.
    + destruct (Z_le_gt_dec 1 y) as [H|H]; [assumption|exfalso].
      pose proof (days_before_year_mono (y + 1) 1 ltac:(lia)).
      change (days_before_year 1) with 0 in *. lia.
    + destruct (Z_le_gt_dec y 9999) as [H|H]; [assumption|exfalso].
      pose proof (days_before_year_mono 10000 y ltac:(lia)).
      change (days_before_year 10000) with 3652059 in *. lia.
Qed.

(** ** Wall-clock seconds *)

Lemma valid_date_iff y m d :
  valid_date y m d = true <-> MINYEAR <= y <= MAXYEAR /\ valid_md y m d.
Proof.
  unfold valid_date, valid_md. rewrite !andb_true_iff, !Z.leb_le. tauto.
Qed.

Lemma valid_time_iff h mi s us :
  valid_time h mi s us = true <->
  0 <= h < 24 /\ 0 <= mi < 60 /\ 0 <= s < 60 /\ 0 <= us < 1000000.
Proof.
  unfold valid_time. rewrite !andb_true_iff, !Z.leb_le, !Z.ltb_lt. tauto.
Qed.

Lemma make_datetime_some y m d h mi s us dt :
  make_datetime y m d h mi s us = Some dt <->
  dt = mk_datetime y m d h mi s us /\ valid_datetime dt = true.
Proof.
  unfold make_datetime. split.
  - destruct (_ && _) eqn:V; [|discriminate]. intros E. inversion E. subst.
    split; [reflexivity|]. unfold valid_datetime. simpl. assumption.
  - intros [-> V]. unfold valid_datetime in V. simpl in V. rewrite V. reflexivity.
Qed.

Lemma of_wall_seconds_wall dt : valid_datetime dt = true ->
  of_wall_seconds (wall_seconds dt) (microsecond dt) = Some (with_fold dt false).
Proof.
  intros V. pose proof V as V0. unfold valid_datetime in V.
  apply andb_prop in V as [Vd Vt].
  apply valid_date_iff in Vd as [Yr Vmd]. apply valid_time_iff in Vt as [H [M [S U]]].
  unfold of_wall_seconds, wall_seconds.
  set (o := ymd2ord (year dt) (month dt) (day dt)).
  replace (((o - EPOCH_ORD) * 86400 + hour dt * 3600 + minute dt * 60 + second dt) / 86400)
    with (o - EPOCH_ORD) by lia.
  replace (((o - EPOCH_ORD) * 86400 + hour dt * 3600 + minute dt * 60 + second dt) mod 86400)
    with (hour dt * 3600 + minute dt * 60 + second dt) by lia.
  replace (o - EPOCH_ORD + EPOCH_ORD) with o by lia. unfold o.
  rewrite (ord2ymd_ymd2ord _ _ _ Vmd).
  replace ((hour dt * 3600 + minute dt * 60 + second dt) / 3600) with (hour dt) by lia.
  replace ((hour dt * 3600 + minute dt * 60 + second dt) mod 3600 / 60) with (minute dt) by lia.
  replace ((hour dt * 3600 + minute dt * 60 + second dt) mod 60) with (second dt) by lia.
  apply make_datetime_some. split; [reflexivity|assumption].
Qed.

Lemma with_fold_same dt : with_fold dt (fold dt) = dt.
Proof. destruct dt; reflexivity. Qed.

Lemma of_wall_seconds_fold w us dt : of_wall_seconds w us = Some dt ->
  fold dt = false.
Proof.
  unfold of_wall_seconds. intros E.
  destruct (ord2ymd (w / 86400 + EPOCH_ORD)) as [[y m] d].
  apply make_datetime_some in E as [-> _]. reflexivity.
Qed.

Lemma of_wall_seconds_inv w us dt : of_wall_seconds w us = Some dt ->
  wall_seconds dt = w /\ microsecond dt = us /\ valid_datetime dt = true.
Proof.
  unfold of_wall_seconds. intros E.
  pose proof (ord2ymd_spec (w / 86400 + EPOCH_ORD)) as S.
  destruct (ord2ymd (w / 86400 + EPOCH_ORD)) as [[y m] d].
  destruct S as [M [D O]].
  apply make_datetime_some in E as [-> V]. split; [|split; [reflexivity|assumption]].
  unfold wall_seconds. simpl. rewrite O. unfold EPOCH_ORD. lia.
Qed.

Lemma valid_wall_range dt : valid_datetime dt = true ->
  MIN_WALL <= wall_seconds dt <= MAX_WALL.
Proof.
  intros V. unfold valid_datetime in V. apply andb_prop in V as [Vd Vt].
  apply valid_date_iff in Vd as [Yr Vmd]. apply valid_time_iff in Vt as [H [M [S U]]].
  apply (ymd2ord_year_range _ _ _ Vmd) in Yr.
  unfold wall_seconds, MIN_WALL, MAX_WALL, MIN_ORD, MAX_ORD, EPOCH_ORD in *. lia.
Qed.

Lemma of_wall_seconds_some w us :
  MIN_WALL <= w <= MAX_WALL -> 0 <= us < 1000000 ->
  exists dt, of_wall_seconds w us = Some dt.
Proof.
  intros R U. unfold of_wall_seconds.
  pose proof (ord2ymd_spec (w / 86400 + EPOCH_ORD)) as S.
  destruct (ord2ymd (w / 86400 + EPOCH_ORD)) as [[y m] d].
  destruct S as [M [D O]].
  eexists. apply make_datetime_some. split; [reflexivity|].
  unfold valid_datetime. simpl. apply andb_true_intro. split.
  - apply valid_date_iff. split; [|split; assumption].
    apply (ymd2ord_year_range y m d (conj M D)). rewrite O.
    unfold MIN_WALL, MAX_WALL, MIN_ORD, MAX_ORD, EPOCH_ORD in *. lia.
  - apply valid_time_iff. lia.
Qed.

Lemma of_wall_seconds_none w us :
  w < MIN_WALL \/ MAX_WALL < w -> of_wall_seconds w us = None.
Proof.
  intros R. destruct (of_wall_seconds w us) as [dt|] eqn:E; [exfalso|reflexivity].
  apply of_wall_seconds_inv in E as [W [_ V]].
  pose proof (valid_wall_range dt V). lia.
Qed.

Lemma N_of_digit d : 0 <= d <= 9 -> N_of_ascii (digit d) = Z.to_N (48 + d).
Proof.
  intros H. unfold digit. apply N_ascii_embedding. lia.
Qed.

Lemma compare_digit a b : 0 <= a <= 9 -> 0 <= b <= 9 ->
  Ascii.compare (digit a) (digit b) = (a ?= b).
Proof.
  intros Ha Hb. unfold Ascii.compare. rewrite !N_of_digit by assumption.
  rewrite Z2N.inj_compare by lia. apply Z.add_compare_mono_l.
Qed.

Lemma compare_cons c r1 r2 :
  String.compare (String c r1) (String c r2) = String.compare r1 r2.
Proof.
  simpl. replace (Ascii.compare c c) with Eq; [reflexivity|].
  symmetry. unfold Ascii.compare. apply N.compare_refl.
Qed.

Lemma mod_pow10_succ a w : 0 <= a ->
  a mod 10 ^ Z.of_nat (S w) =
  (a / 10 ^ Z.of_nat w) mod 10 * 10 ^ Z.of_nat w + a mod 10 ^ Z.of_nat w.
Proof.
  intros Ha. rewrite Nat2Z.inj_succ, Z.pow_succ_r by lia.
  assert (P : 0 < 10 ^ Z.of_nat w) by (apply Z.pow_pos_nonneg; lia).
  rewrite (Z.mul_comm 10). rewrite Z.rem_mul_r by lia. lia.
Qed.

(** Zero-padded numbers of one width compare as their values do. *)
Lemma compare_pad w : forall a b r1 r2, 0 <= a -> 0 <= b ->
  String.compare (pad w a ++ r1) (pad w b ++ r2) =
  lex (a mod 10 ^ Z.of_nat w ?= b mod 10 ^ Z.of_nat w) (String.compare r1 r2).
Proof.
  induction w as [|w IH]; intros a b r1 r2 Ha Hb.
  - simpl. rewrite !Z.mod_1_r. reflexivity.
  - rewrite !mod_pow10_succ by assumption.
    assert (P : 0 < 10 ^ Z.of_nat w) by (apply Z.pow_pos_nonneg; lia).
    set (p := 10 ^ Z.of_nat w) in *.
    cbn [pad append]. fold p.
    set (da := (a / p) mod 10). set (db := (b / p) mod 10).
    assert (Da : 0 <= da <= 9) by (unfold da; lia).
    assert (Db : 0 <= db <= 9) by (unfold db; lia).
    assert (Ma : 0 <= a mod p < p) by (apply Z.mod_pos_bound; lia).
    assert (Mb : 0 <= b mod p < p) by (apply Z.mod_pos_bound; lia).
    cbn [String.compare]. rewrite compare_digit by assumption.
    rewrite IH by assumption. fold p.
    clearbody da db p. set (ma := a mod p) in *. set (mb := b mod p) in *.
    clearbody ma mb.
    destruct (da ?= db) eqn:C1.
    + apply Z.compare_eq in C1. subst db.
      destruct (ma ?= mb) eqn:C2; simpl.
      * apply Z.compare_eq in C2. subst. rewrite Z.compare_refl. reflexivity.
      * rewrite Z.compare_lt_iff in *. 
        replace (da * p + ma ?= da * p + mb) with Lt; [reflexivity|].
        symmetry. rewrite Z.compare_lt_iff. lia.
      * rewrite Z.compare_gt_iff in *.
        replace (da * p + ma ?= da * p + mb) with Gt; [reflexivity|].
        symmetry. rewrite Z.compare_gt_iff. lia.
    + rewrite Z.compare_lt_iff in C1. simpl.
      replace (da * p + ma ?= db * p + mb) with Lt; [reflexivity|].
      symmetry. rewrite Z.compare_lt_iff. nia.
    + rewrite Z.compare_gt_iff in C1. simpl.
      replace (da * p + ma ?= db * p + mb) with Gt; [reflexivity|].
      symmetry. rewrite Z.compare_gt_iff. nia.
Qed.

Lemma compare_pad_small w a b r1 r2 :
  0 <= a < 10 ^ Z.of_nat w -> 0 <= b < 10 ^ Z.of_nat w ->
  String.compare (pad w a ++ r1) (pad w b ++ r2) = lex (a ?= b) (String.compare r1 r2).
Proof.
  intros Ha Hb. rewrite compare_pad by lia. rewrite !Z.mod_small by assumption.
  reflexivity.
Qed.

Lemma append_nil_r s : (s ++ "")%string = s.
Proof. induction s; simpl; congruence. Qed.

Lemma compare_us_suffix a b : 0 <= a < 1000000 -> 0 <= b < 1000000 ->
  String.compare (if (a =? 0)%Z then "" else "." ++ pad 6 a)%string
                 (if (b =? 0)%Z then "" else "." ++ pad 6 b)%string = (a ?= b).
Proof.
  intros Ha Hb.
  destruct (a =? 0) eqn:Ea; destruct (b =? 0) eqn:Eb;
    rewrite ?Z.eqb_eq, ?Z.eqb_neq in *; subst.
  - reflexivity.
  - symmetry. rewrite Z.compare_lt_iff. lia.
  - symmetry. rewrite Z.compare_gt_iff. lia.
  - change ("." ++ pad 6 a)%string with (String "." (pad 6 a)).
    change ("." ++ pad 6 b)%string with (String "." (pad 6 b)).
    rewrite compare_cons.
    rewrite <- (append_nil_r (pad 6 a)), <- (append_nil_r (pad 6 b)).
    rewrite compare_pad_small by (simpl; lia).
    destruct (a ?= b); reflexivity.
Qed.

Lemma valid_datetime_fields dt : valid_datetime dt = true ->
  1 <= year dt <= 9999 /\ 1 <= month dt <= 12 /\ 1 <= day dt <= 31 /\
  0 <= hour dt < 24 /\ 0 <= minute dt < 60 /\ 0 <= second dt < 60 /\
  0 <= microsecond dt < 1000000.
Proof.
  unfold valid_datetime, valid_date, valid_time, MINYEAR, MAXYEAR.
  rewrite !andb_true_iff, !Z.leb_le, !Z.ltb_lt.
  intros [[[[[[Y1 Y2] M1] M2] D1] D2] T].
  assert (days_in_month (year dt) (month dt) <= 31).
  { unfold days_in_month. destruct (_ && _); [lia|].
    assert (C : month dt = 1 \/ month dt = 2 \/ month dt = 3 \/ month dt = 4 \/
                month dt = 5 \/ month dt = 6 \/ month dt = 7 \/ month dt = 8 \/
                month dt = 9 \/ month dt = 10 \/ month dt = 11 \/ month dt = 12) by lia.
    repeat (destruct C as [C|C]; [rewrite C; simpl; lia|]). rewrite C. simpl. lia. }
  lia.
Qed.

(** ISO 8601 texts of datetimes compare as the datetimes do. *)
Lemma isoformat_compare a b : valid_datetime a = true -> valid_datetime b = true ->
  String.compare (isoformat a) (isoformat b) = cmp_fields a b.
Proof.
  intros Va Vb.
  apply valid_datetime_fields in Va. apply valid_datetime_fields in Vb.
  unfold isoformat, cmp_fields.
  rewrite compare_pad_small by (simpl; lia). f_equal.
  change ("-" ++ ?x)%string with (String "-" x). rewrite compare_cons.
  rewrite compare_pad_small by (simpl; lia). f_equal.
  change ("-" ++ ?x)%string with (String "-" x). rewrite compare_cons.
  rewrite compare_pad_small by (simpl; lia). f_equal.
  change ("T" ++ ?x)%string with (String "T" x). rewrite compare_cons.
  rewrite compare_pad_small by (simpl; lia). f_equal.
  change (":" ++ ?x)%string with (String ":" x). rewrite compare_cons.
  rewrite compare_pad_small by (simpl; lia). f_equal.
  change (":" ++ ?x)%string with (String ":" x). rewrite compare_cons.
  rewrite compare_pad_small by (simpl; lia). f_equal.
  apply compare_us_suffix; lia.
Qed.

Lemma fromtimestamp_micros tz t : fromtimestamp tz t = datetime_of_micros tz (micros t).
Proof.
  pose proof (micros_bounds t) as B.
  unfold fromtimestamp, datetime_of_micros. unfold micros, modf in *.
  set (i := to_int t) in *.
  set (u := round (mul (t - inject_Z i) (inject_Z 1000000))) in *.
  assert (R : -1000000 <= u <= 1000000) by (destruct (Qle_bool 0 t); lia).
  clearbody u i. clear B.
  destruct (1000000 <=? u) eqn:C1; [apply Z.leb_le in C1|apply Z.leb_gt in C1].
  - replace ((i * 1000000 + u) / 1000000) with (i + 1) by lia.
    replace ((i * 1000000 + u) mod 1000000) with (u - 1000000) by lia. reflexivity.
  - destruct (u <? 0) eqn:C2; [apply Z.ltb_lt in C2|apply Z.ltb_ge in C2].
    + replace ((i * 1000000 + u) / 1000000) with (i - 1) by lia.
      replace ((i * 1000000 + u) mod 1000000) with (u + 1000000) by lia. reflexivity.
    + replace ((i * 1000000 + u) / 1000000) with i by lia.
      replace ((i * 1000000 + u) mod 1000000) with u by lia. reflexivity.
Qed.

Lemma valid_with_fold dt f : valid_datetime (with_fold dt f) = valid_datetime dt.
Proof. reflexivity. Qed.

Lemma wall_seconds_with_fold dt f : wall_seconds (with_fold dt f) = wall_seconds dt.
Proof. reflexivity. Qed.

Lemma wall_micros_with_fold dt f : wall_micros (with_fold dt f) = wall_micros dt.
Proof. reflexivity. Qed.

(** In any zone the decoded datetime is the reading of the local clock
    at that instant. *)
Lemma datetime_of_micros_reading tz T dt : datetime_of_micros tz T = Some dt ->
  valid_datetime dt = true /\
  wall_micros dt = T + utcoffset tz (T / 1000000) * 1000000.
Proof.
  unfold datetime_of_micros. intros E.
  destruct (of_wall_seconds (T / 1000000 + utcoffset tz (T / 1000000)) (T mod 1000000))
    as [r|] eqn:E1; [|discriminate].
  apply of_wall_seconds_inv in E1 as [W1 [U1 V1]].
  assert (R : valid_datetime r = true /\
              wall_micros r = T + utcoffset tz (T / 1000000) * 1000000).
  { split; [assumption|]. unfold wall_micros. clear V1. lia. }
  destruct (of_wall_seconds _ _) as [p1|]; [|discriminate].
  destruct (_ <? 0); [|inversion E; subst; exact R].
  destruct (of_wall_seconds _ _) as [p2|]; [|discriminate].
  destruct (_ =? _); inversion E; subst; exact R.
Qed.

(** With a fixed offset no fold is ever detected. *)
Lemma datetime_of_micros_fixed (tz : Z) T :
  datetime_of_micros tz T =
  match of_wall_seconds (T / 1000000 + tz) (T mod 1000000) with
  | None => None
  | Some result =>
      match of_wall_seconds (T / 1000000 - max_fold_seconds + tz) (T mod 1000000) with
      | None => None
      | Some _ => Some result
      end
  end.
Proof.
  unfold datetime_of_micros. cbn [utcoffset fixed].
  destruct (of_wall_seconds (T / 1000000 + tz) (T mod 1000000)) as [r|] eqn:E1;
    [|reflexivity].
  destruct (of_wall_seconds (T / 1000000 - max_fold_seconds + tz) (T mod 1000000))
    as [p|] eqn:E2; [|reflexivity].
  apply of_wall_seconds_inv in E1 as [W1 _].
  apply of_wall_seconds_inv in E2 as [W2 _].
  replace (wall_seconds r - wall_seconds p - max_fold_seconds <? 0) with false;
    [reflexivity|].
  symmetry. apply Z.ltb_ge. lia.
Qed.

Lemma datetime_of_micros_inv (tz : Z) T dt : datetime_of_micros tz T = Some dt ->
  valid_datetime dt = true /\ wall_micros dt = T + tz * 1000000 /\
  MIN_WALL + 86400 <= T / 1000000 + tz <= MAX_WALL.
Proof.
  rewrite datetime_of_micros_fixed. intros E.
  destruct (of_wall_seconds (T / 1000000 + tz) (T mod 1000000)) as [r|] eqn:E1; [|discriminate].
  destruct (of_wall_seconds (T / 1000000 - max_fold_seconds + tz) (T mod 1000000)) as [p|] eqn:E2;
    [|discriminate].
  inversion E; subst; clear E.
  apply of_wall_seconds_inv in E1 as [W1 [U1 V1]].
  apply of_wall_seconds_inv in E2 as [W2 [U2 V2]].
  pose proof (valid_wall_range _ V1). pose proof (valid_wall_range _ V2).
  unfold wall_micros, max_fold_seconds in *. split; [assumption|]. split; lia.
Qed.

Lemma datetime_of_micros_fold (tz : Z) T dt : datetime_of_micros tz T = Some dt ->
  fold dt = false.
Proof.
  rewrite datetime_of_micros_fixed. intros E.
  destruct (of_wall_seconds (T / 1000000 + tz) (T mod 1000000)) as [r|] eqn:E1; [|discriminate].
  destruct (of_wall_seconds (T / 1000000 - max_fold_seconds + tz) (T mod 1000000));
    [|discriminate].
  inversion E; subst. eapply of_wall_seconds_fold, E1.
Qed.


Lemma datetime_of_micros_none (tz : Z) T :
  T / 1000000 + tz < MIN_WALL + 86400 \/ MAX_WALL < T / 1000000 + tz ->
  datetime_of_micros tz T = None.
Proof.
  intros R. destruct (datetime_of_micros tz T) as [dt|] eqn:E; [exfalso|reflexivity].
  apply datetime_of_micros_inv in E. lia.
Qed.

(** ** Order of datetimes *)
Lemma compare_lex K x1 r1 x2 r2 : 0 <= r1 < K -> 0 <= r2 < K ->
  (x1 * K + r1 ?= x2 * K + r2) = lex (x1 ?= x2) (r1 ?= r2).
Proof.
  intros H1 H2. destruct (x1 ?= x2) eqn:C; simpl.
  - apply Z.compare_eq in C. subst. apply Z.add_compare_mono_l.
  - rewrite Z.compare_lt_iff in *. nia.
  - rewrite Z.compare_gt_iff in *. nia.
Qed.

Lemma compare_date y m d y' m' d' : valid_md y m d -> valid_md y' m' d' ->
  (ymd2ord y m d ?= ymd2ord y' m' d') = lex (y ?= y') (lex (m ?= m') (d ?= d')).
Proof.
  intros V V'.
  destruct (y ?= y') eqn:Cy; simpl.
  - apply Z.compare_eq in Cy. subst y'.
    destruct (m ?= m') eqn:Cm; simpl.
    + apply Z.compare_eq in Cm. subst m'. unfold ymd2ord. apply Z.add_compare_mono_l.
    + rewrite Z.compare_lt_iff in *. apply ymd2ord_lt; auto.
    + rewrite Z.compare_gt_iff in *. apply ymd2ord_lt; auto.
  - rewrite Z.compare_lt_iff in *. apply ymd2ord_lt; auto.
  - rewrite Z.compare_gt_iff in *. apply ymd2ord_lt; auto.
Qed.

Lemma valid_datetime_md dt : valid_datetime dt = true ->
  valid_md (year dt) (month dt) (day dt).
Proof.
  unfold valid_datetime. intros V. apply andb_prop in V as [V _].
  apply valid_date_iff in V. tauto.
Qed.

Lemma lex_assoc a b c : lex (lex a b) c = lex a (lex b c).
Proof. destruct a; reflexivity. Qed.

Lemma compare_shift x y k : (x - k ?= y - k) = (x ?= y).
Proof.
  destruct (x ?= y) eqn:C.
  - apply Z.compare_eq in C. subst. apply Z.compare_refl.
  - rewrite Z.compare_lt_iff in *. lia.
  - rewrite Z.compare_gt_iff in *. lia.
Qed.

(** Datetimes compare field by field as their microsecond counts do. *)
Lemma cmp_fields_wall a b : valid_datetime a = true -> valid_datetime b = true ->
  cmp_fields a b = (wall_micros a ?= wall_micros b).
Proof.
  intros Va Vb.
  pose proof (valid_datetime_md _ Va) as Ma. pose proof (valid_datetime_md _ Vb) as Mb.
  apply valid_datetime_fields in Va. apply valid_datetime_fields in Vb.
  unfold wall_micros, wall_seconds, cmp_fields.
  rewrite compare_lex by lia.
  replace ((ymd2ord (year a) (month a) (day a) - EPOCH_ORD) * 86400
           + hour a * 3600 + minute a * 60 + second a)
    with ((((ymd2ord (year a) (month a) (day a) - EPOCH_ORD) * 24 + hour a) * 60
           + minute a) * 60 + second a) by lia.
  replace ((ymd2ord (year b) (month b) (day b) - EPOCH_ORD) * 86400
           + hour b * 3600 + minute b * 60 + second b)
    with ((((ymd2ord (year b) (month b) (day b) - EPOCH_ORD) * 24 + hour b) * 60
           + minute b) * 60 + second b) by lia.
  rewrite !compare_lex by lia.
  rewrite compare_shift.
  rewrite (compare_date _ _ _ _ _ _ Ma Mb).
  rewrite !lex_assoc. reflexivity.
Qed.

Lemma isoformat_ltb a b : valid_datetime a = true -> valid_datetime b = true ->
  String.ltb (isoformat a) (isoformat b) = (wall_micros a <? wall_micros b).
Proof.
  intros Va Vb. unfold String.ltb, Z.ltb.
  rewrite (isoformat_compare a b Va Vb), (cmp_fields_wall a b Va Vb). reflexivity.
Qed.

(** ** The codec *)
#[local] Open Scope Q_scope.

Lemma chrome_time_to_datetime_micros tz c :
  chrome_time_to_datetime tz c = datetime_of_micros tz (micros (chrome_unix c)).
Proof. unfold chrome_time_to_datetime. apply fromtimestamp_micros. Qed.

Lemma of_int_exact n : (Z.abs n < 2 ^ 53)%Z -> of_int n == inject_Z n.
Proof. apply b64_int. Qed.

Lemma chrome_unix_mono c1 c2 : (c1 <= c2)%Z -> chrome_unix c1 <= chrome_unix c2.
Proof.
  intros L. unfold chrome_unix, sub, truediv. apply b64_mono.
  assert (H : b64 (inject_Z c1 / inject_Z 1000000) <= b64 (inject_Z c2 / inject_Z 1000000)).
  { apply b64_mono. unfold Qdiv. apply Qmult_le_compat_r.
    - rewrite <- Zle_Qle. assumption.
    - apply Qinv_le_0_compat, million_nonneg. }
  lra.
Qed.

Lemma chrome_micros_mono c1 c2 : (c1 <= c2)%Z ->
  (micros (chrome_unix c1) <= micros (chrome_unix c2))%Z.
Proof. intros L. apply micros_mono, chrome_unix_mono, L. Qed.

(** On a whole number of seconds every rounding step is exact. *)
Lemma chrome_unix_seconds n :
  (Z.abs n < 2 ^ 53)%Z -> (Z.abs (n - CHROME_EPOCH_OFFSET) < 2 ^ 53)%Z ->
  chrome_unix (n * 1000000) == inject_Z (n - CHROME_EPOCH_OFFSET).
Proof.
  intros H1 H2. unfold chrome_unix, sub, truediv.
  assert (E1 : inject_Z (n * 1000000) / inject_Z 1000000 == inject_Z n).
  { rewrite inject_Z_mult. field; discriminate. }
  rewrite E1, (b64_int n H1), (of_int_exact CHROME_EPOCH_OFFSET) by reflexivity.
  assert (E2 : inject_Z n - inject_Z CHROME_EPOCH_OFFSET == inject_Z (n - CHROME_EPOCH_OFFSET)).
  { unfold Z.sub. rewrite inject_Z_plus, inject_Z_opp. reflexivity. }
  rewrite E2. apply b64_int, H2.
Qed.

Lemma chrome_micros_seconds n :
  (Z.abs n < 2 ^ 53)%Z -> (Z.abs (n - CHROME_EPOCH_OFFSET) < 2 ^ 53)%Z ->
  micros (chrome_unix (n * 1000000)) = ((n - CHROME_EPOCH_OFFSET) * 1000000)%Z.
Proof.
  intros H1 H2. rewrite (micros_comp _ _ (chrome_unix_seconds n H1 H2)).
  apply micros_inject.
Qed.

#[local] Open Scope Z_scope.

Lemma local_reads tz u : MIN_WALL <= u + utcoffset tz u <= MAX_WALL ->
  local tz u = Some (u + utcoffset tz u).
Proof.
  intros R. unfold local.
  destruct (of_wall_seconds_some (u + utcoffset tz u) 0 R ltac:(lia)) as [dt E].
  rewrite E. simpl.
  apply of_wall_seconds_inv in E as [W _]. rewrite W. reflexivity.
Qed.

Lemma local_raises tz u :
  u + utcoffset tz u < MIN_WALL \/ MAX_WALL < u + utcoffset tz u -> local tz u = None.
Proof. intros R. unfold local. rewrite of_wall_seconds_none by assumption. reflexivity. Qed.

Lemma local_some (tz : Z) u : MIN_WALL <= u + tz <= MAX_WALL -> local tz u = Some (u + tz).
Proof. apply (local_reads tz u). Qed.

Lemma local_none (tz : Z) u : u + tz < MIN_WALL \/ MAX_WALL < u + tz -> local tz u = None.
Proof. apply (local_raises tz u). Qed.

Lemma local_inv (tz : Z) u w :
  local tz u = Some w -> w = u + tz /\ MIN_WALL <= u + tz <= MAX_WALL.
Proof.
  intros E. destruct (Z_lt_ge_dec (u + tz) MIN_WALL) as [H|H];
    [rewrite local_none in E by lia; discriminate|].
  destruct (Z_lt_ge_dec MAX_WALL (u + tz)) as [H'|H'];
    [rewrite local_none in E by lia; discriminate|].
  rewrite local_some in E by lia. inversion E. lia.
Qed.

(** With a fixed offset [_mktime] subtracts the offset, provided the three
    clock readings it takes are representable. *)
Lemma mktime_some (tz : Z) dt :
  MIN_WALL <= wall_seconds dt + tz <= MAX_WALL ->
  MIN_WALL <= wall_seconds dt <= MAX_WALL ->
  MIN_WALL <= fold_probe dt <= MAX_WALL ->
  mktime tz dt = Some (wall_seconds dt - tz).
Proof.
  intros R1 R2 R3. unfold mktime, fold_probe in *. set (t := wall_seconds dt) in *.
  rewrite (local_some tz t R1).
  replace (t - (t + tz - t)) with (t - tz) by lia.
  rewrite (local_some tz (t - tz)) by lia.
  replace (t - tz + tz) with t by lia. rewrite Z.eqb_refl.
  unfold max_fold_seconds. destruct (fold dt).
  - rewrite (local_some tz (t - tz + 24 * 3600)) by lia.
    replace (t + tz - t =? t - tz + 24 * 3600 + tz - (t - tz + 24 * 3600)) with true
      by (symmetry; apply Z.eqb_eq; lia).
    reflexivity.
  - rewrite (local_some tz (t - tz - 24 * 3600)) by lia.
    replace (t + tz - t =? t - tz - 24 * 3600 + tz - (t - tz - 24 * 3600)) with true
      by (symmetry; apply Z.eqb_eq; lia).
    reflexivity.
Qed.

Lemma mktime_none (tz : Z) dt :
  MIN_WALL <= wall_seconds dt <= MAX_WALL ->
  ~ (MIN_WALL <= wall_seconds dt + tz <= MAX_WALL /\
     MIN_WALL <= fold_probe dt <= MAX_WALL) ->
  mktime tz dt = None.
Proof.
  intros R N. unfold mktime, fold_probe in *. set (t := wall_seconds dt) in *.
  destruct (Z_lt_ge_dec (t + tz) MIN_WALL) as [H1|H1];
    [rewrite (local_none tz t) by lia; reflexivity|].
  destruct (Z_lt_ge_dec MAX_WALL (t + tz)) as [H2|H2];
    [rewrite (local_none tz t) by lia; reflexivity|].
  rewrite (local_some tz t) by lia.
  replace (t - (t + tz - t)) with (t - tz) by lia.
  rewrite (local_some tz (t - tz)) by lia.
  replace (t - tz + tz) with t by lia. rewrite Z.eqb_refl.
  unfold max_fold_seconds. destruct (fold dt).
  - rewrite (local_none tz (t - tz + 24 * 3600)) by lia. reflexivity.
  - rewrite (local_none tz (t - tz - 24 * 3600)) by lia. reflexivity.
Qed.

Lemma mktime_inv (tz : Z) dt s : valid_datetime dt = true -> mktime tz dt = Some s ->
  s = wall_seconds dt - tz /\
  MIN_WALL <= wall_seconds dt + tz <= MAX_WALL /\
  MIN_WALL <= fold_probe dt <= MAX_WALL.
Proof.
  intros V E. pose proof (valid_wall_range dt V) as R. clear V.
  destruct (Z_lt_ge_dec (wall_seconds dt + tz) MIN_WALL) as [H1|H1];
    [rewrite mktime_none in E by lia; discriminate|].
  destruct (Z_lt_ge_dec MAX_WALL (wall_seconds dt + tz)) as [H2|H2];
    [rewrite mktime_none in E by lia; discriminate|].
  destruct (Z_lt_ge_dec (fold_probe dt) MIN_WALL) as [H3|H3];
    [rewrite mktime_none in E by lia; discriminate|].
  destruct (Z_lt_ge_dec MAX_WALL (fold_probe dt)) as [H4|H4];
    [rewrite mktime_none in E by lia; discriminate|].
  rewrite mktime_some in E by lia. inversion E. lia.
Qed.

Lemma wall_bounds_lt_2p53 w : MIN_WALL <= w <= MAX_WALL -> Z.abs w < 2 ^ 53.
Proof. unfold MIN_WALL, MAX_WALL. lia. Qed.

Lemma timestamp_eq tz dt :
  timestamp tz dt =
  option_map
    (fun s => add (of_int s) (div (of_int (microsecond dt)) (inject_Z 1000000)))
    (mktime tz dt).
Proof. unfold timestamp. destruct (mktime tz dt); reflexivity. Qed.

Lemma datetime_to_chrome_time_eq tz dt :
  datetime_to_chrome_time tz dt = option_map encode_micros (timestamp tz dt).
Proof. unfold datetime_to_chrome_time. destruct (timestamp tz dt); reflexivity. Qed.

Lemma whole_second_timestamp s : Z.abs s < 2 ^ 53 ->
  (add (of_int s) (div (of_int 0) (inject_Z 1000000)) == inject_Z s)%Q.
Proof.
  intros Hs. unfold add, div.
  rewrite (b64_zero (of_int 0 / inject_Z 1000000)%Q).
  - rewrite (of_int_exact s Hs), Qplus_0_r. apply b64_int, Hs.
  - unfold of_int. rewrite b64_zero by reflexivity. reflexivity.
Qed.

Lemma encode_micros_exact q s : (q == inject_Z s)%Q ->
  Z.abs ((s + CHROME_EPOCH_OFFSET) * 15625) < 2 ^ 53 ->
  encode_micros q = (s + CHROME_EPOCH_OFFSET) * 1000000.
Proof.
  intros E H. unfold encode_micros.
  assert (Ho : Z.abs (s + CHROME_EPOCH_OFFSET) < 2 ^ 53) by lia.
  assert (A : (add q (of_int CHROME_EPOCH_OFFSET) == inject_Z (s + CHROME_EPOCH_OFFSET))%Q).
  { unfold add. rewrite E, (of_int_exact CHROME_EPOCH_OFFSET) by reflexivity.
    rewrite <- inject_Z_plus. apply b64_int, Ho. }
  assert (P : (mul (add q (of_int CHROME_EPOCH_OFFSET)) (of_int 1000000)
               == inject_Z ((s + CHROME_EPOCH_OFFSET) * 1000000))%Q).
  { unfold mul. rewrite A, (of_int_exact 1000000) by reflexivity.
    rewrite <- inject_Z_mult.
    apply (b64_exact _ ((s + CHROME_EPOCH_OFFSET) * 15625) 6).
    - rewrite pow2_nonneg_exp by lia. rewrite <- inject_Z_mult.
      change (2 ^ 6) with 64. replace ((s + CHROME_EPOCH_OFFSET) * 15625 * 64)
        with ((s + CHROME_EPOCH_OFFSET) * 1000000) by lia. reflexivity.
    - assumption.
    - lia. }
  rewrite (to_int_comp _ _ P). apply to_int_inject.
Qed.

(** Encoding a whole-second datetime is exact. *)
Lemma datetime_to_chrome_time_seconds tz dt c :
  -86400 < tz < 86400 -> valid_datetime dt = true -> microsecond dt = 0 ->
  datetime_to_chrome_time tz dt = Some c ->
  c = (wall_seconds dt - tz + CHROME_EPOCH_OFFSET) * 1000000 /\
  MIN_WALL <= fold_probe dt <= MAX_WALL.
Proof.
  intros Tz V U E. rewrite datetime_to_chrome_time_eq, timestamp_eq, U in E.
  destruct (mktime tz dt) as [s|] eqn:M; [|discriminate].
  apply (mktime_inv tz dt s V) in M as [Es [R1 R2]]. clear V.
  split; [|assumption].
  assert (Hs : Z.abs s < 2 ^ 53) by (unfold MIN_WALL, MAX_WALL in *; lia).
  assert (Ho : Z.abs ((s + CHROME_EPOCH_OFFSET) * 15625) < 2 ^ 53)
    by (unfold MIN_WALL, MAX_WALL, CHROME_EPOCH_OFFSET in *; lia).
  cbn [option_map] in E.
  rewrite (encode_micros_exact _ s (whole_second_timestamp s Hs) Ho) in E.
  inversion E. subst s. reflexivity.
Qed.

Lemma datetime_to_chrome_time_returns (tz : Z) dt :
  MIN_WALL <= wall_seconds dt + tz <= MAX_WALL ->
  MIN_WALL + 86400 <= wall_seconds dt <= MAX_WALL - 86400 ->
  datetime_to_chrome_time tz dt <> None.
Proof.
  intros R1 R2. unfold datetime_to_chrome_time, timestamp.
  rewrite (mktime_some tz dt R1); [discriminate|lia|].
  unfold fold_probe. destruct (fold dt); lia.
Qed.

Lemma wall_seconds_year_bounds dt : valid_datetime dt = true -> 2 <= year dt <= 9998 ->
  MIN_WALL + 365 * 86400 <= wall_seconds dt <= MAX_WALL - 365 * 86400.
Proof.
  intros V Y. pose proof (valid_datetime_md _ V) as Vm.
  apply valid_datetime_fields in V.
  pose proof (day_of_year_bounds _ _ _ Vm) as B.
  pose proof (days_before_year_mono 2 (year dt) ltac:(lia)) as L.
  pose proof (days_before_year_mono (year dt + 1) 9999 ltac:(lia)) as U.
  rewrite days_before_year_succ in U.
  change (days_before_year 2) with 365 in L.
  change (days_before_year 9999) with 3651694 in U.
  unfold wall_seconds, ymd2ord, MIN_WALL, MAX_WALL, EPOCH_ORD. lia.
Qed.

(** Decoding what encoding produced gives the datetime back. *)
Lemma roundtrip_seconds tz dt c :
  -86400 < tz < 86400 -> valid_datetime dt = true -> microsecond dt = 0 ->
  fold dt = false ->
  datetime_to_chrome_time tz dt = Some c -> chrome_time_to_datetime tz c = Some dt.
Proof.
  intros Tz V U F E.
  destruct (datetime_to_chrome_time_seconds tz dt c Tz V U E) as [-> R].
  unfold fold_probe in R. rewrite F in R.
  pose proof (of_wall_seconds_wall dt V) as W. rewrite <- F, with_fold_same in W.
  pose proof (valid_wall_range dt V) as R0. clear V E.
  rewrite chrome_time_to_datetime_micros.
  rewrite chrome_micros_seconds
    by (unfold MIN_WALL, MAX_WALL, CHROME_EPOCH_OFFSET in *; lia).
  rewrite datetime_of_micros_fixed.
  replace (wall_seconds dt - tz + CHROME_EPOCH_OFFSET - CHROME_EPOCH_OFFSET)
    with (wall_seconds dt - tz) by lia.
  replace ((wall_seconds dt - tz) * 1000000 / 1000000) with (wall_seconds dt - tz) by lia.
  replace ((wall_seconds dt - tz) * 1000000 mod 1000000) with 0 by lia.
  replace (wall_seconds dt - tz + tz) with (wall_seconds dt) by lia.
  rewrite U in W. rewrite W.
  destruct (of_wall_seconds_some (wall_seconds dt - tz - max_fold_seconds + tz) 0) as [p ->];
    [unfold max_fold_seconds; lia|lia|]. reflexivity.
Qed.

(** ** Zones that change their offset *)

Lemma fixed_offsets_within_a_day (tz : Z) :
  -86400 < tz < 86400 -> offsets_within_a_day tz.
Proof. intros H u. exact H. Qed.

Lemma fixed_one_change_at_a_time (tz : Z) : one_change_at_a_time tz.
Proof. intros u v w _ _. left. reflexivity. Qed.

Lemma new_york_offsets_within_a_day : offsets_within_a_day new_york_2024.
Proof.
  intros u. cbn [utcoffset new_york_2024].
  destruct ((1710054000 <=? u) && (u <? 1730613600)); lia.
Qed.

Lemma new_york_one_change_at_a_time : one_change_at_a_time new_york_2024.
Proof.
  intros u v w Hv Hw. cbn [utcoffset new_york_2024].
  destruct (1710054000 <=? u) eqn:U1; destruct (u <? 1730613600) eqn:U2;
  destruct (1710054000 <=? v) eqn:V1; destruct (v <? 1730613600) eqn:V2;
  destruct (1710054000 <=? w) eqn:W1; destruct (w <? 1730613600) eqn:W2;
  cbn [andb]; auto;
  rewrite ?Z.leb_le, ?Z.leb_gt, ?Z.ltb_lt, ?Z.ltb_ge in *; lia.
Qed.

Lemma same_fields_with_fold dt f : same_fields (with_fold dt f) dt.
Proof. repeat split. Qed.

Lemma same_fields_wall a b : same_fields a b -> wall_seconds a = wall_seconds b.
Proof.
  intros [Y [M [D [H [Mi [S _]]]]]]. unfold wall_seconds.
  rewrite Y, M, D, H, Mi, S. reflexivity.
Qed.

(** [_mktime] finds an instant that shows the reading, whenever one
    exists. *)
Lemma mktime_solves tz dt :
  offsets_within_a_day tz -> one_change_at_a_time tz ->
  MIN_WALL + 4 * 86400 <= wall_seconds dt <= MAX_WALL - 4 * 86400 ->
  on_the_clock tz dt ->
  exists u, mktime tz dt = Some u /\ u + utcoffset tz u = wall_seconds dt.
Proof.
  intros B O R [u0 S]. unfold mktime. set (t := wall_seconds dt) in *.
  pose proof (B t) as Bt. rewrite (local_reads tz t) by lia.
  replace (t + utcoffset tz t - t) with (utcoffset tz t) by lia.
  set (a := utcoffset tz t) in *.
  pose proof (B (t - a)) as B1. rewrite (local_reads tz (t - a)) by lia.
  set (b := utcoffset tz (t - a)) in *.
  destruct (Z.eqb_spec (t - a + b) t) as [E1|E1].
  - set (u2 := if fold dt then t - a + max_fold_seconds else t - a - max_fold_seconds).
    assert (R2 : t - a - 86400 <= u2 <= t - a + 86400)
      by (unfold u2, max_fold_seconds; destruct (fold dt); lia).
    pose proof (B u2) as B2. rewrite (local_reads tz u2) by lia.
    replace (u2 + utcoffset tz u2 - u2) with (utcoffset tz u2) by lia.
    set (b' := utcoffset tz u2) in *.
    destruct (Z.eqb_spec a b') as [E2|E2].
    + exists (t - a). split; [reflexivity|]. fold b. exact E1.
    + pose proof (B (t - b')) as B3. rewrite (local_reads tz (t - b')) by lia.
      destruct (Z.eqb_spec (t - b' + utcoffset tz (t - b')) t) as [E3|E3].
      * exists (t - b'). split; [reflexivity|exact E3].
      * exists (t - a). split; [reflexivity|]. fold b. exact E1.
  - replace (t - a + b - (t - a)) with b by lia.
    pose proof (B (t - b)) as B3. rewrite (local_reads tz (t - b)) by lia.
    assert (E : utcoffset tz (t - b) = b).
    { pose proof (B u0) as B0.
      destruct (O t (t - a) u0) as [H|[H|H]]; try lia; fold a in H; fold b in H.
      - exfalso. assert (Hu : t - a = u0) by lia. unfold b in E1.
        rewrite Hu in E1. lia.
      - replace (t - b) with u0 by lia. lia. }
    rewrite E. replace (t - b + b =? t) with true by (symmetry; apply Z.eqb_eq; lia).
    exists (t - b). split; [reflexivity|]. lia.
Qed.

(** Encoding a reading without microseconds is exact. *)
Lemma datetime_to_chrome_time_whole tz dt u :
  microsecond dt = 0 -> mktime tz dt = Some u ->
  MIN_WALL - 86400 <= u <= MAX_WALL + 86400 ->
  datetime_to_chrome_time tz dt = Some ((u + CHROME_EPOCH_OFFSET) * 1000000).
Proof.
  intros U M R. rewrite datetime_to_chrome_time_eq, timestamp_eq, U, M.
  cbn [option_map]. f_equal.
  assert (Hs : Z.abs u < 2 ^ 53) by (unfold MIN_WALL, MAX_WALL in *; lia).
  assert (Ho : Z.abs ((u + CHROME_EPOCH_OFFSET) * 15625) < 2 ^ 53)
    by (unfold MIN_WALL, MAX_WALL, CHROME_EPOCH_OFFSET in *; lia).
  exact (encode_micros_exact _ u (whole_second_timestamp u Hs) Ho).
Qed.

(** Decoding a whole second reads the local clock at that second. *)
Lemma chrome_time_to_datetime_whole tz u dt :
  offsets_within_a_day tz ->
  valid_datetime dt = true -> microsecond dt = 0 ->
  MIN_WALL + 4 * 86400 <= wall_seconds dt <= MAX_WALL - 4 * 86400 ->
  u + utcoffset tz u = wall_seconds dt ->
  exists d, chrome_time_to_datetime tz ((u + CHROME_EPOCH_OFFSET) * 1000000) = Some d /\
            same_fields d dt.
Proof.
  intros B V U R S. pose proof (B u) as Bu.
  rewrite chrome_time_to_datetime_micros.
  rewrite chrome_micros_seconds
    by (unfold MIN_WALL, MAX_WALL, CHROME_EPOCH_OFFSET in *; lia).
  replace (u + CHROME_EPOCH_OFFSET - CHROME_EPOCH_OFFSET) with u by lia.
  unfold datetime_of_micros.
  replace (u * 1000000 / 1000000) with u by lia.
  replace (u * 1000000 mod 1000000) with 0 by lia.
  pose proof (of_wall_seconds_wall dt V) as W. rewrite U in W.
  rewrite S, W. clear W V.
  pose proof (B (u - max_fold_seconds)) as B1.
  destruct (of_wall_seconds_some
              (u - max_fold_seconds + utcoffset tz (u - max_fold_seconds)) 0)
    as [p1 E1]; [unfold max_fold_seconds in *; lia|lia|].
  rewrite E1. apply of_wall_seconds_inv in E1 as [W1 _].
  rewrite wall_seconds_with_fold.
  destruct (wall_seconds dt - wall_seconds p1 - max_fold_seconds <? 0) eqn:T.
  - set (trans := wall_seconds dt - wall_seconds p1 - max_fold_seconds) in *.
    assert (Rt : -2 * 86400 < trans < 2 * 86400)
      by (unfold trans, max_fold_seconds in *; lia).
    pose proof (B (u + trans)) as B2.
    destruct (of_wall_seconds_some (u + trans + utcoffset tz (u + trans)) 0)
      as [p2 E2]; [lia|lia|].
    rewrite E2. destruct (wall_seconds p2 =? wall_seconds dt).
    + eexists. split; [reflexivity|]. repeat split.
    + eexists. split; [reflexivity|]. repeat split.
  - eexists. split; [reflexivity|]. repeat split.
Qed.

(** What a Chrome timestamp decodes to is on the clock. *)
Lemma decoded_on_the_clock tz c d :
  chrome_time_to_datetime tz c = Some d -> on_the_clock tz d.
Proof.
  rewrite chrome_time_to_datetime_micros. intros E.
  apply datetime_of_micros_reading in E as [V W].
  pose proof (valid_datetime_fields d V) as [_ [_ [_ [_ [_ [_ Hus]]]]]].
  exists (micros (chrome_unix c) / 1000000). unfold wall_micros in W. clear V. lia.
Qed.

Lemma same_fields_isoformat a b : same_fields a b -> isoformat a = isoformat b.
Proof.
  intros [Y [M [D [H [Mi [S U]]]]]]. unfold isoformat.
  rewrite Y, M, D, H, Mi, S, U. reflexivity.
Qed.

(** A reading on the clock is encoded, to an integer SQLite takes, and
    what it is encoded to decodes to the same fields. *)
Lemma roundtrip_on_the_clock tz dt :
  offsets_within_a_day tz -> one_change_at_a_time tz ->
  valid_datetime dt = true -> microsecond dt = 0 -> 2 <= year dt <= 9998 ->
  on_the_clock tz dt ->
  exists c d, datetime_to_chrome_time tz dt = Some c /\ int64 c = true /\
              chrome_time_to_datetime tz c = Some d /\ same_fields d dt.
Proof.
  intros B O V U Y C. pose proof (wall_seconds_year_bounds dt V Y) as R.
  assert (R' : MIN_WALL + 4 * 86400 <= wall_seconds dt <= MAX_WALL - 4 * 86400)
    by (clear V; lia).
  destruct (mktime_solves tz dt B O R' C) as [u [M S]].
  pose proof (B u) as Bu.
  destruct (chrome_time_to_datetime_whole tz u dt B V U R' S) as [d [D F]].
  exists ((u + CHROME_EPOCH_OFFSET) * 1000000), d.
  split; [|split; [|split; [exact D|exact F]]].
  - apply datetime_to_chrome_time_whole; [exact U|exact M|clear V; lia].
  - clear V D. unfold int64, MIN_WALL, MAX_WALL, CHROME_EPOCH_OFFSET in *.
    apply andb_true_intro. split; [apply Z.leb_le|apply Z.ltb_lt]; lia.
Qed.

(** ** The round trip from the integer *)

Ltac zfree z t := lazymatch t with context[z _] => fail | _ => idtac end.

Ltac offset_step z Hz T :=
  cbv beta iota zeta;
  match goal with
  | |- context[z ?x] => rewrite (Hz x) by lia; destruct (Z.ltb_spec x T)
  | |- context[?a =? ?b] => zfree z a; zfree z b; destruct (Z.eqb_spec a b)
  | |- context[?a <? ?b] => zfree z a; zfree z b; destruct (Z.ltb_spec a b)
  end;
  try (exfalso; lia).

(** Around a single transition [_mktime], given the fold that
    [fromtimestamp] detects, finds the instant the reading was taken
    at. *)
Lemma mktime_seconds_inverts z u T al be :
  -86400 < al < 86400 -> -86400 < be < 86400 -> -86400 < be - al < 86400 ->
  (forall x, u - 3 * 86400 <= x <= u + 3 * 86400 -> z x = if x <? T then al else be) ->
  mktime_seconds z (u + z u) (fold_reading z u) = u.
Proof.
  intros A Bb Dd Hz. unfold mktime_seconds, fold_reading.
  repeat offset_step z Hz T; cbv beta iota zeta; lia.
Qed.

Lemma mktime_in_range tz dt :
  offsets_within_a_day tz ->
  MIN_WALL + 4 * 86400 <= wall_seconds dt <= MAX_WALL - 4 * 86400 ->
  mktime tz dt = Some (mktime_seconds (utcoffset tz) (wall_seconds dt) (fold dt)).
Proof.
  intros B R. unfold mktime, mktime_seconds. set (t := wall_seconds dt) in *.
  pose proof (B t) as Bt. rewrite (local_reads tz t) by lia.
  replace (t + utcoffset tz t - t) with (utcoffset tz t) by lia.
  set (a := utcoffset tz t) in *.
  pose proof (B (t - a)) as B1. rewrite (local_reads tz (t - a)) by lia.
  set (b := utcoffset tz (t - a)) in *.
  destruct (Z.eqb_spec (t - a + b) t) as [E1|E1].
  - unfold max_fold_seconds. change (24 * 3600) with 86400.
    set (u2 := if fold dt then t - a + 86400 else t - a - 86400).
    assert (R2 : t - a - 86400 <= u2 <= t - a + 86400)
      by (unfold u2; destruct (fold dt); lia).
    pose proof (B u2) as B2. rewrite (local_reads tz u2) by lia.
    replace (u2 + utcoffset tz u2 - u2) with (utcoffset tz u2) by lia.
    set (b' := utcoffset tz u2) in *.
    destruct (a =? b'); [reflexivity|].
    pose proof (B (t - b')) as B3. rewrite (local_reads tz (t - b')) by lia.
    destruct (t - b' + utcoffset tz (t - b') =? t); reflexivity.
  - replace (t - a + b - (t - a)) with b by lia.
    pose proof (B (t - b)) as B3. rewrite (local_reads tz (t - b)) by lia.
    destruct (t - b + utcoffset tz (t - b) =? t); reflexivity.
Qed.

(** What [fromtimestamp] makes of a whole second. *)
Lemma datetime_of_micros_whole tz u dt :
  datetime_of_micros tz (u * 1000000) = Some dt ->
  valid_datetime dt = true /\ microsecond dt = 0 /\
  wall_seconds dt = u + utcoffset tz u /\
  fold dt = fold_reading (utcoffset tz) u.
Proof.
  unfold datetime_of_micros, fold_reading, max_fold_seconds.
  change (24 * 3600) with 86400.
  replace (u * 1000000 / 1000000) with u by lia.
  replace (u * 1000000 mod 1000000) with 0 by lia.
  intros E.
  destruct (of_wall_seconds (u + utcoffset tz u) 0) as [r|] eqn:E1; [|discriminate].
  pose proof (of_wall_seconds_fold _ _ _ E1) as Fr.
  apply of_wall_seconds_inv in E1 as [W1 [U1 V1]].
  destruct (of_wall_seconds (u - 86400 + utcoffset tz (u - 86400)) 0) as [p1|] eqn:E2;
    [|discriminate].
  apply of_wall_seconds_inv in E2 as [W2 _].
  rewrite W1, W2 in E.
  destruct (u + utcoffset tz u - (u - 86400 + utcoffset tz (u - 86400)) - 86400 <? 0).
  - set (trans := u + utcoffset tz u - (u - 86400 + utcoffset tz (u - 86400)) - 86400) in *.
    destruct (of_wall_seconds (u + trans + utcoffset tz (u + trans)) 0) as [p2|] eqn:E3;
      [|discriminate].
    apply of_wall_seconds_inv in E3 as [W3 _]. rewrite W3 in E.
    destruct (u + trans + utcoffset tz (u + trans) =? u + utcoffset tz u);
      inversion E; subst dt; repeat split; assumption.
  - inversion E; subst dt. repeat split; assumption.
Qed.

Lemma new_york_one_transition_near u : one_transition_near new_york_2024 u.
Proof.
  destruct (Z_lt_ge_dec u 1720000000) as [H|H].
  - exists 1710054000, (-18000), (-14400). repeat split; try lia.
    intros x Hx. cbn [utcoffset new_york_2024].
    destruct (Z.leb_spec 1710054000 x); destruct (Z.ltb_spec x 1730613600);
      destruct (Z.ltb_spec x 1710054000); cbn [andb]; lia.
  - exists 1730613600, (-14400), (-18000). repeat split; try lia.
    intros x Hx. cbn [utcoffset new_york_2024].
    destruct (Z.leb_spec 1710054000 x); destruct (Z.ltb_spec x 1730613600);
      cbn [andb]; lia.
Qed.

Lemma fixed_one_transition_near (tz : Z) u :
  -86400 < tz < 86400 -> one_transition_near tz u.
Proof.
  intros H. exists 0, tz, tz. repeat split; try lia.
  intros x _. cbn [utcoffset fixed]. destruct (x <? 0); reflexivity.
Qed.

Section StableSortFacts.

Context {A K : Type}.
Variable ltb : K -> K -> bool.
Variable key : A -> K.

(** [ltb] is the strict part of a total preorder on keys. *)
Hypothesis ltb_asym : forall x y, ltb x y = true -> ltb y x = false.
Hypothesis ltb_below : forall x y z, ltb x z = true -> ltb x y = false -> ltb y z = true.

#[local] Abbreviation insert := (insert_desc ltb key).
#[local] Abbreviation sort := (sort_desc ltb key).
#[local] Abbreviation merge := (merge_desc ltb key).
#[local] Abbreviation descending := (Sorted (key_ge ltb key)).

Lemma merge_nil_l l : merge [] l = l.
Proof. destruct l; reflexivity. Qed.

Lemma merge_nil_r l : merge l [] = l.
Proof. destruct l; reflexivity. Qed.

Lemma merge_cons x l1 y l2 :
  merge (x :: l1) (y :: l2) =
  if ltb (key x) (key y) then y :: merge (x :: l1) l2 else x :: merge l1 (y :: l2).
Proof. reflexivity. Qed.

Lemma insert_cons x y l :
  insert x (y :: l) = if ltb (key x) (key y) then y :: insert x l else x :: y :: l.
Proof. reflexivity. Qed.

Lemma insert_length x l : List.length (insert x l) = S (List.length l).
Proof. induction l as [|y l IH]; simpl; [reflexivity|]. destruct (ltb _ _); simpl; congruence. Qed.

Lemma sort_length l : List.length (sort l) = List.length l.
Proof. induction l as [|x l IH]; simpl; [reflexivity|]. rewrite insert_length. congruence. Qed.

Lemma insert_hd x l : HdRel (key_ge ltb key) x l -> insert x l = x :: l.
Proof.
  intros H. destruct l as [|y l]; [reflexivity|]. simpl.
  inversion H as [|? ? G]; subst. unfold key_ge in G. rewrite G. reflexivity.
Qed.

Lemma insert_descending x l : descending l -> descending (insert x l).
Proof.
  induction l as [|y l IH]; intros S; simpl.
  - constructor; constructor.
  - destruct (ltb (key x) (key y)) eqn:C.
    + inversion S as [|? ? S' H]; subst. constructor; [apply IH, S'|].
      destruct l as [|z l]; simpl.
      * constructor. apply ltb_asym, C.
      * destruct (ltb (key x) (key z)); constructor.
        -- inversion H; assumption.
        -- apply ltb_asym, C.
    + constructor; [assumption|]. constructor. exact C.
Qed.

Lemma sort_descending l : descending (sort l).
Proof. induction l; simpl; [constructor|apply insert_descending; assumption]. Qed.

(** Inserting the head of a descending run into the merge of its tail. *)
Lemma insert_merge x l1 : HdRel (key_ge ltb key) x l1 ->
  forall l2, insert x (merge l1 l2) = merge (x :: l1) l2.
Proof.
  intros H l2. induction l2 as [|y l2 IH].
  - rewrite !merge_nil_r. apply insert_hd, H.
  - destruct l1 as [|z l1].
    + rewrite merge_nil_l in *. rewrite merge_cons, insert_cons.
      destruct (ltb (key x) (key y)); [rewrite IH|]; reflexivity.
    + inversion H as [|? ? G]; subst. unfold key_ge in G.
      rewrite (merge_cons x). destruct (ltb (key x) (key y)) eqn:C.
      * rewrite merge_cons, (ltb_below _ _ _ C G), insert_cons, C, IH. reflexivity.
      * rewrite merge_cons.
        destruct (ltb (key z) (key y)); rewrite insert_cons; [rewrite C|rewrite G]; reflexivity.
Qed.

Lemma sort_app_descending l1 l2 : descending l1 ->
  sort (l1 ++ l2) = merge l1 (sort l2).
Proof.
  induction l1 as [|x l1 IH]; intros S; simpl.
  - rewrite merge_nil_l. reflexivity.
  - inversion S; subst. rewrite IH by assumption. apply insert_merge. assumption.
Qed.

Lemma sort_descending_id l : descending l -> sort l = l.
Proof.
  intros S. rewrite <- (app_nil_r l) at 1. rewrite sort_app_descending by assumption.
  apply merge_nil_r.
Qed.

(** The first [k] elements of a merge come from the first [k] elements
    of each run. *)
Lemma firstn_merge k : forall l1 l2 n m, (k <= n)%nat -> (k <= m)%nat ->
  firstn k (merge l1 l2) = firstn k (merge (firstn n l1) (firstn m l2)).
Proof.
  induction k as [|k IH]; intros l1 l2 n m Hn Hm; [reflexivity|].
  destruct n as [|n]; [lia|]. destruct m as [|m]; [lia|].
  destruct l1 as [|x l1]; destruct l2 as [|y l2].
  - reflexivity.
  - rewrite firstn_nil, !merge_nil_l. rewrite firstn_firstn.
    f_equal. lia.
  - rewrite firstn_nil, !merge_nil_r. rewrite firstn_firstn.
    f_equal. lia.
  - rewrite !firstn_cons, !merge_cons. destruct (ltb (key x) (key y)).
    + rewrite !firstn_cons. f_equal.
      rewrite (IH (x :: l1) l2 (S n) m) by lia. rewrite firstn_cons. reflexivity.
    + rewrite !firstn_cons. f_equal.
      rewrite (IH l1 (y :: l2) n (S m)) by lia. rewrite firstn_cons. reflexivity.
Qed.

Lemma firstn_descending k l : descending l -> descending (firstn k l).
Proof.
  revert l. induction k as [|k IH]; intros l S; [constructor|].
  destruct l as [|x l]; [constructor|]. simpl.
  inversion S as [|? ? S' H]; subst. constructor; [apply IH, S'|].
  destruct k; [constructor|]. destruct l; [constructor|].
  simpl. constructor. inversion H; assumption.
Qed.

Lemma skipn_descending k l : descending l -> descending (skipn k l).
Proof.
  revert l. induction k as [|k IH]; intros l S; [assumption|].
  destruct l as [|x l]; [constructor|]. simpl. inversion S; subst. apply IH. assumption.
Qed.

Lemma sort_concat_descending ls : Forall descending ls ->
  sort (List.concat ls) = fold_right merge [] ls.
Proof.
  induction 1 as [|l ls S _ IH]; simpl; [reflexivity|].
  rewrite sort_app_descending by assumption. rewrite IH. reflexivity.
Qed.

Lemma firstn_merge_all k ls :
  firstn k (fold_right merge [] ls) = firstn k (fold_right merge [] (map (firstn k) ls)).
Proof.
  induction ls as [|l ls IH]; simpl; [reflexivity|].
  transitivity
    (firstn k (merge (firstn k l)
                     (firstn k (fold_right merge [] (map (firstn k) ls))))).
  - rewrite (firstn_merge k l _ k k), IH by lia. reflexivity.
  - symmetry. rewrite (firstn_merge k (firstn k l) _ k k) by lia.
    rewrite firstn_firstn, Nat.min_id. reflexivity.
Qed.

(** Fetching only the first [k] elements of each descending run does not
    change the first [k] elements of the sorted concatenation. *)
Lemma firstn_sort_concat k ls : Forall descending ls ->
  firstn k (sort (List.concat (map (firstn k) ls))) = firstn k (sort (List.concat ls)).
Proof.
  intros S. rewrite !sort_concat_descending.
  - symmetry. apply firstn_merge_all.
  - assumption.
  - apply Forall_map. eapply Forall_impl; [|exact S]. intros l. apply firstn_descending.
Qed.

End StableSortFacts.

(** ** The order of Python strings *)
Lemma string_compare_lt_trans : forall x y z,
  String.compare x y = Lt -> String.compare y z = Lt -> String.compare x z = Lt.
Proof.
  induction x as [|a x IH]; intros [|b y] [|c z]; simpl; try congruence.
  unfold Ascii.compare.
  destruct (N.compare_spec (N_of_ascii a) (N_of_ascii b)) as [E1|L1|G1]; try congruence;
  destruct (N.compare_spec (N_of_ascii b) (N_of_ascii c)) as [E2|L2|G2]; try congruence;
  intros H1 H2.
  - rewrite E1, E2, N.compare_refl. eapply IH; eassumption.
  - rewrite E1. apply N.compare_lt_iff in L2. rewrite L2. reflexivity.
  - rewrite <- E2. apply N.compare_lt_iff in L1. rewrite L1. reflexivity.
  - assert (L : (N_of_ascii a < N_of_ascii c)%N) by lia.
    apply N.compare_lt_iff in L. rewrite L. reflexivity.
Qed.

Lemma string_ltb_asym x y : String.ltb x y = true -> String.ltb y x = false.
Proof.
  unfold String.ltb. rewrite (String.compare_antisym y x).
  destruct (String.compare x y); simpl; congruence.
Qed.

Lemma string_ltb_below x y z :
  String.ltb x z = true -> String.ltb x y = false -> String.ltb y z = true.
Proof.
  unfold String.ltb. intros H1 H2.
  destruct (String.compare x z) eqn:Cxz; try discriminate.
  destruct (String.compare x y) eqn:Cxy; try discriminate.
  - apply String.compare_eq_iff in Cxy. subst. rewrite Cxz. reflexivity.
  - assert (Cyx : String.compare y x = Lt).
    { rewrite String.compare_antisym, Cxy. reflexivity. }
    rewrite (string_compare_lt_trans _ _ _ Cyx Cxz). reflexivity.
Qed.

Lemma Z_ltb_asym x y : (x <? y) = true -> (y <? x) = false.
Proof. rewrite Z.ltb_lt, Z.ltb_ge. lia. Qed.

Lemma Z_ltb_below x y z : (x <? z) = true -> (x <? y) = false -> (y <? z) = true.
Proof. rewrite !Z.ltb_lt, Z.ltb_ge. lia. Qed.

(** ** LIKE *)








(** ** Binding the placeholders *)
Lemma bind_where_split w : forall l f rest,
  bind_where w l = Some (f, rest) ->
  exists used, l = used ++ rest /\
    forall rest', bind_where w (used ++ rest') = Some (f, rest').
Proof.
  induction w as [|c w IH]; intros l f rest E.
  - simpl in E. inversion E; subst. exists []. split; [reflexivity|]. intros. reflexivity.
  - destruct c; simpl in E.
    + destruct l as [|[p1|] [|[p2|] l]]; try discriminate.
      destruct (bind_where w l) as [[g r]|] eqn:B; [|discriminate].
      inversion E; subst. destruct (IH _ _ _ B) as [used [-> U]].
      exists (PText p1 :: PText p2 :: used). split; [reflexivity|].
      intros rest'. simpl. rewrite U. reflexivity.
    + destruct l as [|[|n] l]; try discriminate.
      destruct (int64 n) eqn:I; [|discriminate].
      destruct (bind_where w l) as [[g r]|] eqn:B; [|discriminate].
      inversion E; subst. destruct (IH _ _ _ B) as [used [-> U]].
      exists (PInt n :: used). split; [reflexivity|].
      intros rest'. simpl. rewrite I, U. reflexivity.
    + destruct l as [|[|n] l]; try discriminate.
      destruct (int64 n) eqn:I; [|discriminate].
      destruct (bind_where w l) as [[g r]|] eqn:B; [|discriminate].
      inversion E; subst. destruct (IH _ _ _ B) as [used [-> U]].
      exists (PInt n :: used). split; [reflexivity|].
      intros rest'. simpl. rewrite I, U. reflexivity.
Qed.

Lemma select_count_matching db w ps :
  select_count db w ps =
  option_map (fun rows => Z.of_nat (List.length rows)) (matching_rows db w ps).
Proof.
  unfold select_count, matching_rows.
  destruct (bind_where w ps) as [[f [|p r]]|]; simpl; try reflexivity.
  rewrite sort_length. reflexivity.
Qed.

Lemma select_rows_matching db w ps limit offset :
  select_rows db w (ps ++ [PInt limit; PInt offset]) =
  match matching_rows db w ps with
  | Some rows =>
      if int64 limit && int64 offset then Some (limit_offset limit offset rows) else None
  | None => None
  end.
Proof.
  unfold select_rows, matching_rows.
  destruct (bind_where w ps) as [[f r]|] eqn:B.
  - destruct (bind_where_split _ _ _ _ B) as [used [-> U]].
    rewrite <- app_assoc, U. destruct r as [|p r]; [reflexivity|].
    simpl. destruct p; destruct r as [|p' r]; simpl; try reflexivity;
      try (destruct p'; reflexivity).
    destruct p'; try reflexivity; destruct r; reflexivity.
  - destruct (bind_where w (ps ++ [PInt limit; PInt offset])) as [[f r]|] eqn:B'; [|reflexivity].
    destruct (bind_where_split _ _ _ _ B') as [used [E U]].
    destruct r as [|[|a] [|[|b] [|]]]; try reflexivity. exfalso.
    change [PInt limit; PInt offset] with ([PInt limit] ++ [PInt offset]) in E.
    change [PInt a; PInt b] with ([PInt a] ++ [PInt b]) in E.
    rewrite !app_assoc in E. apply app_inj_tail in E as [E _].
    apply app_inj_tail in E as [E _]. subst used.
    specialize (U []). rewrite app_nil_r in U. congruence.
Qed.

(** ** Rows to records *)

Lemma records_of_rows_cons tz profile r rows :
  records_of_rows tz profile (r :: rows) =
  match record_of_row tz profile r with
  | Some rec =>
      match records_of_rows tz profile rows with
      | Some results => Some (rec :: results)
      | None => None
      end
  | None => None
  end.
Proof. reflexivity. Qed.

Lemma records_of_rows_some tz profile rows res :
  records_of_rows tz profile rows = Some res -> rows_records tz profile rows res.
Proof.
  revert res. induction rows as [|r rows IH]; intros res E.
  - inversion E. constructor.
  - rewrite records_of_rows_cons in E.
    destruct (record_of_row tz profile r) as [rec|] eqn:R; [|discriminate].
    destruct (records_of_rows tz profile rows) as [rs|]; [|discriminate].
    inversion E; subst. constructor; [assumption|]. apply IH. reflexivity.
Qed.

Lemma records_of_rows_length tz profile rows res :
  records_of_rows tz profile rows = Some res -> List.length res = List.length rows.
Proof.
  intros E. apply records_of_rows_some in E. symmetry. eapply Forall2_length, E.
Qed.

Lemma record_of_row_convertible tz profile r : convertible tz r ->
  exists rec, record_of_row tz profile r = Some rec.
Proof.
  unfold convertible, record_of_row. intros C.
  destruct (chrome_time_to_datetime tz (r_visit_time r)); [|congruence].
  eexists. reflexivity.
Qed.

Lemma records_of_rows_total tz profile rows : Forall (convertible tz) rows ->
  exists res, records_of_rows tz profile rows = Some res.
Proof.
  induction 1 as [|r rows C _ [res IH]].
  - exists []. reflexivity.
  - destruct (record_of_row_convertible tz profile r C) as [rec R].
    exists (rec :: res). rewrite records_of_rows_cons, R, IH. reflexivity.
Qed.

Lemma records_of_rows_firstn tz profile k : forall rows res,
  records_of_rows tz profile rows = Some res ->
  records_of_rows tz profile (firstn k rows) = Some (firstn k res).
Proof.
  induction k as [|k IH]; intros rows res E; [reflexivity|].
  destruct rows as [|r rows].
  - inversion E. reflexivity.
  - rewrite records_of_rows_cons in E.
    destruct (record_of_row tz profile r) as [rec|] eqn:R; [|discriminate].
    destruct (records_of_rows tz profile rows) as [rs|] eqn:Rs; [|discriminate].
    inversion E; subst. rewrite !firstn_cons, records_of_rows_cons, R, (IH rows rs Rs).
    reflexivity.
Qed.

Lemma chrome_time_to_datetime_reading tz c dt :
  chrome_time_to_datetime tz c = Some dt ->
  valid_datetime dt = true /\
  wall_micros dt = micros (chrome_unix c) + utcoffset tz (unix_second c) * 1000000.
Proof.
  rewrite chrome_time_to_datetime_micros. apply datetime_of_micros_reading.
Qed.

(** Two timestamps decode in order when the offset in force at the
    later one is not the smaller. *)
Lemma decode_keeps_order tz c1 c2 d1 d2 :
  c2 <= c1 -> utcoffset tz (unix_second c2) <= utcoffset tz (unix_second c1) ->
  chrome_time_to_datetime tz c1 = Some d1 ->
  chrome_time_to_datetime tz c2 = Some d2 ->
  wall_micros d2 <= wall_micros d1.
Proof.
  intros L O E1 E2.
  apply chrome_time_to_datetime_reading in E1 as [_ W1].
  apply chrome_time_to_datetime_reading in E2 as [_ W2].
  pose proof (chrome_micros_mono _ _ L). lia.
Qed.

Lemma offsets_keep_order tz rows :
  (forall r1 r2, In r1 rows -> In r2 rows -> r_visit_time r2 <= r_visit_time r1 ->
     utcoffset tz (unix_second (r_visit_time r2))
     <= utcoffset tz (unix_second (r_visit_time r1))) ->
  keeps_order tz rows.
Proof.
  intros H r1 r2 d1 d2 I1 I2 L E1 E2.
  eapply decode_keeps_order; [exact L|apply H; assumption|exact E1|exact E2].
Qed.

(** A zone with one fixed offset keeps every order. *)
Lemma fixed_keeps_order (tz : Z) rows : keeps_order tz rows.
Proof. apply offsets_keep_order. intros. cbn [utcoffset fixed]. lia. Qed.

Lemma keeps_order_incl tz rows rows' :
  incl rows rows' -> keeps_order tz rows' -> keeps_order tz rows.
Proof.
  intros I K r1 r2 d1 d2 I1 I2. apply K; apply I; assumption.
Qed.

(** A later visit never gets a smaller [visit_time] text. *)
Lemma record_key_mono tz profile rows r1 r2 x1 x2 :
  keeps_order tz rows -> In r1 rows -> In r2 rows ->
  record_of_row tz profile r1 = Some x1 -> record_of_row tz profile r2 = Some x2 ->
  r_visit_time r2 <= r_visit_time r1 ->
  String.ltb (visit_time x1) (visit_time x2) = false.
Proof.
  unfold record_of_row. intros K I1 I2 E1 E2 L.
  destruct (chrome_time_to_datetime tz (r_visit_time r1)) as [d1|] eqn:C1; [|discriminate].
  destruct (chrome_time_to_datetime tz (r_visit_time r2)) as [d2|] eqn:C2; [|discriminate].
  inversion E1; inversion E2; subst; cbn [visit_time]. clear E1 E2.
  pose proof (K r1 r2 d1 d2 I1 I2 L C1 C2) as W.
  apply chrome_time_to_datetime_reading in C1 as [V1 _].
  apply chrome_time_to_datetime_reading in C2 as [V2 _].
  rewrite (isoformat_ltb d1 d2 V1 V2). clear V1 V2. apply Z.ltb_ge. exact W.
Qed.

Lemma rows_records_descending tz profile rows res :
  keeps_order tz rows ->
  rows_records tz profile rows res -> rows_descending rows -> records_descending res.
Proof.
  intros K F. induction F as [|r x rows res Hx F IH]; intros S; [constructor|].
  inversion S as [|? ? S' H]; subst. constructor.
  - apply IH; [|exact S']. eapply keeps_order_incl; [|exact K]. apply incl_tl, incl_refl.
  - destruct F as [|r' x' rows res Hx' F]; [constructor|].
    constructor. inversion H as [|? ? G]; subst. unfold key_ge in *.
    apply Z.ltb_ge in G.
    apply (record_key_mono tz profile (r :: r' :: rows) r r' x x' K); try assumption.
    + left. reflexivity.
    + right. left. reflexivity.
Qed.

Lemma skipn_incl {A} n (l : list A) : incl (skipn n l) l.
Proof.
  revert l. induction n as [|n IH]; intros l; [apply incl_refl|].
  destruct l as [|x l]; [apply incl_refl|]. cbn [skipn]. apply incl_tl, IH.
Qed.

Lemma firstn_incl {A} n (l : list A) : incl (firstn n l) l.
Proof.
  revert l. induction n as [|n IH]; intros l; [intros x []|].
  destruct l as [|x l]; [apply incl_refl|]. cbn [firstn].
  intros y [->|H]; [left; reflexivity|right; apply IH, H].
Qed.

Lemma limit_offset_incl {A} limit offset (l : list A) : incl (limit_offset limit offset l) l.
Proof.
  unfold limit_offset. destruct (limit <? 0).
  - apply skipn_incl.
  - eapply incl_tran; [apply firstn_incl|apply skipn_incl].
Qed.

Lemma limit_offset_descending limit offset rows :
  rows_descending rows -> rows_descending (limit_offset limit offset rows).
Proof.
  intros S. unfold limit_offset.
  destruct (limit <? 0); [|apply firstn_descending]; apply skipn_descending, S.
Qed.

Lemma matching_rows_descending db w ps rows :
  matching_rows db w ps = Some rows -> rows_descending rows.
Proof.
  unfold matching_rows. destruct (bind_where w ps) as [[f [|]]|]; try discriminate.
  intros E. inversion E. apply sort_descending. exact Z_ltb_asym.
Qed.

Lemma insert_desc_In {A K} (ltb : K -> K -> bool) (key : A -> K) x y l :
  In y (insert_desc ltb key x l) -> y = x \/ In y l.
Proof.
  induction l as [|z l IH]; simpl.
  - intros [H|[]]; auto.
  - destruct (ltb (key x) (key z)); simpl.
    + intros [H|H]; [auto|]. destruct (IH H); auto.
    + intros [H|[H|H]]; auto.
Qed.

Lemma sort_desc_In {A K} (ltb : K -> K -> bool) (key : A -> K) y l :
  In y (sort_desc ltb key l) -> In y l.
Proof.
  induction l as [|x l IH]; simpl; [auto|].
  intros H. apply insert_desc_In in H as [H|H]; auto.
Qed.

Lemma matching_rows_incl db w ps rows :
  matching_rows db w ps = Some rows -> incl rows (join db).
Proof.
  unfold matching_rows. destruct (bind_where w ps) as [[f [|]]|]; try discriminate.
  intros E. inversion E. intros r H.
  apply sort_desc_In in H. apply filter_In in H as [H _]. exact H.
Qed.

(** Whatever one profile returns is in descending order of
    [visit_time], when the zone keeps the order of its rows. *)
Lemma query_profile_rows_descending tz fs db_path w ps limit offset profile :
  (forall db, connect fs db_path = Some db -> keeps_order tz (join db)) ->
  records_descending (_query_profile_rows tz fs db_path w ps limit offset profile).
Proof.
  intros K. unfold _query_profile_rows.
  destruct (connect fs db_path) as [db|]; [|constructor].
  rewrite select_rows_matching.
  destruct (matching_rows db w ps) as [rows|] eqn:M; [|constructor].
  destruct (int64 limit && int64 offset); [|constructor].
  destruct (records_of_rows tz profile _) as [res|] eqn:R; [|constructor].
  apply records_of_rows_some in R. eapply rows_records_descending; [|exact R|].
  - eapply keeps_order_incl; [|exact (K db eq_refl)].
    eapply incl_tran; [apply limit_offset_incl|]. eapply matching_rows_incl, M.
  - apply limit_offset_descending. eapply matching_rows_descending, M.
Qed.

Lemma limit_offset_length_le {A} limit offset (l : list A) :
  0 <= limit -> Z.of_nat (List.length (limit_offset limit offset l)) <= limit.
Proof.
  intros H. unfold limit_offset. destruct (limit <? 0) eqn:C; [apply Z.ltb_lt in C; lia|].
  rewrite length_firstn. lia.
Qed.

Lemma query_profile_rows_length tz fs db_path w ps limit offset profile :
  0 <= limit ->
  Z.of_nat (List.length (_query_profile_rows tz fs db_path w ps limit offset profile)) <= limit.
Proof.
  intros H. unfold _query_profile_rows.
  destruct (connect fs db_path) as [db|]; [|simpl; lia].
  rewrite select_rows_matching.
  destruct (matching_rows db w ps) as [rows|] eqn:M; [|simpl; lia].
  destruct (int64 limit && int64 offset); [|simpl; lia].
  destruct (records_of_rows tz profile _) as [res|] eqn:R; [|simpl; lia].
  rewrite (records_of_rows_length _ _ _ _ R). apply limit_offset_length_le, H.
Qed.

(** ** Python slices *)
Lemma py_slice_length {A} (l : list A) s e :
  0 <= e - s -> Z.of_nat (List.length (py_slice l s e)) <= e - s.
Proof.
  intros H. unfold py_slice, clamp_index. rewrite length_firstn.
  set (len := Z.of_nat (List.length l)).
  destruct (s <? 0) eqn:Cs; destruct (e <? 0) eqn:Ce;
    rewrite ?Z.ltb_lt, ?Z.ltb_ge in *; lia.
Qed.

Lemma py_slice_descending l s e : records_descending l -> records_descending (py_slice l s e).
Proof. intros S. unfold py_slice. apply firstn_descending, skipn_descending, S. Qed.

Lemma py_slice_nonneg {A} (l : list A) s e : 0 <= s -> 0 <= e ->
  py_slice l s e = skipn (Z.to_nat s) (firstn (Z.to_nat e) l).
Proof.
  intros Hs He. unfold py_slice, clamp_index.
  replace (s <? 0) with false by (symmetry; apply Z.ltb_ge; lia).
  replace (e <? 0) with false by (symmetry; apply Z.ltb_ge; lia).
  set (len := List.length l).
  destruct (Z_le_gt_dec s e) as [Hse|Hse].
  - destruct (Z_le_gt_dec s (Z.of_nat len)) as [Hsl|Hsl].
    + rewrite (Z.min_l s) by lia.
      rewrite firstn_skipn_comm. f_equal.
      destruct (Z_le_gt_dec e (Z.of_nat len)) as [Hel|Hel].
      * rewrite (Z.min_l e) by lia. f_equal. lia.
      * rewrite (Z.min_r e) by lia.
        rewrite (firstn_all2 (n := Z.to_nat e)) by (fold len; lia).
        apply firstn_all2. fold len. lia.
    + rewrite !Z.min_r by lia. rewrite Z.sub_diag. simpl.
      symmetry. apply skipn_all2. rewrite length_firstn. fold len. lia.
  - replace (Z.to_nat (Z.min e (Z.of_nat len) - Z.min s (Z.of_nat len))) with 0%nat by lia.
    simpl. symmetry. apply skipn_all2. rewrite length_firstn. lia.
Qed.

Lemma py_slice_stop_zero {A} (l : list A) s : py_slice l s 0 = [].
Proof.
  unfold py_slice.
  assert (H : 0 <= clamp_index (Z.of_nat (List.length l)) s).
  { unfold clamp_index. destruct (s <? 0) eqn:C; [lia|]. apply Z.ltb_ge in C. lia. }
  assert (H0 : clamp_index (Z.of_nat (List.length l)) 0 = 0).
  { unfold clamp_index. rewrite Z.ltb_irrefl. lia. }
  rewrite H0. replace (Z.to_nat (0 - clamp_index (Z.of_nat (List.length l)) s)) with 0%nat by lia.
  reflexivity.
Qed.

(** The window of page [page] is cut from the first [page * per_page]
    elements. *)
Lemma py_slice_window {A} (l1 l2 : list A) page per_page :
  0 <= page * per_page ->
  firstn (Z.to_nat (page * per_page)) l1 = firstn (Z.to_nat (page * per_page)) l2 ->
  py_slice l1 ((page - 1) * per_page) (page * per_page) =
  py_slice l2 ((page - 1) * per_page) (page * per_page).
Proof.
  intros K F.
  destruct (Z_lt_ge_dec ((page - 1) * per_page) 0) as [Neg|Pos].
  - assert (E : page * per_page = 0).
    { destruct (Z.lt_trichotomy per_page 0) as [Hp|[Hp|Hp]].
      - assert (page <= 0) by nia. nia.
      - subst. lia.
      - assert (0 <= page) by nia. assert (page < 1) by nia.
        replace page with 0 by lia. reflexivity. }
    rewrite E, !py_slice_stop_zero. reflexivity.
  - rewrite !py_slice_nonneg by lia. rewrite F. reflexivity.
Qed.

(** ** The complete result of one profile *)

Lemma matching_rows_Forall (P : row -> Prop) db w ps rows :
  Forall P (join db) -> matching_rows db w ps = Some rows -> Forall P rows.
Proof.
  unfold matching_rows. intros F E.
  destruct (bind_where w ps) as [[f [|]]|]; try discriminate.
  inversion E; subst. rewrite Forall_forall in *. intros r H.
  apply sort_desc_In in H. apply filter_In in H as [H _]. auto.
Qed.

Lemma matching_records_descending tz fs w ps a :
  (forall db, connect fs (snd a) = Some db -> keeps_order tz (join db)) ->
  records_descending (matching_records tz fs w ps a).
Proof.
  intros K. unfold matching_records.
  destruct (connect fs (snd a)) as [db|]; [|constructor].
  destruct (matching_rows db w ps) as [rows|] eqn:M; [|constructor].
  destruct (records_of_rows tz (fst a) rows) as [res|] eqn:R; [|constructor].
  apply records_of_rows_some in R. eapply rows_records_descending; [|exact R|].
  - eapply keeps_order_incl; [|exact (K db eq_refl)]. eapply matching_rows_incl, M.
  - eapply matching_rows_descending, M.
Qed.

Lemma int64_zero : int64 0 = true.
Proof. reflexivity. Qed.

(** With a limit and no offset a profile returns the head of its
    complete result. *)
Lemma query_profile_rows_fetch tz fs w ps limit a :
  (forall db, connect fs (snd a) = Some db -> Forall (convertible tz) (join db)) ->
  int64 limit = true ->
  _query_profile_rows tz fs (snd a) w ps limit 0 (fst a) =
  if limit <? 0 then matching_records tz fs w ps a
  else firstn (Z.to_nat limit) (matching_records tz fs w ps a).
Proof.
  intros C I. unfold _query_profile_rows, matching_records.
  destruct (connect fs (snd a)) as [db|];
    [|destruct (limit <? 0); [|rewrite firstn_nil]; reflexivity].
  rewrite select_rows_matching.
  destruct (matching_rows db w ps) as [rows|] eqn:M;
    [|destruct (limit <? 0); [|rewrite firstn_nil]; reflexivity].
  rewrite I, int64_zero. cbn [andb].
  pose proof (matching_rows_Forall _ _ _ _ _ (C db eq_refl) M) as F.
  destruct (records_of_rows_total tz (fst a) rows F) as [res R]. rewrite R.
  unfold limit_offset. cbn [Z.to_nat skipn].
  destruct (limit <? 0); [rewrite R; reflexivity|].
  rewrite (records_of_rows_firstn _ _ _ _ _ R). reflexivity.
Qed.

Lemma query_profile_count_records tz fs w ps a :
  (forall db, connect fs (snd a) = Some db -> Forall (convertible tz) (join db)) ->
  _query_profile_count fs (snd a) w ps =
  Z.of_nat (List.length (matching_records tz fs w ps a)).
Proof.
  intros C. unfold _query_profile_count, matching_records.
  destruct (connect fs (snd a)) as [db|]; [|reflexivity].
  rewrite select_count_matching.
  destruct (matching_rows db w ps) as [rows|] eqn:M; [|reflexivity].
  pose proof (matching_rows_Forall _ _ _ _ _ (C db eq_refl) M) as F.
  destruct (records_of_rows_total tz (fst a) rows F) as [res R]. rewrite R.
  cbn [option_map]. rewrite (records_of_rows_length _ _ _ _ R). reflexivity.
Qed.

Lemma fold_left_add_acc l acc : fold_left Z.add l acc = acc + fold_left Z.add l 0.
Proof.
  revert acc. induction l as [|x l IH]; intros acc; simpl; [lia|].
  rewrite (IH (acc + x)), (IH x). lia.
Qed.

Lemma sum_counts_length {A B} (f : A -> list B) (g : A -> Z) l :
  (forall a, In a l -> g a = Z.of_nat (List.length (f a))) ->
  fold_left Z.add (map g l) 0 = Z.of_nat (List.length (flat_map f l)).
Proof.
  induction l as [|a l IH]; intros H; [reflexivity|].
  cbn [map fold_left flat_map]. rewrite fold_left_add_acc, length_app, IH.
  - rewrite (H a) by (left; reflexivity). lia.
  - intros b Hb. apply H. right. assumption.
Qed.

Lemma flat_map_firstn_concat {A B} (f : A -> list B) k l :
  flat_map (fun a => firstn k (f a)) l = List.concat (map (firstn k) (map f l)).
Proof. rewrite flat_map_concat_map, map_map. reflexivity. Qed.

Lemma flat_map_ext_in {A B} (f g : A -> list B) l :
  (forall a, In a l -> f a = g a) -> flat_map f l = flat_map g l.
Proof.
  induction l as [|a l IH]; intros H; [reflexivity|].
  cbn [flat_map]. rewrite (H a) by (left; reflexivity). rewrite IH; [reflexivity|].
  intros b Hb. apply H. right. assumption.
Qed.

Lemma hd_error_firstn {A} n (l : list A) : (0 < n)%nat -> hd_error (firstn n l) = hd_error l.
Proof. intros H. destruct n; [lia|]. destruct l; reflexivity. Qed.

(** The merged page is the window of the sorted union, when the zone
    keeps the order of each profile's rows. *)
Lemma merge_profiles_union tz fs active w ps page per_page :
  (forall a db, In a active -> connect fs (snd a) = Some db ->
                Forall (convertible tz) (join db)) ->
  (forall a db, In a active -> connect fs (snd a) = Some db ->
                keeps_order tz (join db)) ->
  int64 (page * per_page) = true ->
  fst (merge_profiles tz fs active w ps page per_page) =
  py_slice (sort_desc String.ltb visit_time (flat_map (matching_records tz fs w ps) active))
           ((page - 1) * per_page) (page * per_page).
Proof.
  intros C KO I. unfold merge_profiles. cbn [fst].
  replace ((page - 1) * per_page + per_page) with (page * per_page) by lia.
  set (K := page * per_page) in *.
  assert (F : forall a, In a active ->
            _query_profile_rows tz fs (snd a) w ps K 0 (fst a) =
            if K <? 0 then matching_records tz fs w ps a
            else firstn (Z.to_nat K) (matching_records tz fs w ps a)).
  { intros a Ha. apply query_profile_rows_fetch; [|assumption].
    intros db. apply C. assumption. }
  rewrite (flat_map_ext_in _ _ _ F).
  destruct (K <? 0) eqn:Neg.
  - reflexivity.
  - apply Z.ltb_ge in Neg. apply py_slice_window; [assumption|]. fold K.
    rewrite flat_map_firstn_concat, (flat_map_concat_map (matching_records tz fs w ps)).
    apply firstn_sort_concat; [exact string_ltb_below|].
    apply Forall_map, Forall_forall. intros a Ha. apply matching_records_descending.
    intros db. apply KO, Ha.
Qed.

(* ---- C1 ---- *)
Lemma timestamps_convert_Forall tz fs active :
  forallb (timestamps_convert tz fs) active = true ->
  forall a db, In a active -> connect fs (snd a) = Some db ->
               Forall (convertible tz) (join db).
Proof.
  intros H a db Ha Hc. rewrite forallb_forall in H. specialize (H a Ha).
  unfold timestamps_convert in H. rewrite Hc in H. rewrite forallb_forall in H.
  apply Forall_forall. intros r Hr. specialize (H r Hr). unfold convertible.
  destruct (chrome_time_to_datetime tz (r_visit_time r)); [discriminate|discriminate].
Qed.

Lemma search_history_multi tz fs keyword start_date end_date profiles page per_page w ps :
  _build_where_clause tz keyword start_date end_date = Some (w, ps) ->
  (2 <= List.length (active_profiles fs (requested_profiles profiles)))%nat ->
  search_history tz fs keyword start_date end_date profiles page per_page =
  Some (merge_profiles tz fs (active_profiles fs (requested_profiles profiles))
                       w ps page per_page).
Proof.
  intros B L. unfold search_history. rewrite B. fold (requested_profiles profiles).
  destruct (active_profiles fs (requested_profiles profiles)) as [|a1 [|a2 rest]];
    simpl in L; try lia.
  destruct a1. reflexivity.
Qed.

Lemma fixed_profiles_keep_order (tz : Z) fs active : profiles_keep_order tz fs active.
Proof. intros a db _ _. apply fixed_keeps_order. Qed.

(** C1: evaluation in New York over the two profiles of [fall_back_fs],
    first page, one record per page.  The union of the matching records
    sorted by [visit_time] descending starts with A's visit shown at
    01:50, and the visit made last is A's at 06:10 UTC; the search returns
    neither, but B's visit, the earliest of the three.  Each profile is
    asked for its newest row by the stored integer, A answers with the
    visit shown at 01:10, and the merge then sorts on the text. *)
Theorem merged_page_is_not_the_page_of_the_union :
  _build_where_clause new_york_2024 None None None = Some ([], []) /\
  active_profiles fall_back_fs (requested_profiles None)
    = [("default", "/tmp/arc_history_search/default_History");
       ("profile7", "/tmp/arc_history_search/profile7_History")]%string /\
  search_history new_york_2024 fall_back_fs None None None None 1 1
    = Some ([fall_back_b_0530z], 3) /\
  sorted_union new_york_2024 fall_back_fs [] []
               (active_profiles fall_back_fs (requested_profiles None))
    = [fall_back_a_0550z; fall_back_b_0530z; fall_back_a_0610z] /\
  py_slice [fall_back_a_0550z; fall_back_b_0530z; fall_back_a_0610z] ((1 - 1) * 1) (1 * 1)
    = [fall_back_a_0550z] /\
  map r_url (sort_desc Z.ltb r_visit_time (join fall_back_db_a ++ join fall_back_db_b))
    = ["https://example.com/a-0610z"; "https://example.com/a-0550z";
       "https://example.com/b-0530z"]%string.
Proof. repeat split; vm_compute; reflexivity. Qed.

(** The scenario of the specification: two profiles with two visits each,
    first page of two. *)
Example scenario_two_profiles :
  option_map (fun p => (map visit_time (fst p), snd p))
    (search_history 0 example_fs None None None
                    (Some ["default"; "profile7"]%string) 1 2)
  = Some (["2024-02-15T16:00:00"; "2024-02-01T14:00:00"]%string, 4).
Proof. vm_compute. reflexivity. Qed.

(* ---- C2 ---- *)
(** C2, counterexample: in New York 02:30 of 2024-03-10 is inside the
    hour the clocks skip.  It encodes to the instant 07:30 UTC, which
    decodes to 03:30: the hour is not preserved. *)
Lemma skipped_hour_comes_back_an_hour_later :
  datetime_to_chrome_time new_york_2024 (mk_datetime 2024 3 10 2 30 0 0)
    = Some 13354529400000000 /\
  chrome_time_to_datetime new_york_2024 13354529400000000
    = Some (mk_datetime 2024 3 10 3 30 0 0).
Proof. split; vm_compute; reflexivity. Qed.

(** C2, amended: in a zone whose offsets are less than a day from UTC
    and change at most once in two days, a wall-clock timestamp with
    whole seconds in the years 2 to 9998 that occurs on the local clock
    is encoded, and what it is encoded to decodes to the same year,
    month, day, hour, minute and second (an occurrence in a repeated
    hour comes back as that hour, with the [fold] of its second
    occurrence or without).  A timestamp that does not occur on the
    clock, as inside a skipped hour, never comes back. *)
Theorem chrome_time_roundtrip tz dt :
  offsets_within_a_day tz -> one_change_at_a_time tz ->
  valid_datetime dt = true -> microsecond dt = 0 -> 2 <= year dt <= 9998 ->
  (on_the_clock tz dt ->
   exists c d, datetime_to_chrome_time tz dt = Some c /\
               chrome_time_to_datetime tz c = Some d /\ same_fields d dt) /\
  (forall c d, datetime_to_chrome_time tz dt = Some c ->
               chrome_time_to_datetime tz c = Some d ->
               same_fields d dt -> on_the_clock tz dt).
Proof.
  intros B O V U Y. split.
  - intros C. pose proof (wall_seconds_year_bounds dt V Y) as R.
    assert (R' : MIN_WALL + 4 * 86400 <= wall_seconds dt <= MAX_WALL - 4 * 86400)
      by (clear V; lia).
    destruct (mktime_solves tz dt B O R' C) as [u [M S]].
    pose proof (B u) as Bu.
    destruct (chrome_time_to_datetime_whole tz u dt B V U R' S) as [d [D F]].
    exists ((u + CHROME_EPOCH_OFFSET) * 1000000), d.
    split; [|split; [exact D|exact F]].
    apply datetime_to_chrome_time_whole; [exact U|exact M|clear V; lia].
  - intros c d _ D F. destruct (decoded_on_the_clock tz c d D) as [u S].
    exists u. rewrite S. apply same_fields_wall, F.
Qed.

Lemma chrome_time_roundtrip_witness :
  exists c d,
    datetime_to_chrome_time new_york_2024 (mk_datetime 2024 11 3 1 30 0 0) = Some c /\
    chrome_time_to_datetime new_york_2024 c = Some d /\
    same_fields d (mk_datetime 2024 11 3 1 30 0 0).
Proof.
  apply (chrome_time_roundtrip new_york_2024 (mk_datetime 2024 11 3 1 30 0 0)).
  - exact new_york_offsets_within_a_day.
  - exact new_york_one_change_at_a_time.
  - reflexivity.
  - reflexivity.
  - simpl. lia.
  - exists 1730611800. reflexivity.
Defined.

(** In a zone with one fixed offset every reading is on the clock. *)
Lemma fixed_on_the_clock (tz : Z) dt : on_the_clock tz dt.
Proof. exists (wall_seconds dt - tz). cbn [utcoffset fixed]. lia. Qed.

(** The repository's round-trip test. *)
Example roundtrip_2023 :
  option_map (chrome_time_to_datetime 0)
             (datetime_to_chrome_time 0 (mk_datetime 2023 6 15 14 30 45 0))
  = Some (Some (mk_datetime 2023 6 15 14 30 45 0)).
Proof. vm_compute. reflexivity. Qed.

(* ---- C6 ---- *)




(* ---- C7 ---- *)
Lemma key_ge_newest l : records_descending l -> newest_first l.
Proof.
  unfold records_descending, newest_first. intros S.
  induction S as [|x l S IH H]; constructor; [assumption|].
  destruct H as [|y l H]; constructor. unfold key_ge, String.ltb in H.
  unfold String.leb. rewrite String.compare_antisym.
  destruct (String.compare (visit_time x) (visit_time y)); simpl; congruence.
Qed.

Lemma merge_profiles_descending tz fs active w ps page per_page :
  records_descending (fst (merge_profiles tz fs active w ps page per_page)).
Proof.
  unfold merge_profiles. cbn [fst]. apply py_slice_descending.
  apply sort_descending. exact string_ltb_asym.
Qed.

(** C7: evaluation in New York over the profiles of [fall_back_fs].  The
    page of profile A alone, fetched newest first by the stored integer,
    shows 01:10 before 01:50: its [visit_time] increases.  The merged
    page is in descending order of [visit_time], and that puts the visit
    made last, A's at 06:10 UTC, behind both earlier ones. *)
Theorem fall_back_page_is_not_newest_first :
  search_history new_york_2024 fall_back_fs None None None (Some ["default"%string]) 1 50
    = Some ([fall_back_a_0610z; fall_back_a_0550z], 2) /\
  ~ newest_first [fall_back_a_0610z; fall_back_a_0550z] /\
  search_history new_york_2024 fall_back_fs None None None None 1 50
    = Some ([fall_back_a_0550z; fall_back_b_0530z; fall_back_a_0610z], 3) /\
  map r_url (sort_desc Z.ltb r_visit_time (join fall_back_db_a ++ join fall_back_db_b))
    = ["https://example.com/a-0610z"; "https://example.com/a-0550z";
       "https://example.com/b-0530z"]%string.
Proof.
  split; [vm_compute; reflexivity|]. split; [|split; vm_compute; reflexivity].
  intros S. inversion S as [|? ? _ H]. inversion H as [|? ? L]. vm_compute in L.
  discriminate L.
Qed.

(** X30: the records of a returned page are in non-increasing order of
    [visit_time] whenever the zone keeps the stored order of each
    profile's rows, as every zone with a fixed offset does; the merged
    page is so in every zone. *)
Theorem ordered_page_is_newest_first
    tz fs keyword start_date end_date profiles page per_page results total :
  profiles_keep_order tz fs (active_profiles fs (requested_profiles profiles)) \/
  (2 <= List.length (active_profiles fs (requested_profiles profiles)))%nat ->
  search_history tz fs keyword start_date end_date profiles page per_page
    = Some (results, total) ->
  newest_first results.
Proof.
  unfold search_history. fold (requested_profiles profiles). intros K E.
  destruct (_build_where_clause tz keyword start_date end_date) as [[w ps]|];
    [|discriminate].
  destruct (active_profiles fs (requested_profiles profiles))
    as [|[profile db_path] [|a2 rest]].
  - inversion E. constructor.
  - inversion E. apply key_ge_newest, query_profile_rows_descending.
    destruct K as [K|K]; [|simpl in K; lia].
    intros db. apply (K (profile, db_path)). left. reflexivity.
  - inversion E as [[E1 E2]]. apply key_ge_newest.
    apply (merge_profiles_descending tz fs ((profile, db_path) :: a2 :: rest)).
Qed.

(** The visits of the two example profiles, all of January and February,
    are shown by New York in their stored order. *)
Lemma new_york_keeps_example_order :
  profiles_keep_order new_york_2024 example_fs
    (active_profiles example_fs (requested_profiles None)).
Proof.
  intros a db [<-|[<-|[]]] C; cbn [snd] in C; vm_compute in C;
    injection C as <-; apply offsets_keep_order;
    intros r1 r2 H1 H2 _; vm_compute in H1, H2;
    destruct H1 as [<-|[<-|[]]]; destruct H2 as [<-|[<-|[]]];
    vm_compute; discriminate.
Qed.

Lemma ordered_page_is_newest_first_witness :
  newest_first
    [mk_record "https://stackoverflow.com/questions/123" "How to code - Stack Overflow"
               "2024-02-01T09:00:00" "2024-02-01 09:00:00" "default";
     mk_record "https://github.com/anthropics/claude" "Anthropic Claude"
               "2024-01-01T05:00:00" "2024-01-01 05:00:00" "default"].
Proof.
  apply (ordered_page_is_newest_first new_york_2024 example_fs None None None
           (Some ["default"%string]) 1 2 _ 2).
  - left. intros a db [<-|[]]. apply new_york_keeps_example_order.
    left. reflexivity.
  - vm_compute. reflexivity.
Defined.

(* ---- C8 ---- *)
Lemma connect_none fs db_path :
  fs db_path = None \/ fs db_path = Some Unreadable -> connect fs db_path = None.
Proof. unfold connect. intros [-> | ->]; reflexivity. Qed.

Lemma active_profiles_missing fs profile before after :
  get_history_db_path fs profile = None ->
  active_profiles fs (before ++ profile :: after) = active_profiles fs (before ++ after).
Proof.
  intros H. induction before as [|p before IH]; cbn [app active_profiles].
  - rewrite H. reflexivity.
  - rewrite IH. reflexivity.
Qed.

(** C8: for a profile whose database is missing or unreadable the count
    is 0 and the fetch is empty; in a merged search the page and the
    total are what they are without that profile; and a profile whose
    database is missing is left out of the search altogether. *)
Theorem unreadable_profile_is_neutral tz fs profile db_path :
  fs db_path = None \/ fs db_path = Some Unreadable ->
  (forall w ps, _query_profile_count fs db_path w ps = 0) /\
  (forall w ps limit offset,
     _query_profile_rows tz fs db_path w ps limit offset profile = []) /\
  (forall before after w ps page per_page,
     merge_profiles tz fs (before ++ (profile, db_path) :: after) w ps page per_page
     = merge_profiles tz fs (before ++ after) w ps page per_page) /\
  (get_history_db_path fs profile = None ->
   forall keyword start_date end_date before after page per_page,
     search_history tz fs keyword start_date end_date
                    (Some (before ++ profile :: after)) page per_page
     = search_history tz fs keyword start_date end_date
                      (Some (before ++ after)) page per_page).
Proof.
  intros H.
  assert (Missing : get_history_db_path fs profile = None ->
     forall keyword start_date end_date before after page per_page,
     search_history tz fs keyword start_date end_date
                    (Some (before ++ profile :: after)) page per_page
     = search_history tz fs keyword start_date end_date
                      (Some (before ++ after)) page per_page).
  { intros G. intros. unfold search_history.
    rewrite (active_profiles_missing fs profile before after G). reflexivity. }
  apply connect_none in H.
  assert (Cn : forall w ps, _query_profile_count fs db_path w ps = 0).
  { intros. unfold _query_profile_count. rewrite H. reflexivity. }
  assert (Rw : forall w ps limit offset,
             _query_profile_rows tz fs db_path w ps limit offset profile = []).
  { intros. unfold _query_profile_rows. rewrite H. reflexivity. }
  split; [assumption|]. split; [assumption|]. split; [|exact Missing].
  intros before after w ps page per_page. unfold merge_profiles.
  rewrite !map_app, !flat_map_app. cbn [map flat_map snd fst].
  rewrite Cn, Rw. cbn [app].
  rewrite !fold_left_app. cbn [fold_left]. rewrite Z.add_0_r. reflexivity.
Qed.

Lemma unreadable_profile_is_neutral_witness :
  (forall w ps,
     _query_profile_count example_fs "/tmp/arc_history_search/broken_History" w ps = 0) /\
  (forall w ps limit offset,
     _query_profile_rows 0 example_fs "/tmp/arc_history_search/broken_History"
                         w ps limit offset "broken" = []) /\
  (forall before after w ps page per_page,
     merge_profiles 0 example_fs
       (before ++ ("broken"%string, "/tmp/arc_history_search/broken_History"%string) :: after)
       w ps page per_page
     = merge_profiles 0 example_fs (before ++ after) w ps page per_page) /\
  (get_history_db_path example_fs "broken" = None ->
   forall keyword start_date end_date before after page per_page,
     search_history 0 example_fs keyword start_date end_date
                    (Some (before ++ "broken"%string :: after)) page per_page
     = search_history 0 example_fs keyword start_date end_date
                      (Some (before ++ after)) page per_page).
Proof.
  apply (unreadable_profile_is_neutral 0 example_fs "broken"
           "/tmp/arc_history_search/broken_History").
  right. reflexivity.
Defined.

(** A profile without a copied database is not searched at all, and one
    whose file is unreadable leaves the merged page as it is. *)
Example scenario_missing_and_broken :
  search_history 0 example_fs None None None
                 (Some ["default"; "broken"; "nowhere"; "profile7"]%string) 1 2
  = search_history 0 example_fs None None None
                   (Some ["default"; "profile7"]%string) 1 2.
Proof. vm_compute. reflexivity. Qed.

(* ---- C10 ---- *)
Lemma build_where_no_keyword tz start_date end_date w ps :
  _build_where_clause tz None start_date end_date = Some (w, ps) ->
  ~ In KeywordLike w.
Proof.
  unfold _build_where_clause. intros E.
  destruct start_date as [sd|]; [destruct (datetime_to_chrome_time tz sd) as [n|];
                                 [|discriminate]|];
    (destruct end_date as [ed|];
     [destruct (make_datetime (year ed) (month ed) (day ed) 23 59 59 0) as [eod|];
      [destruct (datetime_to_chrome_time tz eod) as [m|]; [|discriminate]|discriminate]|]);
    inversion E; subst; simpl; intros H;
    repeat (destruct H as [H|H]; [discriminate|]); exact H.
Qed.

(** C10: the empty keyword adds no keyword clause, and a search with
    [keyword = ""] returns what the search with [keyword = None]
    returns. *)
Theorem empty_keyword_is_no_keyword tz start_date end_date :
  _build_where_clause tz (Some ""%string) start_date end_date
    = _build_where_clause tz None start_date end_date /\
  (forall w ps,
     _build_where_clause tz (Some ""%string) start_date end_date = Some (w, ps) ->
     ~ In KeywordLike w) /\
  (forall fs profiles page per_page,
     search_history tz fs (Some ""%string) start_date end_date profiles page per_page
     = search_history tz fs None start_date end_date profiles page per_page).
Proof.
  assert (E : _build_where_clause tz (Some ""%string) start_date end_date
              = _build_where_clause tz None start_date end_date) by reflexivity.
  split; [exact E|]. split.
  - intros w ps. rewrite E. apply build_where_no_keyword.
  - intros. unfold search_history. rewrite E. reflexivity.
Qed.

(* ---- C3 ---- *)
Lemma ceiling_div_50 a :
  Qceiling (inject_Z a / inject_Z PER_PAGE) = (a + PER_PAGE - 1) / PER_PAGE.
Proof.
  unfold Qceiling, PER_PAGE.
  assert (E : (- (inject_Z a / inject_Z 50) == inject_Z (- a) / inject_Z 50)%Q).
  { rewrite inject_Z_opp. field. }
  rewrite (Qfloor_comp _ _ E), <- Zdiv_Qdiv. lia.
Qed.

Lemma search_history_length
    tz fs keyword start_date end_date profiles page per_page results total :
  0 <= per_page ->
  search_history tz fs keyword start_date end_date profiles page per_page
    = Some (results, total) ->
  Z.of_nat (List.length results) <= per_page.
Proof.
  unfold search_history. intros P E.
  destruct (_build_where_clause tz keyword start_date end_date) as [[w ps]|];
    [|discriminate].
  destruct (active_profiles fs _) as [|[profile db_path] [|a2 rest]].
  - inversion E. simpl. lia.
  - inversion E. apply query_profile_rows_length, P.
  - inversion E as [[E1 E2]]. unfold merge_profiles. cbn [fst].
    etransitivity; [apply py_slice_length; lia|]. lia.
Qed.

(** C3: the page a search request returns has
    [total_pages = ceil(total_count / per_page)] and between 0 and
    [per_page] records. *)
Theorem search_page_invariants tz fs req resp :
  search tz fs req = Some resp ->
  total_pages resp = Qceiling (inject_Z (total_count resp) / inject_Z (per_page resp)) /\
  0 <= Z.of_nat (List.length (results resp)) <= per_page resp.
Proof.
  unfold search. intros E.
  destruct (match arg_page req with Some s => int_of_string s | None => Some 1 end)
    as [page|]; [|discriminate].
  destruct (search_history tz fs _ _ _ _ page PER_PAGE) as [[rs total]|] eqn:SH;
    [|discriminate].
  inversion E; subst. cbn [total_pages total_count per_page results].
  split; [symmetry; apply ceiling_div_50|]. split; [lia|].
  eapply search_history_length; [|exact SH]. unfold PER_PAGE. lia.
Qed.

Lemma search_page_invariants_witness :
  exists resp,
    search 0 example_fs (mk_request None None None None (Some "2"%string)) = Some resp /\
    total_pages resp = Qceiling (inject_Z (total_count resp) / inject_Z (per_page resp)) /\
    0 <= Z.of_nat (List.length (results resp)) <= per_page resp.
Proof.
  eexists. split.
  - vm_compute. reflexivity.
  - apply (search_page_invariants 0 example_fs
             (mk_request None None None None (Some "2"%string))).
    vm_compute. reflexivity.
Defined.

(* ---- C5 ---- *)


Lemma parse_date_arg_absent : parse_date_arg (strip (get_or None "")) = None.
Proof. reflexivity. Qed.









(* ---- C9 ---- *)





(** The keyword scenarios of the specification: a match in the URL only,
    and a match in the title only, each found whatever the case. *)
Example scenario_keyword :
  option_map snd (search_history 0 example_fs (Some "GITHUB"%string) None None None 1 50)
    = Some 1 /\
  option_map snd (search_history 0 example_fs (Some "stack overflow"%string) None None None 1 50)
    = Some 1.
Proof. split; vm_compute; reflexivity. Qed.

(* ---- C4 ---- *)
(** C4: evaluation at 2024-02-01T14:00:00 as [start_date], in UTC.  A
    visit at 10:00:00 of that day is at or after the start of the day,
    00:00:00, yet the clause built from the filter rejects it; built
    from midnight of the same day it accepts it. *)
Theorem start_date_keeps_time_of_day :
  where_accepts
    (_build_where_clause 0 None (Some (mk_datetime 2024 2 1 14 0 0 0)) None)
    (mk_row "https://example.com/page" None 13351255200000000) = Some false /\
  datetime_to_chrome_time 0 (mk_datetime 2024 2 1 0 0 0 0) = Some 13351219200000000 /\
  13351219200000000 <= 13351255200000000 /\
  chrome_time_to_datetime 0 13351255200000000 = Some (mk_datetime 2024 2 1 10 0 0 0) /\
  where_accepts
    (_build_where_clause 0 None (Some (mk_datetime 2024 2 1 0 0 0 0)) None)
    (mk_row "https://example.com/page" None 13351255200000000) = Some true.
Proof. repeat split; try (vm_compute; reflexivity). vm_compute. discriminate. Qed.

(** The date-range scenario of the specification: of four visits on
    Jan 1, Jan 15, Feb 1 and Feb 15, the range Feb 1 to Feb 28 keeps the
    two of February. *)
Example scenario_date_range :
  option_map (fun p => (map visit_time (fst p), snd p))
    (search_history 0 example_fs None
       (Some (mk_datetime 2024 2 1 0 0 0 0)) (Some (mk_datetime 2024 2 28 0 0 0 0))
       None 1 50)
  = Some (["2024-02-15T16:00:00"; "2024-02-01T14:00:00"]%string, 2).
Proof. vm_compute. reflexivity. Qed.

(** ** The codec beyond whole seconds *)
(** Outside the representable years no Chrome timestamp converts. *)
Lemma chrome_time_out_of_range tz c :
  -86400 < tz < 86400 ->
  c <= CHROME_MIN_ERROR \/ CHROME_MAX_ERROR <= c ->
  chrome_time_to_datetime tz c = None.
Proof.
  intros Tz. rewrite chrome_time_to_datetime_micros.
  intros [L|U]; apply datetime_of_micros_none.
  - pose proof (chrome_micros_mono _ _ L) as M.
    change CHROME_MIN_ERROR with ((-50491123200) * 1000000) in M.
    rewrite chrome_micros_seconds in M by (unfold CHROME_EPOCH_OFFSET; lia).
    unfold CHROME_EPOCH_OFFSET, MIN_WALL in *. left. lia.
  - pose proof (chrome_micros_mono _ _ U) as M.
    change CHROME_MAX_ERROR with (265046860799 * 1000000) in M.
    rewrite chrome_micros_seconds in M by (unfold CHROME_EPOCH_OFFSET; lia).
    unfold CHROME_EPOCH_OFFSET, MAX_WALL in *. right. lia.
Qed.

Lemma chrome_time_some_range tz c dt :
  -86400 < tz < 86400 -> chrome_time_to_datetime tz c = Some dt ->
  CHROME_MIN_ERROR < c < CHROME_MAX_ERROR.
Proof.
  intros Tz E.
  destruct (Z_le_gt_dec c CHROME_MIN_ERROR) as [L|L].
  { rewrite (chrome_time_out_of_range tz c Tz (or_introl L)) in E. discriminate. }
  destruct (Z_le_gt_dec CHROME_MAX_ERROR c) as [U|U].
  { rewrite (chrome_time_out_of_range tz c Tz (or_intror U)) in E. discriminate. }
  lia.
Qed.

(** The microsecond count behind a decoded timestamp stays inside the
    second of the input. *)
Lemma chrome_micros_within_second c :
  CHROME_MIN_ERROR < c < CHROME_MAX_ERROR ->
  (c / 1000000 - CHROME_EPOCH_OFFSET) * 1000000 <= micros (chrome_unix c)
    <= (c / 1000000 + 1 - CHROME_EPOCH_OFFSET) * 1000000.
Proof.
  intros R. unfold CHROME_MIN_ERROR, CHROME_MAX_ERROR in R.
  set (n := c / 1000000).
  assert (Hn : n * 1000000 <= c < (n + 1) * 1000000) by (unfold n; lia).
  assert (Bn : -50491123201 <= n <= 265046860799) by (unfold n; lia).
  split.
  - rewrite <- (chrome_micros_seconds n) by (unfold CHROME_EPOCH_OFFSET; lia).
    apply chrome_micros_mono. lia.
  - rewrite <- (chrome_micros_seconds (n + 1)) by (unfold CHROME_EPOCH_OFFSET; lia).
    apply chrome_micros_mono. lia.
Qed.

(** X1: a Chrome timestamp decodes to a reading inside its own second:
    no earlier than the whole second below it and no later than the
    whole second above, whatever the float division and subtraction
    round to. *)
Theorem chrome_time_decodes_within_its_second tz c dt :
  -86400 < tz < 86400 ->
  chrome_time_to_datetime tz c = Some dt ->
  valid_datetime dt = true /\
  (c / 1000000 - CHROME_EPOCH_OFFSET + tz) * 1000000 <= wall_micros dt
    <= (c / 1000000 + 1 - CHROME_EPOCH_OFFSET + tz) * 1000000.
Proof.
  intros Tz E.
  pose proof (chrome_time_some_range tz c dt Tz E) as R.
  pose proof (chrome_micros_within_second c R) as M.
  rewrite chrome_time_to_datetime_micros in E.
  apply datetime_of_micros_inv in E as [V [W _]].
  split; [exact V|]. rewrite W. clear V. lia.
Qed.

Lemma chrome_time_decodes_within_its_second_witness :
  valid_datetime (mk_datetime 2024 2 1 14 0 0 500000) = true /\
  (13351269600500000 / 1000000 - CHROME_EPOCH_OFFSET + 0) * 1000000
    <= wall_micros (mk_datetime 2024 2 1 14 0 0 500000)
    <= (13351269600500000 / 1000000 + 1 - CHROME_EPOCH_OFFSET + 0) * 1000000.
Proof.
  apply (chrome_time_decodes_within_its_second 0 13351269600500000).
  - lia.
  - vm_compute. reflexivity.
Defined.

#[local] Open Scope Q_scope.




#[local] Open Scope Z_scope.






(** X3: of two Chrome timestamps the later one never decodes to the
    earlier reading, unless the zone's offset has dropped in between:
    when the offset in force at the second of the later timestamp is not
    the smaller one, the decoded datetimes, and their ISO texts, are
    ordered as the integers are. *)
Theorem chrome_time_decoding_is_monotone tz c1 c2 d1 d2 :
  c1 <= c2 ->
  utcoffset tz (unix_second c1) <= utcoffset tz (unix_second c2) ->
  chrome_time_to_datetime tz c1 = Some d1 ->
  chrome_time_to_datetime tz c2 = Some d2 ->
  cmp_fields d1 d2 <> Gt /\ String.leb (isoformat d1) (isoformat d2) = true.
Proof.
  intros L O E1 E2.
  pose proof (decode_keeps_order tz c2 c1 d2 d1 L O E2 E1) as W.
  apply chrome_time_to_datetime_reading in E1 as [V1 _].
  apply chrome_time_to_datetime_reading in E2 as [V2 _].
  assert (C : cmp_fields d1 d2 <> Gt).
  { rewrite (cmp_fields_wall d1 d2 V1 V2).
    clear V1 V2. intros G. apply Z.compare_gt_iff in G. lia. }
  split; [exact C|].
  unfold String.leb. rewrite (isoformat_compare d1 d2 V1 V2).
  destruct (cmp_fields d1 d2); [reflexivity|reflexivity|congruence].
Qed.

Lemma chrome_time_decoding_is_monotone_witness :
  cmp_fields (mk_datetime 2024 3 10 1 59 59 999998) (mk_datetime 2024 3 10 3 0 0 2) <> Gt /\
  String.leb (isoformat (mk_datetime 2024 3 10 1 59 59 999998))
             (isoformat (mk_datetime 2024 3 10 3 0 0 2)) = true.
Proof.
  apply (chrome_time_decoding_is_monotone new_york_2024
           13354527599999999 13354527600000001).
  - lia.
  - vm_compute. discriminate.
  - vm_compute. reflexivity.
  - vm_compute. reflexivity.
Defined.

(** X4: in a zone with one fixed offset [tz], encoding whole-second
    datetimes is exact and keeps their order: the result is a whole
    number of seconds, and two results compare as the datetimes do. *)
Theorem datetime_encoding_keeps_order (tz : Z) d1 d2 c1 c2 :
  -86400 < tz < 86400 ->
  valid_datetime d1 = true -> microsecond d1 = 0 ->
  valid_datetime d2 = true -> microsecond d2 = 0 ->
  datetime_to_chrome_time (fixed tz) d1 = Some c1 ->
  datetime_to_chrome_time (fixed tz) d2 = Some c2 ->
  c1 mod 1000000 = 0 /\ c2 mod 1000000 = 0 /\ (c1 ?= c2) = cmp_fields d1 d2.
Proof.
  intros Tz V1 U1 V2 U2 E1 E2.
  apply (datetime_to_chrome_time_seconds tz d1 c1 Tz V1 U1) in E1 as [-> _].
  apply (datetime_to_chrome_time_seconds tz d2 c2 Tz V2 U2) in E2 as [-> _].
  rewrite (cmp_fields_wall d1 d2 V1 V2). unfold wall_micros. rewrite U1, U2.
  clear V1 V2. split; [|split].
  - apply Z.mod_mul. lia.
  - apply Z.mod_mul. lia.
  - rewrite !Z.add_0_r.
    destruct (Z.compare_spec (wall_seconds d1) (wall_seconds d2)) as [H|H|H].
    + rewrite H, !Z.compare_refl. reflexivity.
    + transitivity Lt; [apply Z.compare_lt_iff|symmetry; apply Z.compare_lt_iff]; lia.
    + transitivity Gt; [apply Z.compare_gt_iff|symmetry; apply Z.compare_gt_iff]; lia.
Qed.

Lemma datetime_encoding_keeps_order_witness :
  13348576800000000 mod 1000000 = 0 /\ 13351269600000000 mod 1000000 = 0 /\
  (13348576800000000 ?= 13351269600000000)
  = cmp_fields (mk_datetime 2024 1 1 10 0 0 0) (mk_datetime 2024 2 1 14 0 0 0).
Proof.
  apply (datetime_encoding_keeps_order 0 (mk_datetime 2024 1 1 10 0 0 0)
           (mk_datetime 2024 2 1 14 0 0 0)).
  - lia.
  - reflexivity.
  - reflexivity.
  - reflexivity.
  - reflexivity.
  - vm_compute. reflexivity.
  - vm_compute. reflexivity.
Defined.

(** In any zone less than a day from UTC the Chrome timestamps that
    convert lie in the range of the datetimes. *)
Lemma chrome_time_converts_in_range tz c dt :
  offsets_within_a_day tz -> chrome_time_to_datetime tz c = Some dt ->
  CHROME_MIN_ERROR - 86400000000 < c < CHROME_MAX_ERROR.
Proof.
  intros B E. apply chrome_time_to_datetime_reading in E as [V W].
  pose proof (valid_wall_range dt V) as R.
  pose proof (valid_datetime_fields dt V) as [_ [_ [_ [_ [_ [_ Hus]]]]]].
  pose proof (B (unix_second c)) as Bz. clear V.
  unfold wall_micros in W.
  destruct (Z_le_gt_dec c (CHROME_MIN_ERROR - 86400000000)) as [L|L].
  { exfalso. pose proof (chrome_micros_mono _ _ L) as M.
    change (CHROME_MIN_ERROR - 86400000000) with ((-50491209600) * 1000000) in M.
    rewrite chrome_micros_seconds in M by (unfold CHROME_EPOCH_OFFSET; lia).
    unfold CHROME_EPOCH_OFFSET, MIN_WALL in *. lia. }
  destruct (Z_le_gt_dec CHROME_MAX_ERROR c) as [U|U].
  { exfalso. pose proof (chrome_micros_mono _ _ U) as M.
    change CHROME_MAX_ERROR with (265046860799 * 1000000) in M.
    rewrite chrome_micros_seconds in M by (unfold CHROME_EPOCH_OFFSET; lia).
    unfold CHROME_EPOCH_OFFSET, MAX_WALL in *. lia. }
  lia.
Qed.

(** X5: the other round trip.  A Chrome timestamp that is a whole number
    of seconds decodes to the reading of the local clock at that second,
    without microseconds and with [fold] set in the second pass of a
    repeated hour, and encoding that reading gives the timestamp back, in
    a zone that within three days of the instant changes its offset at
    most once. *)
Theorem chrome_time_whole_second_roundtrip tz n dt :
  offsets_within_a_day tz ->
  one_transition_near tz (n - CHROME_EPOCH_OFFSET) ->
  chrome_time_to_datetime tz (n * 1000000) = Some dt ->
  2 <= year dt <= 9998 ->
  microsecond dt = 0 /\
  wall_seconds dt = n - CHROME_EPOCH_OFFSET + utcoffset tz (n - CHROME_EPOCH_OFFSET) /\
  datetime_to_chrome_time tz dt = Some (n * 1000000).
Proof.
  intros B [T [al [be [A [Bb [Dd Hz]]]]]] E Y.
  pose proof (chrome_time_converts_in_range tz _ dt B E) as R.
  unfold CHROME_MIN_ERROR, CHROME_MAX_ERROR in R.
  rewrite chrome_time_to_datetime_micros in E.
  rewrite chrome_micros_seconds in E by (unfold CHROME_EPOCH_OFFSET; lia).
  set (u := n - CHROME_EPOCH_OFFSET) in *.
  apply datetime_of_micros_whole in E as [V [U [W F]]].
  split; [exact U|]. split; [exact W|].
  pose proof (wall_seconds_year_bounds dt V Y) as Rw.
  assert (M : mktime tz dt = Some u).
  { rewrite (mktime_in_range tz dt B) by (clear V; lia).
    rewrite W, F. f_equal.
    exact (mktime_seconds_inverts (utcoffset tz) u T al be A Bb Dd Hz). }
  pose proof (B u) as Bu.
  rewrite (datetime_to_chrome_time_whole tz dt u U M) by (clear V; lia).
  f_equal. unfold u. lia.
Qed.

Lemma chrome_time_whole_second_roundtrip_witness :
  microsecond (new_datetime 2024 11 3 1 30 0 0 true) = 0 /\
  wall_seconds (new_datetime 2024 11 3 1 30 0 0 true)
    = 13375089000 - CHROME_EPOCH_OFFSET
      + utcoffset new_york_2024 (13375089000 - CHROME_EPOCH_OFFSET) /\
  datetime_to_chrome_time new_york_2024 (new_datetime 2024 11 3 1 30 0 0 true)
    = Some (13375089000 * 1000000).
Proof.
  apply (chrome_time_whole_second_roundtrip new_york_2024 13375089000).
  - exact new_york_offsets_within_a_day.
  - apply new_york_one_transition_near.
  - vm_compute. reflexivity.
  - simpl. lia.
Defined.

(** ** The WHERE clause as a whole *)

Lemma build_where_dates tz start_date end_date :
  _build_where_clause tz None start_date end_date =
  option_map
    (fun b =>
       (match fst b with Some _ => [VisitTimeGe] | None => [] end
        ++ match snd b with Some _ => [VisitTimeLe] | None => [] end,
        match fst b with Some n => [PInt n] | None => [] end
        ++ match snd b with Some n => [PInt n] | None => [] end))
    (date_bounds tz start_date end_date).
Proof.
  unfold _build_where_clause, date_bounds.
  destruct start_date as [sd|]; [destruct (datetime_to_chrome_time tz sd) as [n|]|];
    try reflexivity;
    (destruct end_date as [ed|];
     [destruct (make_datetime (year ed) (month ed) (day ed) 23 59 59 0) as [eod|];
      [destruct (datetime_to_chrome_time tz eod) as [m|]|]|]);
    reflexivity.
Qed.






(** ** Date bounds and the displayed time *)
Lemma decode_leb tz c1 c2 d1 d2 :
  c1 <= c2 ->
  utcoffset tz (unix_second c1) <= utcoffset tz (unix_second c2) ->
  chrome_time_to_datetime tz c1 = Some d1 ->
  chrome_time_to_datetime tz c2 = Some d2 ->
  String.leb (isoformat d1) (isoformat d2) = true.
Proof.
  intros L O E1 E2.
  pose proof (decode_keeps_order tz c2 c1 d2 d1 L O E2 E1) as W.
  apply chrome_time_to_datetime_reading in E1 as [V1 _].
  apply chrome_time_to_datetime_reading in E2 as [V2 _].
  unfold String.leb.
  rewrite (isoformat_compare d1 d2 V1 V2), (cmp_fields_wall d1 d2 V1 V2).
  clear V1 V2.
  destruct (Z.compare_spec (wall_micros d1) (wall_micros d2));
    [reflexivity|reflexivity|lia].
Qed.

Lemma record_of_row_visit_time tz p r x :
  record_of_row tz p r = Some x ->
  exists vt, chrome_time_to_datetime tz (r_visit_time r) = Some vt /\
             visit_time x = isoformat vt /\
             visit_time_display x = strftime_display vt /\
             profile x = p /\ url x = r_url r.
Proof.
  unfold record_of_row.
  destruct (chrome_time_to_datetime tz (r_visit_time r)) as [vt|]; [|discriminate].
  intros H. inversion H. exists vt. repeat split.
Qed.

Lemma where_accepts_lower tz sd n r :
  datetime_to_chrome_time tz sd = Some n -> int64 n = true ->
  where_accepts (_build_where_clause tz None (Some sd) None) r
  = Some (n <=? r_visit_time r).
Proof.
  intros E I. rewrite build_where_dates. unfold date_bounds. rewrite E.
  cbn [option_map fst snd app]. unfold where_accepts. cbn [bind_where].
  rewrite I, andb_true_r. reflexivity.
Qed.

Lemma where_accepts_upper tz ed eod n r :
  make_datetime (year ed) (month ed) (day ed) 23 59 59 0 = Some eod ->
  datetime_to_chrome_time tz eod = Some n -> int64 n = true ->
  where_accepts (_build_where_clause tz None None (Some ed)) r
  = Some (r_visit_time r <=? n).
Proof.
  intros M E I. rewrite build_where_dates. unfold date_bounds. rewrite M, E.
  cbn [option_map fst snd app]. unfold where_accepts. cbn [bind_where].
  rewrite I, andb_true_r. reflexivity.
Qed.

(** A bound that decodes to the fields of [sd], against the time a row
    shows: on its upper side when the offset has not dropped from the
    bound to the row, on its lower side when it has not risen. *)
Lemma bound_display tz sd n d r p x :
  chrome_time_to_datetime tz n = Some d -> same_fields d sd ->
  record_of_row tz p r = Some x ->
  (n <= r_visit_time r ->
   utcoffset tz (unix_second n) <= utcoffset tz (unix_second (r_visit_time r)) ->
   String.leb (isoformat sd) (visit_time x) = true) /\
  (r_visit_time r <= n ->
   utcoffset tz (unix_second (r_visit_time r)) <= utcoffset tz (unix_second n) ->
   String.leb (visit_time x) (isoformat sd) = true).
Proof.
  intros D F R.
  apply record_of_row_visit_time in R as [vt [Dv [-> _]]].
  rewrite <- (same_fields_isoformat d sd F). split.
  - intros L O. exact (decode_leb tz n (r_visit_time r) d vt L O D Dv).
  - intros L O. exact (decode_leb tz (r_visit_time r) n vt d L O Dv D).
Qed.

(** X7: the lower bound of a filter agrees with the time a record shows,
    as long as the zone's offset at the record is the one of the bound.
    In a zone whose offsets are less than a day from UTC and change at
    most once in two days, a whole-second [start_date] of the years 2 to
    9998 that occurs on the local clock is encoded to a bound [n], and
    the clause selects the rows stored at or after [n].  A selected row is
    shown at or after [start_date] unless the offset has dropped between
    the bound and the row; a rejected row is shown at or before it unless
    the offset has risen between the row and the bound. *)
Theorem start_date_filter_agrees_with_display tz sd r p x b :
  offsets_within_a_day tz -> one_change_at_a_time tz ->
  valid_datetime sd = true -> microsecond sd = 0 -> 2 <= year sd <= 9998 ->
  on_the_clock tz sd ->
  record_of_row tz p r = Some x ->
  where_accepts (_build_where_clause tz None (Some sd) None) r = Some b ->
  exists n,
    datetime_to_chrome_time tz sd = Some n /\
    b = (n <=? r_visit_time r) /\
    if b
    then utcoffset tz (unix_second n) <= utcoffset tz (unix_second (r_visit_time r)) ->
         String.leb (isoformat sd) (visit_time x) = true
    else utcoffset tz (unix_second (r_visit_time r)) <= utcoffset tz (unix_second n) ->
         String.leb (visit_time x) (isoformat sd) = true.
Proof.
  intros B O V U Y C R.
  destruct (roundtrip_on_the_clock tz sd B O V U Y C) as [n [d [E [I [D F]]]]].
  rewrite (where_accepts_lower tz sd n r E I).
  intros A. exists n. split; [exact E|].
  destruct (bound_display tz sd n d r p x D F R) as [Up Lo].
  destruct (n <=? r_visit_time r) eqn:Cmp; inversion A as [Hb].
  - split; [reflexivity|]. apply Z.leb_le in Cmp. exact (Up Cmp).
  - split; [reflexivity|]. apply Z.leb_gt in Cmp. apply Z.lt_le_incl in Cmp.
    exact (Lo Cmp).
Qed.

Lemma start_date_filter_agrees_with_display_witness :
  exists n,
    datetime_to_chrome_time new_york_2024 (mk_datetime 2024 11 3 1 30 0 0) = Some n /\
    true = (n <=? r_visit_time (mk_row "https://example.com/page" None 13375086600000000)) /\
    (utcoffset new_york_2024 (unix_second n)
       <= utcoffset new_york_2024
            (unix_second
               (r_visit_time (mk_row "https://example.com/page" None 13375086600000000))) ->
     String.leb (isoformat (mk_datetime 2024 11 3 1 30 0 0))
       (visit_time (mk_record "https://example.com/page" "(No title)"
                      "2024-11-03T01:50:00" "2024-11-03 01:50:00" "default")) = true).
Proof.
  apply (start_date_filter_agrees_with_display new_york_2024
           (mk_datetime 2024 11 3 1 30 0 0)
           (mk_row "https://example.com/page" None 13375086600000000) "default" _ true).
  - exact new_york_offsets_within_a_day.
  - exact new_york_one_change_at_a_time.
  - reflexivity.
  - reflexivity.
  - simpl. lia.
  - exists 1730611800. reflexivity.
  - vm_compute. reflexivity.
  - vm_compute. reflexivity.
Defined.

(** Where the offset drops between the bound and the row the two part:
    in the hour New York repeats, [start_date] 01:30 stands for its first
    pass, and a visit of the second pass is selected and shown at
    01:10. *)
Example start_date_in_a_repeated_hour :
  where_accepts
    (_build_where_clause new_york_2024 None (Some (mk_datetime 2024 11 3 1 30 0 0)) None)
    (mk_row "https://example.com/page" None 13375087800000000) = Some true /\
  option_map visit_time
    (record_of_row new_york_2024 "default"
       (mk_row "https://example.com/page" None 13375087800000000))
  = Some "2024-11-03T01:10:00"%string.
Proof. split; vm_compute; reflexivity. Qed.

(** A [start_date] that is not on the clock: Cairo skips the hour from
    midnight of 2024-04-26, and the midnight the route builds for that
    date stands for 01:00. *)
Example start_date_in_a_skipped_hour :
  ~ on_the_clock cairo_2024 (mk_datetime 2024 4 26 0 0 0 0) /\
  option_map (chrome_time_to_datetime cairo_2024)
    (datetime_to_chrome_time cairo_2024 (mk_datetime 2024 4 26 0 0 0 0))
  = Some (Some (mk_datetime 2024 4 26 1 0 0 0)).
Proof.
  split; [|vm_compute; reflexivity].
  intros [u H]. cbn [utcoffset cairo_2024] in H.
  change (wall_seconds (mk_datetime 2024 4 26 0 0 0 0)) with 1714089600 in H.
  destruct (Z.leb_spec 1714082400 u); destruct (Z.ltb_spec u 1730408400);
    cbn [andb] in H; lia.
Qed.

Lemma where_accepts_upper_raises tz ed r :
  match make_datetime (year ed) (month ed) (day ed) 23 59 59 0 with
  | Some eod => datetime_to_chrome_time tz eod
  | None => None
  end = None ->
  where_accepts (_build_where_clause tz None None (Some ed)) r = None.
Proof.
  intros E. rewrite build_where_dates. unfold date_bounds.
  destruct (make_datetime (year ed) (month ed) (day ed) 23 59 59 0) as [eod|];
    [rewrite E|]; reflexivity.
Qed.

(** X8: the upper bound of a filter is the last whole second of the end
    date's calendar day, whatever time of day [end_date] carries, and
    agrees with the time a record shows as long as the zone's offset at
    the record is the one of the bound.  In a zone whose offsets are
    less than a day from UTC and change at most once in two days, with
    23:59:59 of that day on the local clock, the clause selects the rows
    stored at or before the bound [n] it is encoded to.  A selected row is
    shown at or before 23:59:59 of the day unless the offset has risen
    between the row and the bound; a rejected row is shown at or after it
    unless the offset has dropped between the bound and the row. *)
Theorem end_date_filter_agrees_with_display tz ed r p x b :
  offsets_within_a_day tz -> one_change_at_a_time tz ->
  valid_datetime ed = true -> 2 <= year ed <= 9998 ->
  on_the_clock tz (mk_datetime (year ed) (month ed) (day ed) 23 59 59 0) ->
  record_of_row tz p r = Some x ->
  where_accepts (_build_where_clause tz None None (Some ed)) r = Some b ->
  exists n,
    datetime_to_chrome_time tz (mk_datetime (year ed) (month ed) (day ed) 23 59 59 0)
      = Some n /\
    b = (r_visit_time r <=? n) /\
    if b
    then utcoffset tz (unix_second (r_visit_time r)) <= utcoffset tz (unix_second n) ->
         String.leb (visit_time x)
           (isoformat (mk_datetime (year ed) (month ed) (day ed) 23 59 59 0)) = true
    else utcoffset tz (unix_second n) <= utcoffset tz (unix_second (r_visit_time r)) ->
         String.leb (isoformat (mk_datetime (year ed) (month ed) (day ed) 23 59 59 0))
           (visit_time x) = true.
Proof.
  intros B O V Y C R.
  set (eod := mk_datetime (year ed) (month ed) (day ed) 23 59 59 0) in *.
  assert (Ve : valid_datetime eod = true).
  { unfold valid_datetime in *. apply andb_prop in V as [Vd _].
    apply andb_true_intro. split; [exact Vd|reflexivity]. }
  assert (M : make_datetime (year ed) (month ed) (day ed) 23 59 59 0 = Some eod).
  { apply make_datetime_some. split; [reflexivity|exact Ve]. }
  destruct (roundtrip_on_the_clock tz eod B O Ve eq_refl Y C) as [n [d [E [I [D F]]]]].
  rewrite (where_accepts_upper tz ed eod n r M E I).
  intros A. exists n. split; [exact E|].
  destruct (bound_display tz eod n d r p x D F R) as [Up Lo].
  destruct (r_visit_time r <=? n) eqn:Cmp; inversion A as [Hb].
  - split; [reflexivity|]. apply Z.leb_le in Cmp. exact (Lo Cmp).
  - split; [reflexivity|]. apply Z.leb_gt in Cmp. apply Z.lt_le_incl in Cmp.
    exact (Up Cmp).
Qed.

Lemma end_date_filter_agrees_with_display_witness :
  exists n,
    datetime_to_chrome_time new_york_2024
      (mk_datetime (year (mk_datetime 2024 11 3 8 30 0 0))
                   (month (mk_datetime 2024 11 3 8 30 0 0))
                   (day (mk_datetime 2024 11 3 8 30 0 0)) 23 59 59 0) = Some n /\
    true = (r_visit_time (mk_row "https://example.com/page" None 13375087800000000) <=? n) /\
    (utcoffset new_york_2024
       (unix_second (r_visit_time (mk_row "https://example.com/page" None 13375087800000000)))
       <= utcoffset new_york_2024 (unix_second n) ->
     String.leb
       (visit_time (mk_record "https://example.com/page" "(No title)"
                      "2024-11-03T01:10:00" "2024-11-03 01:10:00" "default"))
       (isoformat (mk_datetime (year (mk_datetime 2024 11 3 8 30 0 0))
                               (month (mk_datetime 2024 11 3 8 30 0 0))
                               (day (mk_datetime 2024 11 3 8 30 0 0)) 23 59 59 0)) = true).
Proof.
  apply (end_date_filter_agrees_with_display new_york_2024
           (mk_datetime 2024 11 3 8 30 0 0)
           (mk_row "https://example.com/page" None 13375087800000000) "default" _ true).
  - exact new_york_offsets_within_a_day.
  - exact new_york_one_change_at_a_time.
  - reflexivity.
  - simpl. lia.
  - exists 1730696399. reflexivity.
  - vm_compute. reflexivity.
  - vm_compute. reflexivity.
Defined.

(** Where the offset drops between the bound and the row: Cairo repeats
    the last hour of 2024-10-31, the bound of that [end_date] is the first
    pass of 23:59:59, and a visit half an hour later is rejected and shown
    at 23:29:59. *)
Example end_date_in_a_repeated_hour :
  where_accepts
    (_build_where_clause cairo_2024 None None (Some (mk_datetime 2024 10 31 0 0 0 0)))
    (mk_row "https://example.com/page" None 13374883799000000) = Some false /\
  option_map visit_time
    (record_of_row cairo_2024 "default"
       (mk_row "https://example.com/page" None 13374883799000000))
  = Some "2024-10-31T23:29:59"%string.
Proof. split; vm_compute; reflexivity. Qed.

(** ** Pages of a search, on every path *)

Lemma records_of_rows_skipn tz profile k : forall rows res,
  records_of_rows tz profile rows = Some res ->
  records_of_rows tz profile (skipn k rows) = Some (skipn k res).
Proof.
  induction k as [|k IH]; intros rows res E; [exact E|].
  destruct rows as [|r rows].
  - inversion E. reflexivity.
  - rewrite records_of_rows_cons in E.
    destruct (record_of_row tz profile r) as [rec|] eqn:R; [|discriminate].
    destruct (records_of_rows tz profile rows) as [rs|] eqn:Rs; [|discriminate].
    inversion E; subst. cbn [skipn]. apply IH, Rs.
Qed.

Lemma limit_offset_nil {A} limit offset : @limit_offset A limit offset [] = [].
Proof.
  unfold limit_offset. rewrite skipn_nil. destruct (limit <? 0); [reflexivity|].
  apply firstn_nil.
Qed.

(** One fetch is the LIMIT/OFFSET window of the profile's matching
    records. *)
Lemma query_profile_rows_window tz fs w ps limit offset a :
  (forall db, connect fs (snd a) = Some db -> Forall (convertible tz) (join db)) ->
  int64 limit = true -> int64 offset = true ->
  _query_profile_rows tz fs (snd a) w ps limit offset (fst a) =
  limit_offset limit offset (matching_records tz fs w ps a).
Proof.
  intros C I J. unfold _query_profile_rows, matching_records.
  destruct (connect fs (snd a)) as [db|]; [|rewrite limit_offset_nil; reflexivity].
  rewrite select_rows_matching.
  destruct (matching_rows db w ps) as [rows|] eqn:M;
    [|rewrite limit_offset_nil; reflexivity].
  rewrite I, J. cbn [andb].
  pose proof (matching_rows_Forall _ _ _ _ _ (C db eq_refl) M) as F.
  destruct (records_of_rows_total tz (fst a) rows F) as [res R]. rewrite R.
  unfold limit_offset.
  pose proof (records_of_rows_skipn tz (fst a) (Z.to_nat offset) rows res R) as Sk.
  destruct (limit <? 0); [rewrite Sk; reflexivity|].
  rewrite (records_of_rows_firstn _ _ _ _ _ Sk). reflexivity.
Qed.

Lemma sorted_union_single tz fs w ps a :
  (forall db, connect fs (snd a) = Some db -> keeps_order tz (join db)) ->
  sorted_union tz fs w ps [a] = matching_records tz fs w ps a.
Proof.
  intros K. unfold sorted_union. cbn [flat_map]. rewrite app_nil_r.
  apply sort_descending_id; [exact string_ltb_below|].
  apply matching_records_descending, K.
Qed.

Lemma skipn_firstn_window {A} (l : list A) a b : (a <= b)%nat ->
  skipn a (firstn b l) = firstn (b - a) (skipn a l).
Proof.
  intros H. rewrite firstn_skipn_comm. replace (a + (b - a))%nat with b by lia.
  reflexivity.
Qed.

Lemma int64_between lo hi n : int64 lo = true -> int64 hi = true ->
  lo <= n <= hi -> int64 n = true.
Proof.
  unfold int64. intros L H B.
  apply andb_prop in L as [L1 L2]. apply andb_prop in H as [H1 H2].
  apply Z.leb_le in L1. apply Z.ltb_lt in H2.
  apply andb_true_intro. split; [apply Z.leb_le|apply Z.ltb_lt]; lia.
Qed.

(** The page of a search in closed form, whatever the number of profiles
    with a database. *)
Lemma search_history_window tz fs keyword start_date end_date profiles page per_page w ps :
  _build_where_clause tz keyword start_date end_date = Some (w, ps) ->
  forallb (timestamps_convert tz fs)
          (active_profiles fs (requested_profiles profiles)) = true ->
  profiles_keep_order tz fs (active_profiles fs (requested_profiles profiles)) ->
  1 <= page -> 0 <= per_page -> int64 (page * per_page) = true ->
  search_history tz fs keyword start_date end_date profiles page per_page =
  Some (page_window page per_page
          (sorted_union tz fs w ps (active_profiles fs (requested_profiles profiles))),
        Z.of_nat (List.length
          (sorted_union tz fs w ps (active_profiles fs (requested_profiles profiles))))).
Proof.
  intros B C KO P N I.
  pose proof (timestamps_convert_Forall tz fs _ C) as F.
  unfold search_history. rewrite B. fold (requested_profiles profiles).
  unfold profiles_keep_order in KO.
  destruct (active_profiles fs (requested_profiles profiles)) as [|a1 [|a2 rest]] eqn:Act.
  - unfold page_window, sorted_union. cbn [flat_map sort_desc].
    rewrite skipn_nil, firstn_nil. reflexivity.
  - destruct a1 as [profile db_path]. rewrite sorted_union_single
      by (intros db; apply KO; left; reflexivity).
    assert (Fa : forall db, connect fs (snd (profile, db_path)) = Some db ->
                            Forall (convertible tz) (join db)).
    { intros db. apply F. left. reflexivity. }
    assert (I1 : int64 per_page = true).
    { apply (int64_between 0 (page * per_page)); [reflexivity|exact I|nia]. }
    assert (I2 : int64 ((page - 1) * per_page) = true).
    { apply (int64_between 0 (page * per_page)); [reflexivity|exact I|nia]. }
    pose proof (query_profile_count_records tz fs w ps (profile, db_path) Fa) as Cn.
    pose proof (query_profile_rows_window tz fs w ps per_page ((page - 1) * per_page)
                  (profile, db_path) Fa I1 I2) as Rw.
    cbn [fst snd] in Cn, Rw. rewrite Cn, Rw.
    unfold limit_offset, page_window.
    destruct (per_page <? 0) eqn:Neg; [apply Z.ltb_lt in Neg; lia|]. reflexivity.
  - set (active := a1 :: a2 :: rest) in *.
    assert (R : fst (merge_profiles tz fs active w ps page per_page) =
                page_window page per_page (sorted_union tz fs w ps active)).
    { rewrite (merge_profiles_union tz fs active w ps page per_page F KO I).
      fold (sorted_union tz fs w ps active).
      rewrite py_slice_nonneg by nia. unfold page_window.
      rewrite skipn_firstn_window by nia.
      replace (Z.to_nat (page * per_page) - Z.to_nat ((page - 1) * per_page))%nat
        with (Z.to_nat per_page) by nia.
      reflexivity. }
    assert (T : snd (merge_profiles tz fs active w ps page per_page) =
                Z.of_nat (List.length (sorted_union tz fs w ps active))).
    { unfold merge_profiles, sorted_union. cbn [snd]. rewrite sort_length.
      apply sum_counts_length. intros a Ha.
      apply query_profile_count_records. intros db. apply F, Ha. }
    destruct a1. rewrite <- R, <- T.
    destruct (merge_profiles tz fs active w ps page per_page). reflexivity.
Qed.

Lemma firstn_add_skipn {A} (l : list A) a b :
  firstn (a + b) l = firstn a l ++ firstn b (skipn a l).
Proof.
  revert l. induction a as [|a IH]; intros l; [reflexivity|].
  destruct l as [|x l]; [rewrite !firstn_nil; reflexivity|].
  cbn [Nat.add firstn skipn app]. rewrite IH. reflexivity.
Qed.

Lemma page_window_length {A} page per_page (l : list A) :
  1 <= page -> 0 <= per_page ->
  Z.of_nat (List.length (page_window page per_page l)) =
  Z.min per_page (Z.max 0 (Z.of_nat (List.length l) - (page - 1) * per_page)).
Proof.
  intros P N. unfold page_window. rewrite length_firstn, length_skipn. nia.
Qed.

(** X9: when the zone keeps the stored order of each profile's rows, as
    every zone with a fixed offset does, then on every path, with no
    profile, one or several, page [page >= 1] of a search is the
    [per_page] records that follow the first [(page - 1) * per_page] of
    the sorted union of the matching records, and the total is the size
    of that union. *)
Theorem search_page_is_window_of_union
    tz fs keyword start_date end_date profiles page per_page w ps :
  _build_where_clause tz keyword start_date end_date = Some (w, ps) ->
  forallb (timestamps_convert tz fs)
          (active_profiles fs (requested_profiles profiles)) = true ->
  profiles_keep_order tz fs (active_profiles fs (requested_profiles profiles)) ->
  1 <= page -> 0 <= per_page -> int64 (page * per_page) = true ->
  search_history tz fs keyword start_date end_date profiles page per_page =
  Some (firstn (Z.to_nat per_page)
          (skipn (Z.to_nat ((page - 1) * per_page))
             (sorted_union tz fs w ps (active_profiles fs (requested_profiles profiles)))),
        Z.of_nat (List.length
          (sorted_union tz fs w ps (active_profiles fs (requested_profiles profiles))))).
Proof.
  intros B C KO P N I.
  rewrite (search_history_window tz fs keyword start_date end_date profiles
             page per_page w ps B C KO P N I).
  reflexivity.
Qed.

Lemma search_page_is_window_of_union_witness :
  search_history new_york_2024 example_fs None None None None 2 1 =
  Some (firstn (Z.to_nat 1)
          (skipn (Z.to_nat ((2 - 1) * 1))
             (sorted_union new_york_2024 example_fs [] []
                (active_profiles example_fs (requested_profiles None)))),
        Z.of_nat (List.length
          (sorted_union new_york_2024 example_fs [] []
             (active_profiles example_fs (requested_profiles None))))).
Proof.
  apply (search_page_is_window_of_union new_york_2024 example_fs None None None
           None 2 1 [] []).
  - reflexivity.
  - vm_compute. reflexivity.
  - exact new_york_keeps_example_order.
  - lia.
  - lia.
  - reflexivity.
Defined.

(** Cutting every list at [k] leaves the total as it is or leaves at
    least [k] elements. *)
Lemma flat_map_firstn_length {A B} (f : A -> list B) k l :
  List.length (flat_map (fun a => firstn k (f a)) l) = List.length (flat_map f l) \/
  (k <= List.length (flat_map (fun a => firstn k (f a)) l) /\
   k <= List.length (flat_map f l))%nat.
Proof.
  induction l as [|a l IH]; [left; reflexivity|].
  cbn [flat_map]. rewrite !length_app, length_firstn. lia.
Qed.

(** The merged page has the length the total calls for, whatever the
    order of the records. *)
Lemma merge_profiles_length tz fs active w ps page per_page :
  (forall a db, In a active -> connect fs (snd a) = Some db ->
                Forall (convertible tz) (join db)) ->
  1 <= page -> 0 <= per_page -> int64 (page * per_page) = true ->
  Z.of_nat (List.length (fst (merge_profiles tz fs active w ps page per_page)))
  = Z.min per_page
      (Z.max 0 (snd (merge_profiles tz fs active w ps page per_page)
                - (page - 1) * per_page)).
Proof.
  intros F P N I. unfold merge_profiles. cbn [fst snd].
  replace ((page - 1) * per_page + per_page) with (page * per_page) by lia.
  set (K := page * per_page) in *.
  assert (Fe : forall a, In a active ->
            _query_profile_rows tz fs (snd a) w ps K 0 (fst a) =
            if K <? 0 then matching_records tz fs w ps a
            else firstn (Z.to_nat K) (matching_records tz fs w ps a)).
  { intros a Ha. apply query_profile_rows_fetch; [|assumption].
    intros db. apply F. assumption. }
  rewrite (flat_map_ext_in _ _ _ Fe).
  replace (K <? 0) with false by (symmetry; apply Z.ltb_ge; nia).
  rewrite (sum_counts_length (matching_records tz fs w ps)).
  2:{ intros a Ha. apply query_profile_count_records. intros db. apply F, Ha. }
  rewrite py_slice_nonneg by nia.
  rewrite length_skipn, length_firstn, sort_length.
  pose proof (flat_map_firstn_length (matching_records tz fs w ps) (Z.to_nat K) active)
    as L.
  nia.
Qed.

(** X10: the number of records on a page follows from the total: every
    page is full until the records run out, the last one holds the rest,
    and the pages after it are empty. *)
Theorem search_page_length
    tz fs keyword start_date end_date profiles page per_page w ps results total :
  _build_where_clause tz keyword start_date end_date = Some (w, ps) ->
  forallb (timestamps_convert tz fs)
          (active_profiles fs (requested_profiles profiles)) = true ->
  1 <= page -> 0 <= per_page -> int64 (page * per_page) = true ->
  search_history tz fs keyword start_date end_date profiles page per_page
    = Some (results, total) ->
  Z.of_nat (List.length results)
  = Z.min per_page (Z.max 0 (total - (page - 1) * per_page)).
Proof.
  intros B C P N I E.
  pose proof (timestamps_convert_Forall tz fs _ C) as F.
  unfold search_history in E. rewrite B in E. fold (requested_profiles profiles) in E.
  destruct (active_profiles fs (requested_profiles profiles)) as [|a1 [|a2 rest]] eqn:Act.
  - inversion E. cbn [List.length]. nia.
  - destruct a1 as [profile db_path].
    assert (Fa : forall db, connect fs (snd (profile, db_path)) = Some db ->
                            Forall (convertible tz) (join db)).
    { intros db. apply F. left. reflexivity. }
    assert (I1 : int64 per_page = true).
    { apply (int64_between 0 (page * per_page)); [reflexivity|exact I|nia]. }
    assert (I2 : int64 ((page - 1) * per_page) = true).
    { apply (int64_between 0 (page * per_page)); [reflexivity|exact I|nia]. }
    pose proof (query_profile_count_records tz fs w ps (profile, db_path) Fa) as Cn.
    pose proof (query_profile_rows_window tz fs w ps per_page ((page - 1) * per_page)
                  (profile, db_path) Fa I1 I2) as Rw.
    cbn [fst snd] in Cn, Rw. rewrite Cn, Rw in E. inversion E.
    unfold limit_offset.
    destruct (per_page <? 0) eqn:Neg; [apply Z.ltb_lt in Neg; lia|].
    apply page_window_length; assumption.
  - set (active := a1 :: a2 :: rest) in *.
    assert (R : results = fst (merge_profiles tz fs active w ps page per_page) /\
                total = snd (merge_profiles tz fs active w ps page per_page)).
    { destruct a1. inversion E. split; reflexivity. }
    destruct R as [-> ->]. clear E.
    exact (merge_profiles_length tz fs active w ps page per_page F P N I).
Qed.

Lemma search_page_length_witness :
  Z.of_nat (List.length
    [mk_record "https://github.com/anthropics/claude" "Anthropic Claude"
               "2024-01-01T10:00:00" "2024-01-01 10:00:00" "default"])
  = Z.min 3 (Z.max 0 (4 - (2 - 1) * 3)).
Proof.
  apply (search_page_length 0 example_fs None None None None 2 3 [] []).
  - reflexivity.
  - vm_compute. reflexivity.
  - lia.
  - lia.
  - reflexivity.
  - vm_compute. reflexivity.
Defined.

Lemma first_pages_window tz fs keyword start_date end_date profiles per_page w ps :
  _build_where_clause tz keyword start_date end_date = Some (w, ps) ->
  forallb (timestamps_convert tz fs)
          (active_profiles fs (requested_profiles profiles)) = true ->
  profiles_keep_order tz fs (active_profiles fs (requested_profiles profiles)) ->
  0 <= per_page ->
  forall k, int64 (Z.of_nat k * per_page) = true ->
  first_pages tz fs keyword start_date end_date profiles per_page k =
  firstn (k * Z.to_nat per_page)
    (sorted_union tz fs w ps (active_profiles fs (requested_profiles profiles))).
Proof.
  intros B C KO N. unfold first_pages.
  induction k as [|k IH]; intros I; [reflexivity|].
  rewrite seq_S, flat_map_app. cbn [flat_map Nat.add]. rewrite app_nil_r.
  rewrite IH.
  2:{ apply (int64_between 0 (Z.of_nat (S k) * per_page)); [reflexivity|exact I|nia]. }
  unfold page_results.
  rewrite (search_history_window tz fs keyword start_date end_date profiles
             (Z.of_nat (S k)) per_page w ps B C KO) by (assumption || lia).
  unfold page_window.
  replace (Z.to_nat ((Z.of_nat (S k) - 1) * per_page)) with (k * Z.to_nat per_page)%nat
    by nia.
  rewrite <- firstn_add_skipn. f_equal. lia.
Qed.

(** X11: the pages tile the result, when the zone keeps the stored order
    of each profile's rows, as every zone with a fixed offset does.
    Pages 1 to [k] one after the other are then the first [k * per_page]
    records of the sorted union: paging neither drops a record nor shows
    one twice. *)
Theorem search_pages_tile_the_union
    tz fs keyword start_date end_date profiles per_page w ps k :
  _build_where_clause tz keyword start_date end_date = Some (w, ps) ->
  forallb (timestamps_convert tz fs)
          (active_profiles fs (requested_profiles profiles)) = true ->
  profiles_keep_order tz fs (active_profiles fs (requested_profiles profiles)) ->
  0 <= per_page -> int64 (Z.of_nat k * per_page) = true ->
  first_pages tz fs keyword start_date end_date profiles per_page k =
  firstn (k * Z.to_nat per_page)
    (sorted_union tz fs w ps (active_profiles fs (requested_profiles profiles))).
Proof.
  intros B C KO N I.
  exact (first_pages_window tz fs keyword start_date end_date profiles per_page w ps
           B C KO N k I).
Qed.

Lemma search_pages_tile_the_union_witness :
  first_pages new_york_2024 example_fs None None None None 3 2 =
  firstn (2 * Z.to_nat 3)
    (sorted_union new_york_2024 example_fs [] []
       (active_profiles example_fs (requested_profiles None))).
Proof.
  apply (search_pages_tile_the_union new_york_2024 example_fs None None None None
           3 [] [] 2).
  - reflexivity.
  - vm_compute. reflexivity.
  - exact new_york_keeps_example_order.
  - lia.
  - reflexivity.
Defined.



Lemma merge_profiles_page_zero tz fs active w ps per_page :
  fst (merge_profiles tz fs active w ps 0 per_page) = [].
Proof.
  unfold merge_profiles. cbn [fst].
  replace ((0 - 1) * per_page + per_page) with 0 by lia.
  apply py_slice_stop_zero.
Qed.

(** X13: with two or more profiles page 0 shows nothing, on any database:
    the two paths of [search_history] disagree below page 1. *)
Theorem merged_page_zero_is_empty
    tz fs keyword start_date end_date profiles per_page :
  (2 <= List.length (active_profiles fs (requested_profiles profiles)))%nat ->
  _build_where_clause tz keyword start_date end_date <> None ->
  option_map fst
    (search_history tz fs keyword start_date end_date profiles 0 per_page) = Some [].
Proof.
  intros L B. unfold search_history. fold (requested_profiles profiles).
  destruct (_build_where_clause tz keyword start_date end_date) as [[w ps]|];
    [|congruence].
  destruct (active_profiles fs (requested_profiles profiles)) as [|a1 [|a2 rest]];
    simpl in L; try lia.
  destruct a1. cbn [option_map]. rewrite merge_profiles_page_zero. reflexivity.
Qed.

Lemma merged_page_zero_is_empty_witness :
  option_map fst (search_history 0 example_fs None None None None 0 50) = Some [].
Proof.
  apply (merged_page_zero_is_empty 0 example_fs None None None None 50).
  - vm_compute. lia.
  - discriminate.
Defined.

(** ** What a search returns, and from where *)
Lemma firstn_In {A} n (l : list A) x : In x (firstn n l) -> In x l.
Proof.
  intros H. rewrite <- (firstn_skipn n l). apply in_or_app. left. exact H.
Qed.

Lemma skipn_In {A} n (l : list A) x : In x (skipn n l) -> In x l.
Proof.
  intros H. rewrite <- (firstn_skipn n l). apply in_or_app. right. exact H.
Qed.

Lemma limit_offset_In {A} limit offset (l : list A) x :
  In x (limit_offset limit offset l) -> In x l.
Proof.
  unfold limit_offset. intros H.
  destruct (limit <? 0).
  - apply (skipn_In _ _ _ H).
  - apply firstn_In, skipn_In in H. exact H.
Qed.

Lemma py_slice_In {A} (l : list A) s e x : In x (py_slice l s e) -> In x l.
Proof.
  unfold py_slice. intros H. apply firstn_In, skipn_In in H. exact H.
Qed.

Lemma rows_records_In tz p rows res x :
  rows_records tz p rows res -> In x res ->
  exists r, In r rows /\ record_of_row tz p r = Some x.
Proof.
  induction 1 as [|r y rows res R _ IH]; intros H; [contradiction|].
  destruct H as [->|H].
  - exists r. split; [left; reflexivity|exact R].
  - destruct (IH H) as [r' [I' R']]. exists r'. split; [right; exact I'|exact R'].
Qed.

(** A fetched record is the dict of a joined row of the database that
    the statement selects. *)
Lemma query_profile_rows_In tz fs db_path w ps limit offset profile x :
  In x (_query_profile_rows tz fs db_path w ps limit offset profile) ->
  exists db r,
    connect fs db_path = Some db /\ In r (join db) /\
    where_accepts (Some (w, ps)) r = Some true /\
    record_of_row tz profile r = Some x.
Proof.
  unfold _query_profile_rows.
  destruct (connect fs db_path) as [db|]; [|contradiction].
  rewrite select_rows_matching. unfold matching_rows, where_accepts.
  destruct (bind_where w ps) as [[f [|q rest]]|]; try contradiction.
  destruct (int64 limit && int64 offset); [|contradiction].
  destruct (records_of_rows tz profile _) as [res|] eqn:R; [|contradiction].
  intros H. apply records_of_rows_some in R.
  destruct (rows_records_In _ _ _ _ _ R H) as [r [Ir Rr]].
  apply limit_offset_In, sort_desc_In, filter_In in Ir as [Ij Fr].
  exists db, r. rewrite Fr. repeat split; assumption.
Qed.

Lemma merge_profiles_In tz fs active w ps page per_page x :
  In x (fst (merge_profiles tz fs active w ps page per_page)) ->
  exists a, In a active /\
            In x (_query_profile_rows tz fs (snd a) w ps (page * per_page) 0 (fst a)).
Proof.
  unfold merge_profiles. cbn [fst]. intros H.
  apply py_slice_In, sort_desc_In, in_flat_map in H. exact H.
Qed.

(** Where the records of a page come from. *)
Lemma search_history_In
    tz fs keyword start_date end_date profiles page per_page results total x :
  search_history tz fs keyword start_date end_date profiles page per_page
    = Some (results, total) ->
  In x results ->
  exists db_path db r,
    In (profile x, db_path) (active_profiles fs (requested_profiles profiles)) /\
    connect fs db_path = Some db /\ In r (join db) /\
    where_accepts (_build_where_clause tz keyword start_date end_date) r = Some true /\
    record_of_row tz (profile x) r = Some x.
Proof.
  unfold search_history. fold (requested_profiles profiles).
  destruct (_build_where_clause tz keyword start_date end_date) as [[w ps]|];
    [|discriminate].
  assert (One : forall a limit offset,
    In a (active_profiles fs (requested_profiles profiles)) ->
    In x (_query_profile_rows tz fs (snd a) w ps limit offset (fst a)) ->
    exists db_path db r,
      In (profile x, db_path) (active_profiles fs (requested_profiles profiles)) /\
      connect fs db_path = Some db /\ In r (join db) /\
      where_accepts (Some (w, ps)) r = Some true /\
      record_of_row tz (profile x) r = Some x).
  { intros [p db_path] limit offset Ha H. cbn [fst snd] in H.
    destruct (query_profile_rows_In _ _ _ _ _ _ _ _ _ H) as [db [r [Cn [Ij [Wa Rr]]]]].
    pose proof Rr as Rr'. apply record_of_row_visit_time in Rr' as [_ [_ [_ [_ [Pr _]]]]].
    exists db_path, db, r. rewrite Pr. repeat split; assumption. }
  destruct (active_profiles fs (requested_profiles profiles)) as [|a1 [|a2 rest]] eqn:Act.
  - intros E. inversion E. subst. contradiction.
  - destruct a1 as [p db_path]. intros E. inversion E. subst results. intros H.
    apply (One (p, db_path) per_page ((page - 1) * per_page)); [left; reflexivity|exact H].
  - intros E H.
    assert (R : results = fst (merge_profiles tz fs (a1 :: a2 :: rest) w ps page per_page)).
    { destruct a1. apply (f_equal (option_map fst)) in E.
      cbn [option_map fst] in E. congruence. }
    rewrite R in H. apply merge_profiles_In in H as [a [Ha Hx]].
    apply (One a (page * per_page) 0 Ha Hx).
Qed.

(** X14: every record a search returns is the dict of a row that the
    filter selects, read from the database of the profile the record
    names, and that profile is one of those searched. *)
Theorem search_results_are_selected_rows
    tz fs keyword start_date end_date profiles page per_page results total x :
  search_history tz fs keyword start_date end_date profiles page per_page
    = Some (results, total) ->
  In x results ->
  exists db_path db r,
    In (profile x, db_path) (active_profiles fs (requested_profiles profiles)) /\
    connect fs db_path = Some db /\ In r (join db) /\
    where_accepts (_build_where_clause tz keyword start_date end_date) r = Some true /\
    record_of_row tz (profile x) r = Some x.
Proof.
  intros E H.
  exact (search_history_In tz fs keyword start_date end_date profiles page per_page
           results total x E H).
Qed.

Lemma search_results_are_selected_rows_witness :
  exists db_path db r,
    In ("default"%string, db_path)
       (active_profiles example_fs (requested_profiles (Some ["default"%string]))) /\
    connect example_fs db_path = Some db /\ In r (join db) /\
    where_accepts (_build_where_clause 0 (Some "stack"%string) None None) r = Some true /\
    record_of_row 0 "default" r =
      Some (mk_record "https://stackoverflow.com/questions/123"
              "How to code - Stack Overflow"
              "2024-02-01T14:00:00" "2024-02-01 14:00:00" "default").
Proof.
  apply (search_results_are_selected_rows 0 example_fs (Some "stack"%string) None None
           (Some ["default"%string]) 1 50
           [mk_record "https://stackoverflow.com/questions/123"
              "How to code - Stack Overflow"
              "2024-02-01T14:00:00" "2024-02-01 14:00:00" "default"] 1
           (mk_record "https://stackoverflow.com/questions/123"
              "How to code - Stack Overflow"
              "2024-02-01T14:00:00" "2024-02-01 14:00:00" "default")).
  - vm_compute. reflexivity.
  - left. reflexivity.
Defined.

(** ** The total *)
Lemma active_all_closed_count fs active w ps :
  Forall (fun a : string * string => connect fs (snd a) = None) active ->
  fold_left Z.add (map (fun a => _query_profile_count fs (snd a) w ps) active) 0 = 0.
Proof.
  induction 1 as [|a active C _ IH]; [reflexivity|].
  assert (Z0 : _query_profile_count fs (snd a) w ps = 0)
    by (unfold _query_profile_count; rewrite C; reflexivity).
  cbn [map fold_left]. rewrite Z0. exact IH.
Qed.

Lemma active_all_closed_rows tz fs active w ps limit offset :
  Forall (fun a : string * string => connect fs (snd a) = None) active ->
  flat_map (fun a => _query_profile_rows tz fs (snd a) w ps limit offset (fst a)) active
  = [].
Proof.
  induction 1 as [|a active C _ IH]; [reflexivity|].
  assert (R0 : _query_profile_rows tz fs (snd a) w ps limit offset (fst a) = [])
    by (unfold _query_profile_rows; rewrite C; reflexivity).
  cbn [flat_map]. rewrite R0. exact IH.
Qed.

(** X15: when no searched profile has a database that opens, each one
    missing, unreadable or no database at all, the search returns no
    record and a total of 0 on every page instead of raising. *)
Theorem search_without_readable_database_is_empty
    tz fs keyword start_date end_date profiles page per_page :
  _build_where_clause tz keyword start_date end_date <> None ->
  Forall (fun a : string * string => connect fs (snd a) = None)
         (active_profiles fs (requested_profiles profiles)) ->
  search_history tz fs keyword start_date end_date profiles page per_page = Some ([], 0).
Proof.
  intros B C. unfold search_history. fold (requested_profiles profiles).
  destruct (_build_where_clause tz keyword start_date end_date) as [[w ps]|];
    [|congruence].
  destruct (active_profiles fs (requested_profiles profiles)) as [|a1 [|a2 rest]] eqn:Act.
  - reflexivity.
  - destruct a1 as [p db_path]. inversion C as [|? ? C1 _]. cbn [snd] in C1.
    unfold _query_profile_count, _query_profile_rows. rewrite C1. reflexivity.
  - destruct a1 as [p db_path]. unfold merge_profiles.
    rewrite (active_all_closed_count fs _ w ps C).
    rewrite (active_all_closed_rows tz fs _ w ps _ _ C).
    cbn [sort_desc]. unfold py_slice. rewrite skipn_nil, firstn_nil. reflexivity.
Qed.

Lemma search_without_readable_database_is_empty_witness :
  search_history 0 example_fs (Some "x"%string) None None
                 (Some ["broken"; "nowhere"; "broken"]%string) 3 50 = Some ([], 0).
Proof.
  apply (search_without_readable_database_is_empty 0 example_fs (Some "x"%string) None None
           (Some ["broken"; "nowhere"; "broken"]%string) 3 50).
  - discriminate.
  - repeat constructor.
Defined.


(** ** The merge sort *)
Section StableSortMore.

Context {A K : Type}.
Variable ltb : K -> K -> bool.
Variable key : A -> K.

Lemma insert_desc_perm x l : Permutation (insert_desc ltb key x l) (x :: l).
Proof.
  induction l as [|y l IH]; [reflexivity|].
  rewrite insert_cons. destruct (ltb (key x) (key y)); [|reflexivity].
  rewrite IH. apply perm_swap.
Qed.

Lemma sort_desc_perm l : Permutation (sort_desc ltb key l) l.
Proof.
  induction l as [|x l IH]; [reflexivity|].
  cbn [sort_desc]. rewrite insert_desc_perm, IH. reflexivity.
Qed.

(** Inserting passes over elements with a strictly larger key only, so a
    test that no such element shares with [x] sees the order kept. *)
Lemma insert_desc_filter (p : A -> bool) x l :
  (forall y, p x = true -> ltb (key x) (key y) = true -> p y = false) ->
  filter p (insert_desc ltb key x l) = filter p (x :: l).
Proof.
  intros H. induction l as [|y l IH]; [reflexivity|].
  rewrite insert_cons. destruct (ltb (key x) (key y)) eqn:L; [|reflexivity].
  cbn [filter] in *. rewrite IH.
  destruct (p x) eqn:Px; [|reflexivity].
  rewrite (H y eq_refl L). reflexivity.
Qed.

Lemma sort_desc_filter (p : A -> bool) l :
  (forall x y, p x = true -> ltb (key x) (key y) = true -> p y = false) ->
  filter p (sort_desc ltb key l) = filter p l.
Proof.
  intros H. induction l as [|x l IH]; [reflexivity|].
  cbn [sort_desc]. rewrite insert_desc_filter by (apply H).
  cbn [filter]. rewrite IH. reflexivity.
Qed.

End StableSortMore.

Lemma string_ltb_neq x y : String.ltb x y = true -> String.eqb x y = false.
Proof.
  unfold String.ltb. intros L. apply String.eqb_neq. intros ->.
  pose proof (String.compare_antisym y y) as S.
  destruct (String.compare y y); discriminate.
Qed.

(** X17: the sort of the merged records is a stable descending sort.  Its
    output is a rearrangement of its input, newest first, and records
    with the same [visit_time] keep the order they came in: those of an
    earlier profile stay before those of a later one. *)
Theorem merge_sort_is_stable (l : list VisitRecord) :
  Permutation (sort_desc String.ltb visit_time l) l /\
  newest_first (sort_desc String.ltb visit_time l) /\
  forall t,
    filter (fun x => String.eqb (visit_time x) t) (sort_desc String.ltb visit_time l)
    = filter (fun x => String.eqb (visit_time x) t) l.
Proof.
  split; [apply sort_desc_perm|]. split.
  - apply key_ge_newest. apply sort_descending. exact string_ltb_asym.
  - intros t. apply sort_desc_filter. intros x y Px L.
    apply String.eqb_eq in Px. subst t.
    rewrite String.eqb_sym. apply string_ltb_neq, L.
Qed.








(** ** The arguments of the search route *)

Lemma lstrip_all_space s : all_space s = true -> lstrip s = EmptyString.
Proof.
  induction s as [|c s IH]; [reflexivity|].
  cbn [all_space lstrip]. intros H. apply andb_prop in H as [Hc Hs].
  rewrite Hc. apply IH, Hs.
Qed.

Lemma strip_all_space s : all_space s = true -> strip s = EmptyString.
Proof. intros H. unfold strip. rewrite (lstrip_all_space s H). reflexivity. Qed.

Lemma rstrip_cons c s :
  rstrip (String c s) =
  match rstrip s with
  | EmptyString => if is_space c then EmptyString else String c EmptyString
  | r => String c r
  end.
Proof. reflexivity. Qed.

Lemma rstrip_idempotent s : rstrip (rstrip s) = rstrip s.
Proof.
  induction s as [|c s IH]; [reflexivity|].
  rewrite rstrip_cons. destruct (rstrip s) as [|d r] eqn:R.
  - destruct (is_space c) eqn:Sc; [reflexivity|].
    rewrite rstrip_cons. cbn [rstrip]. rewrite Sc. reflexivity.
  - rewrite rstrip_cons, IH. reflexivity.
Qed.

Lemma lstrip_no_leading_space s : no_leading_space (lstrip s).
Proof.
  induction s as [|c s IH]; [exact I|].
  cbn [lstrip]. destruct (is_space c) eqn:Sc; [exact IH|exact Sc].
Qed.

Lemma lstrip_fixed s : no_leading_space s -> lstrip s = s.
Proof. destruct s as [|c s]; [reflexivity|]. cbn. intros ->. reflexivity. Qed.

Lemma rstrip_no_leading_space s : no_leading_space s -> no_leading_space (rstrip s).
Proof.
  destruct s as [|c s]; [intros _; exact I|]. cbn [no_leading_space]. intros Sc.
  rewrite rstrip_cons. destruct (rstrip s); [rewrite Sc|]; exact Sc.
Qed.

Lemma strip_idempotent s : strip (strip s) = strip s.
Proof.
  unfold strip.
  rewrite (lstrip_fixed (rstrip (lstrip s))).
  - apply rstrip_idempotent.
  - apply rstrip_no_leading_space, lstrip_no_leading_space.
Qed.

(** X20: the keyword of a request is its [q] argument without the white
    space around it: a [q] of white space only is no keyword at all, and
    white space around a keyword does not change the answer. *)
Theorem search_keyword_is_stripped tz fs req s :
  (all_space s = true ->
   search tz fs (set_q req (Some s)) = search tz fs (set_q req None)) /\
  search tz fs (set_q req (Some s)) = search tz fs (set_q req (Some (strip s))).
Proof.
  split.
  - intros H. unfold search. cbn [set_q arg_q arg_start arg_end arg_profile arg_page get_or].
    rewrite (strip_all_space s H). reflexivity.
  - unfold search. cbn [set_q arg_q arg_start arg_end arg_profile arg_page get_or].
    rewrite strip_idempotent. reflexivity.
Qed.

(** ** The files a search reads *)

Lemma active_profiles_agree fs fs' profiles :
  (forall p, In p profiles -> fs (snapshot_path p) = fs' (snapshot_path p)) ->
  active_profiles fs profiles = active_profiles fs' profiles.
Proof.
  induction profiles as [|p profiles IH]; intros H; [reflexivity|].
  cbn [active_profiles]. unfold get_history_db_path.
  fold (snapshot_path p). rewrite <- (H p) by (left; reflexivity).
  rewrite IH by (intros q Hq; apply H; right; exact Hq). reflexivity.
Qed.

Lemma active_profiles_In fs profiles a :
  In a (active_profiles fs profiles) ->
  In (fst a) profiles /\ snd a = snapshot_path (fst a) /\ fs (snd a) <> None.
Proof.
  induction profiles as [|p profiles IH]; [contradiction|].
  cbn [active_profiles]. unfold get_history_db_path. fold (snapshot_path p).
  destruct (fs (snapshot_path p)) as [f|] eqn:E.
  - intros [<-|H].
    + cbn [fst snd]. rewrite E. repeat split; [left; reflexivity|discriminate].
    + destruct (IH H) as [I1 [I2 I3]]. repeat split; [right; exact I1|exact I2|exact I3].
  - intros H. destruct (IH H) as [I1 [I2 I3]].
    repeat split; [right; exact I1|exact I2|exact I3].
Qed.

Lemma query_profile_agree tz fs fs' db_path :
  fs db_path = fs' db_path ->
  (forall w ps, _query_profile_count fs db_path w ps = _query_profile_count fs' db_path w ps) /\
  (forall w ps limit offset profile,
     _query_profile_rows tz fs db_path w ps limit offset profile
     = _query_profile_rows tz fs' db_path w ps limit offset profile).
Proof.
  intros H.
  assert (C : connect fs db_path = connect fs' db_path) by (unfold connect; rewrite H; reflexivity).
  split; intros; [unfold _query_profile_count|unfold _query_profile_rows];
    rewrite C; reflexivity.
Qed.

Lemma merge_profiles_agree tz fs fs' active w ps page per_page :
  (forall a, In a active -> fs (snd a) = fs' (snd a)) ->
  merge_profiles tz fs active w ps page per_page
  = merge_profiles tz fs' active w ps page per_page.
Proof.
  intros H. unfold merge_profiles. f_equal.
  - f_equal. f_equal. apply flat_map_ext_in. intros a Ha.
    apply (query_profile_agree tz fs fs' (snd a) (H a Ha)).
  - f_equal. apply map_ext_in. intros a Ha.
    apply (query_profile_agree tz fs fs' (snd a) (H a Ha)).
Qed.

Lemma search_history_agree tz fs fs' keyword start_date end_date profiles page per_page :
  (forall p, In p (requested_profiles profiles) ->
             fs (snapshot_path p) = fs' (snapshot_path p)) ->
  search_history tz fs keyword start_date end_date profiles page per_page
  = search_history tz fs' keyword start_date end_date profiles page per_page.
Proof.
  intros H. unfold search_history. fold (requested_profiles profiles).
  destruct (_build_where_clause tz keyword start_date end_date) as [[w ps]|];
    [|reflexivity].
  rewrite <- (active_profiles_agree fs fs' _ H).
  assert (G : forall a, In a (active_profiles fs (requested_profiles profiles)) ->
                        fs (snd a) = fs' (snd a)).
  { intros a Ha. apply active_profiles_In in Ha as [I1 [I2 _]]. rewrite I2.
    apply H, I1. }
  destruct (active_profiles fs (requested_profiles profiles)) as [|a1 [|a2 rest]].
  - reflexivity.
  - destruct a1 as [p db_path].
    destruct (query_profile_agree tz fs fs' db_path (G (p, db_path) (or_introl eq_refl)))
      as [Cn Rw].
    rewrite Cn, Rw. reflexivity.
  - destruct a1 as [p db_path]. f_equal. apply merge_profiles_agree, G.
Qed.



Lemma search_agree tz fs fs' req :
  fs (snapshot_path "default") = fs' (snapshot_path "default") ->
  fs (snapshot_path "profile7") = fs' (snapshot_path "profile7") ->
  search tz fs req = search tz fs' req.
Proof.
  intros Hd Hp. unfold search.
  destruct (match arg_page req with Some s => int_of_string s | None => Some 1 end)
    as [page|]; [|reflexivity].
  rewrite (search_history_agree tz fs fs'); [reflexivity|].
  cbn [requested_profiles].
  destruct (String.eqb (get_or (arg_profile req) "both") "default").
  - intros p [<-|[]]. exact Hd.
  - destruct (String.eqb (get_or (arg_profile req) "both") "profile7").
    + intros p [<-|[]]. exact Hp.
    + intros p [<-|[<-|[]]]; assumption.
Qed.



(** ** Refreshing the snapshots *)
Lemma string_length_append (a b : string) :
  String.length (a ++ b) = (String.length a + String.length b)%nat.
Proof. induction a as [|c a IH]; [reflexivity|]. cbn. rewrite IH. reflexivity. Qed.

(** No source path is a snapshot path: it is longer than either. *)
Lemma source_is_no_snapshot home source profile p :
  In (profile, source) (HISTORY_PATHS home) ->
  p = "default"%string \/ p = "profile7"%string ->
  String.eqb source (snapshot_path p) = false.
Proof.
  intros H Hp. apply String.eqb_neq. intros Q.
  apply (f_equal String.length) in Q.
  destruct H as [H|[H|[]]]; inversion H; subst source;
    rewrite string_length_append in Q;
    destruct Hp as [-> | ->]; cbn in Q; lia.
Qed.

Lemma copy_profile_eq copy2 fs copied entry :
  copy_profile copy2 (fs, copied) entry =
  (copy_profile_fs copy2 fs entry, copied ++ [copy_profile_entry copy2 fs entry]).
Proof.
  unfold copy_profile_fs, copy_profile_entry, copy_profile, snapshot_path.
  destruct entry as [profile source]. cbn [fst snd].
  destruct (fs source) as [f|]; [destruct (copy2 source)|]; reflexivity.
Qed.

(** A round writes at most the snapshot of its own profile. *)
Lemma copy_profile_fs_other copy2 fs entry path :
  path <> snapshot_path (fst entry) -> copy_profile_fs copy2 fs entry path = fs path.
Proof.
  intros N. unfold copy_profile_fs, copy_profile. destruct entry as [profile source].
  cbn [fst] in N. fold (snapshot_path profile).
  apply String.eqb_neq in N.
  destruct (fs source) as [f|]; [destruct (copy2 source)|]; cbn [fst];
    unfold write_file; rewrite ?N; reflexivity.
Qed.

Lemma copy_profile_fs_copied copy2 fs profile source f :
  fs source = Some f -> copy2 source = Copied ->
  copy_profile_fs copy2 fs (profile, source) (snapshot_path profile) = Some f.
Proof.
  intros E C. unfold copy_profile_fs, copy_profile. rewrite E, C. cbn [fst].
  fold (snapshot_path profile). unfold write_file. rewrite String.eqb_refl. reflexivity.
Qed.

Lemma copy_profile_fs_missing copy2 fs entry :
  fs (snd entry) = None -> copy_profile_fs copy2 fs entry = fs.
Proof.
  intros E. unfold copy_profile_fs, copy_profile. destruct entry as [profile source].
  cbn [snd] in E. rewrite E. reflexivity.
Qed.

(** The two rounds of [copy_history_files], spelled out. *)
Lemma copy_history_files_eq home copy2 fs :
  copy_history_files home true copy2 fs =
  Some (copy_profile_fs copy2
          (copy_profile_fs copy2 fs ("default"%string, default_source home))
          ("profile7"%string, profile7_source home),
        [copy_profile_entry copy2 fs ("default"%string, default_source home);
         copy_profile_entry copy2
           (copy_profile_fs copy2 fs ("default"%string, default_source home))
           ("profile7"%string, profile7_source home)]).
Proof.
  unfold copy_history_files, HISTORY_PATHS. cbn [fold_left].
  rewrite !copy_profile_eq. reflexivity.
Qed.

Lemma copy_profile_entry_eq copy2 fs profile source :
  copy_profile_entry copy2 fs (profile, source) =
  (profile, if copy_succeeds copy2 fs source then Some (snapshot_path profile) else None).
Proof.
  unfold copy_profile_entry, copy_succeeds. cbn [fst snd].
  destruct (fs source); [destruct (copy2 source)|]; reflexivity.
Qed.

Lemma default_source_after copy2 fs home entry :
  fst entry = "default"%string \/ fst entry = "profile7"%string ->
  copy_profile_fs copy2 fs entry (default_source home) = fs (default_source home) /\
  copy_profile_fs copy2 fs entry (profile7_source home) = fs (profile7_source home).
Proof.
  intros H. split; apply copy_profile_fs_other; apply String.eqb_neq;
    [apply (source_is_no_snapshot home _ "default")
    |apply (source_is_no_snapshot home _ "profile7")];
    try exact H; unfold HISTORY_PATHS, default_source, profile7_source;
    [left|right; left]; reflexivity.
Qed.

(** What [copy_history_files] leaves behind, profile by profile. *)
Lemma copy_history_files_inv home mkdir_ok copy2 fs fs' copied :
  copy_history_files home mkdir_ok copy2 fs = Some (fs', copied) ->
  copied =
    [("default"%string,
      if copy_succeeds copy2 fs (default_source home)
      then Some (snapshot_path "default") else None);
     ("profile7"%string,
      if copy_succeeds copy2 fs (profile7_source home)
      then Some (snapshot_path "profile7") else None)] /\
  (copy_succeeds copy2 fs (default_source home) = true ->
   fs' (snapshot_path "default") = fs (default_source home)) /\
  (copy_succeeds copy2 fs (profile7_source home) = true ->
   fs' (snapshot_path "profile7") = fs (profile7_source home)) /\
  (fs (default_source home) = None ->
   fs' (snapshot_path "default") = fs (snapshot_path "default")) /\
  (fs (profile7_source home) = None ->
   fs' (snapshot_path "profile7") = fs (snapshot_path "profile7")).
Proof.
  destruct mkdir_ok; [|discriminate].
  rewrite copy_history_files_eq. intros E. injection E as <- <-.
  pose proof (proj2 (default_source_after copy2 fs home
                       ("default"%string, default_source home)
                       (or_introl eq_refl))) as S1.
  assert (D2 : forall g, copy_profile_fs copy2 g ("profile7"%string, profile7_source home)
                           (snapshot_path "default")
                         = g (snapshot_path "default")).
  { intros g. apply copy_profile_fs_other. discriminate. }
  assert (P1 : copy_profile_fs copy2 fs ("default"%string, default_source home)
                 (snapshot_path "profile7") = fs (snapshot_path "profile7")).
  { apply copy_profile_fs_other. discriminate. }
  assert (C1 : copy_succeeds copy2
                 (copy_profile_fs copy2 fs ("default"%string, default_source home))
                 (profile7_source home)
               = copy_succeeds copy2 fs (profile7_source home)).
  { unfold copy_succeeds. rewrite S1. reflexivity. }
  split; [|split; [|split; [|split]]].
  - rewrite !copy_profile_entry_eq, C1. reflexivity.
  - intros C. rewrite D2. unfold copy_succeeds in C.
    destruct (fs (default_source home)) as [f|] eqn:Fd; [|discriminate].
    destruct (copy2 (default_source home)) eqn:Cd; [|discriminate].
    apply (copy_profile_fs_copied copy2 fs "default" _ f Fd Cd).
  - intros C. rewrite <- C1 in C. unfold copy_succeeds in C. rewrite <- S1.
    destruct (copy_profile_fs copy2 fs ("default"%string, default_source home)
                (profile7_source home)) as [f|] eqn:Fp; [|discriminate].
    destruct (copy2 (profile7_source home)) eqn:Cp; [|discriminate].
    apply (copy_profile_fs_copied copy2 _ "profile7" _ f Fp Cp).
  - intros N. rewrite D2. rewrite copy_profile_fs_missing; [reflexivity|exact N].
  - intros N. rewrite copy_profile_fs_missing; [exact P1|]. cbn [snd]. rewrite S1. exact N.
Qed.

Lemma get_history_db_path_eq fs profile :
  get_history_db_path fs profile =
  match fs (snapshot_path profile) with
  | Some _ => Some (snapshot_path profile)
  | None => None
  end.
Proof. reflexivity. Qed.

(** X23: a profile that [copy_history_files] reports with a path has a
    snapshot at that path which holds what its source held, and
    [get_history_db_path] finds it. *)
Theorem copied_snapshot_is_the_source
    home mkdir_ok copy2 fs fs' copied profile dest :
  copy_history_files home mkdir_ok copy2 fs = Some (fs', copied) ->
  In (profile, Some dest) copied ->
  exists source f,
    In (profile, source) (HISTORY_PATHS home) /\
    fs source = Some f /\ fs' dest = Some f /\
    get_history_db_path fs' profile = Some dest.
Proof.
  intros E H.
  destruct (copy_history_files_inv home mkdir_ok copy2 fs fs' copied E)
    as [-> [Cd [Cp _]]].
  destruct H as [H|[H|[]]].
  - destruct (copy_succeeds copy2 fs (default_source home)) eqn:S; [|discriminate].
    inversion H. subst profile dest. specialize (Cd eq_refl).
    unfold copy_succeeds in S.
    destruct (fs (default_source home)) as [f|] eqn:F; [|discriminate].
    exists (default_source home), f. rewrite get_history_db_path_eq, Cd.
    split; [left; reflexivity|]. split; [exact F|]. split; reflexivity.
  - destruct (copy_succeeds copy2 fs (profile7_source home)) eqn:S; [|discriminate].
    inversion H. subst profile dest. specialize (Cp eq_refl).
    unfold copy_succeeds in S.
    destruct (fs (profile7_source home)) as [f|] eqn:F; [|discriminate].
    exists (profile7_source home), f. rewrite get_history_db_path_eq, Cp.
    split; [right; left; reflexivity|]. split; [exact F|]. split; reflexivity.
Qed.

Lemma copied_snapshot_is_the_source_witness :
  exists source f,
    In ("default"%string, source) (HISTORY_PATHS example_home) /\
    example_sources source = Some f /\
    copy_profile_fs (fun _ => Copied)
      (copy_profile_fs (fun _ => Copied) example_sources
         ("default"%string, default_source example_home))
      ("profile7"%string, profile7_source example_home)
      (snapshot_path "default") = Some f /\
    get_history_db_path
      (copy_profile_fs (fun _ => Copied)
         (copy_profile_fs (fun _ => Copied) example_sources
            ("default"%string, default_source example_home))
         ("profile7"%string, profile7_source example_home))
      "default" = Some (snapshot_path "default").
Proof.
  apply (copied_snapshot_is_the_source example_home true (fun _ => Copied) example_sources
           _ [("default"%string, Some (snapshot_path "default"));
              ("profile7"%string, None)]).
  - reflexivity.
  - left. reflexivity.
Defined.

(** X24: a refresh never removes a snapshot.  When the history file of a
    profile is missing, the profile is reported without a path, yet the
    snapshot of an earlier refresh stays where it was and searches go on
    reading it. *)
Theorem missing_source_keeps_the_old_snapshot
    home mkdir_ok copy2 fs fs' copied profile source :
  copy_history_files home mkdir_ok copy2 fs = Some (fs', copied) ->
  In (profile, source) (HISTORY_PATHS home) ->
  fs source = None ->
  In (profile, None) copied /\
  fs' (snapshot_path profile) = fs (snapshot_path profile) /\
  get_history_db_path fs' profile = get_history_db_path fs profile.
Proof.
  intros E H N.
  destruct (copy_history_files_inv home mkdir_ok copy2 fs fs' copied E)
    as [-> [_ [_ [Nd Np]]]].
  destruct H as [H|[H|[]]]; inversion H; subst profile source.
  - fold (default_source home) in N. specialize (Nd N).
    rewrite !get_history_db_path_eq, Nd. unfold copy_succeeds at 1. rewrite N.
    split; [left; reflexivity|]. split; reflexivity.
  - fold (profile7_source home) in N. specialize (Np N).
    rewrite !get_history_db_path_eq, Np. unfold copy_succeeds at 2. rewrite N.
    split; [right; left; reflexivity|]. split; reflexivity.
Qed.

Lemma missing_source_keeps_the_old_snapshot_witness :
  In ("profile7"%string, None)
     [("default"%string, Some (snapshot_path "default")); ("profile7"%string, None)] /\
  copy_profile_fs (fun _ => Copied)
    (copy_profile_fs (fun _ => Copied) example_sources
       ("default"%string, default_source example_home))
    ("profile7"%string, profile7_source example_home)
    (snapshot_path "profile7") = example_sources (snapshot_path "profile7") /\
  get_history_db_path
    (copy_profile_fs (fun _ => Copied)
       (copy_profile_fs (fun _ => Copied) example_sources
          ("default"%string, default_source example_home))
       ("profile7"%string, profile7_source example_home))
    "profile7" = get_history_db_path example_sources "profile7".
Proof.
  apply (missing_source_keeps_the_old_snapshot example_home true (fun _ => Copied)
           example_sources _ _ "profile7" (profile7_source example_home)).
  - reflexivity.
  - right. left. reflexivity.
  - reflexivity.
Defined.

Lemma refresh_available_profiles home mkdir_ok copy2 fs fs' resp :
  refresh home mkdir_ok copy2 fs = Some (fs', resp) ->
  profiles_available resp =
    (if copy_succeeds copy2 fs (default_source home) then ["default"%string] else [])
    ++ (if copy_succeeds copy2 fs (profile7_source home) then ["profile7"%string] else []) /\
  (copy_succeeds copy2 fs (default_source home) = true ->
   fs' (snapshot_path "default") = fs (default_source home)) /\
  (copy_succeeds copy2 fs (profile7_source home) = true ->
   fs' (snapshot_path "profile7") = fs (profile7_source home)).
Proof.
  unfold refresh.
  destruct (copy_history_files home mkdir_ok copy2 fs) as [[fs1 copied]|] eqn:E;
    [|discriminate].
  intros R. inversion R. subst fs1 resp. clear R. cbn [profiles_available].
  destruct (copy_history_files_inv home mkdir_ok copy2 fs fs' copied E)
    as [-> [Cd [Cp _]]].
  split; [|split; assumption].
  destruct (copy_succeeds copy2 fs (default_source home));
    destruct (copy_succeeds copy2 fs (profile7_source home)); reflexivity.
Qed.

(** X25: [POST /refresh] answers with the profiles whose history file
    exists and was copied, in the order default, profile7, names them in
    its message, [none] when there is none, and each of them can be
    searched afterwards. *)
Theorem refresh_reports_the_copied_profiles home mkdir_ok copy2 fs fs' resp :
  refresh home mkdir_ok copy2 fs = Some (fs', resp) ->
  success resp = true /\
  profiles_available resp =
    (if copy_succeeds copy2 fs (default_source home) then ["default"%string] else [])
    ++ (if copy_succeeds copy2 fs (profile7_source home) then ["profile7"%string] else []) /\
  message resp =
    ("Refreshed history for: "
     ++ match profiles_available resp with
        | [] => "none"
        | [p] => p
        | [p; q] => p ++ ", " ++ q
        | _ => String.concat ", " (profiles_available resp)
        end)%string /\
  forall p, In p (profiles_available resp) ->
            get_history_db_path fs' p = Some (snapshot_path p).
Proof.
  unfold refresh.
  destruct (copy_history_files home mkdir_ok copy2 fs) as [[fs1 copied]|] eqn:E;
    [|discriminate].
  intros R. inversion R. subst fs1 resp. clear R.
  cbn [success profiles_available message].
  destruct (copy_history_files_inv home mkdir_ok copy2 fs fs' copied E)
    as [-> [Cd [Cp _]]].
  split; [reflexivity|].
  destruct (copy_succeeds copy2 fs (default_source home)) eqn:Sd;
    destruct (copy_succeeds copy2 fs (profile7_source home)) eqn:Sp;
    cbn [filter snd map fst app];
    (split; [reflexivity|]); (split; [reflexivity|]); intros p Hp;
    rewrite get_history_db_path_eq.
  - unfold copy_succeeds in Sd, Sp.
    destruct (fs (default_source home)) eqn:Fd; [|discriminate].
    destruct (fs (profile7_source home)) eqn:Fp; [|discriminate].
    destruct Hp as [<-|[<-|[]]]; [rewrite (Cd eq_refl)|rewrite (Cp eq_refl)]; reflexivity.
  - unfold copy_succeeds in Sd.
    destruct (fs (default_source home)) eqn:Fd; [|discriminate].
    destruct Hp as [<-|[]]. rewrite (Cd eq_refl). reflexivity.
  - unfold copy_succeeds in Sp.
    destruct (fs (profile7_source home)) eqn:Fp; [|discriminate].
    destruct Hp as [<-|[]]. rewrite (Cp eq_refl). reflexivity.
  - contradiction.
Qed.

Lemma refresh_reports_the_copied_profiles_witness :
  exists fs' resp,
    refresh example_home true (fun _ => Copied) example_sources = Some (fs', resp) /\
    success resp = true /\
    profiles_available resp =
      (if copy_succeeds (fun _ => Copied) example_sources (default_source example_home)
       then ["default"%string] else [])
      ++ (if copy_succeeds (fun _ => Copied) example_sources (profile7_source example_home)
          then ["profile7"%string] else []) /\
    message resp =
      ("Refreshed history for: "
       ++ match profiles_available resp with
          | [] => "none"
          | [p] => p
          | [p; q] => p ++ ", " ++ q
          | _ => String.concat ", " (profiles_available resp)
          end)%string /\
    forall p, In p (profiles_available resp) ->
              get_history_db_path fs' p = Some (snapshot_path p).
Proof.
  eexists. eexists. split; [reflexivity|].
  apply (refresh_reports_the_copied_profiles example_home true (fun _ => Copied)
           example_sources).
  reflexivity.
Defined.

(** X26: refresh and search compose.  After a refresh that reports both
    profiles, every request is answered from the history files as they
    were when they were copied: nothing else of the file system, and no
    older snapshot, shows in the answer. *)
Theorem search_after_refresh_reads_the_sources tz home mkdir_ok copy2 fs fs' resp req :
  refresh home mkdir_ok copy2 fs = Some (fs', resp) ->
  profiles_available resp = ["default"; "profile7"]%string ->
  search tz fs' req = search tz (fresh_snapshots home fs) req.
Proof.
  intros R A.
  destruct (refresh_available_profiles home mkdir_ok copy2 fs fs' resp R)
    as [Av [Cd Cp]].
  rewrite Av in A.
  destruct (copy_succeeds copy2 fs (default_source home)) eqn:Sd; [|
    destruct (copy_succeeds copy2 fs (profile7_source home)); discriminate].
  destruct (copy_succeeds copy2 fs (profile7_source home)) eqn:Sp; [|discriminate].
  apply search_agree; unfold fresh_snapshots.
  - rewrite String.eqb_refl. apply Cd. reflexivity.
  - change (String.eqb (snapshot_path "profile7") (snapshot_path "default")) with false.
    rewrite String.eqb_refl. apply Cp. reflexivity.
Qed.

Lemma search_after_refresh_reads_the_sources_witness :
  search 0
    (copy_profile_fs (fun _ => Copied)
       (copy_profile_fs (fun _ => Copied) example_both_sources
          ("default"%string, default_source example_home))
       ("profile7"%string, profile7_source example_home))
    (mk_request (Some "python"%string) None None None None)
  = search 0 (fresh_snapshots example_home example_both_sources)
      (mk_request (Some "python"%string) None None None None).
Proof.
  apply (search_after_refresh_reads_the_sources 0 example_home true (fun _ => Copied)
           example_both_sources _
           (mk_refresh_response true "Refreshed history for: default, profile7"
              ["default"; "profile7"]%string)).
  - reflexivity.
  - reflexivity.
Defined.

(** ** The fields of a record *)
Lemma record_of_row_title tz p r x :
  record_of_row tz p r = Some x ->
  title x <> EmptyString /\
  (r_title r = Some (title x) \/
   (title x = NO_TITLE /\ (r_title r = None \/ r_title r = Some EmptyString))).
Proof.
  unfold record_of_row.
  destruct (chrome_time_to_datetime tz (r_visit_time r)) as [vt|]; [|discriminate].
  intros H. inversion H. cbn [title].
  destruct (r_title r) as [[|c t]|].
  - split; [discriminate|]. right. split; [reflexivity|]. right. reflexivity.
  - split; [discriminate|]. left. reflexivity.
  - split; [discriminate|]. right. split; [reflexivity|]. left. reflexivity.
Qed.

(** X27: no record of a page has an empty title.  The title is the one
    stored with the URL, and [(No title)] when that is NULL or empty. *)
Theorem returned_records_have_a_title
    tz fs keyword start_date end_date profiles page per_page results total x :
  search_history tz fs keyword start_date end_date profiles page per_page
    = Some (results, total) ->
  In x results ->
  title x <> EmptyString /\
  exists db_path db r,
    connect fs db_path = Some db /\ In r (join db) /\ url x = r_url r /\
    (r_title r = Some (title x) \/
     (title x = NO_TITLE /\ (r_title r = None \/ r_title r = Some EmptyString))).
Proof.
  intros E H.
  destruct (search_history_In _ _ _ _ _ _ _ _ _ _ x E H)
    as [db_path [db [r [_ [C [Ij [_ R]]]]]]].
  destruct (record_of_row_title _ _ _ _ R) as [N T].
  split; [exact N|]. exists db_path, db, r.
  apply record_of_row_visit_time in R as [_ [_ [_ [_ [_ U]]]]].
  repeat split; assumption.
Qed.

Lemma returned_records_have_a_title_witness :
  "(No title)"%string <> EmptyString /\
  exists db_path db r,
    connect example_fs db_path = Some db /\ In r (join db) /\
    "https://example.com/page"%string = r_url r /\
    (r_title r = Some "(No title)"%string \/
     ("(No title)"%string = NO_TITLE /\ (r_title r = None \/ r_title r = Some EmptyString))).
Proof.
  apply (returned_records_have_a_title 0 example_fs None None None None 1 1
           [mk_record "https://example.com/page" "(No title)" "2024-02-15T16:00:00"
              "2024-02-15 16:00:00" "profile7"] 4
           (mk_record "https://example.com/page" "(No title)" "2024-02-15T16:00:00"
              "2024-02-15 16:00:00" "profile7")).
  - vm_compute. reflexivity.
  - left. reflexivity.
Defined.

(** ** Count and fetch *)
Lemma records_of_rows_convertible tz p rows res :
  records_of_rows tz p rows = Some res -> Forall (convertible tz) rows.
Proof.
  intros R. apply records_of_rows_some in R.
  induction R as [|r y rows res Rr _ IH]; constructor; [|exact IH].
  apply record_of_row_visit_time in Rr as [vt [Dv _]].
  unfold convertible. rewrite Dv. discriminate.
Qed.

Lemma limit_offset_unlimited {A} (l : list A) : limit_offset (-1) 0 l = l.
Proof. reflexivity. Qed.

Lemma int64_minus_one : int64 (-1) = true.
Proof. reflexivity. Qed.

(** X28: count and fetch agree on a profile whose timestamps all
    convert: the count is the number of records a fetch without a limit
    returns.  One timestamp outside the years 1 to 9999 among the
    selected rows breaks this: the fetch then returns nothing, the count
    stays. *)
Theorem count_agrees_with_unlimited_fetch tz fs db_path db w ps profile :
  connect fs db_path = Some db ->
  (Forall (convertible tz) (join db) ->
   _query_profile_count fs db_path w ps =
   Z.of_nat (List.length (_query_profile_rows tz fs db_path w ps (-1) 0 profile))) /\
  (forall rows, matching_rows db w ps = Some rows ->
                ~ Forall (convertible tz) rows ->
                _query_profile_rows tz fs db_path w ps (-1) 0 profile = [] /\
                0 < _query_profile_count fs db_path w ps).
Proof.
  intros C. split.
  - intros F.
    assert (Fa : forall db', connect fs (snd (profile, db_path)) = Some db' ->
                             Forall (convertible tz) (join db')).
    { intros db' C'. cbn [snd] in C'. rewrite C in C'. inversion C'. subst db'. exact F. }
    pose proof (query_profile_count_records tz fs w ps (profile, db_path) Fa) as Cn.
    pose proof (query_profile_rows_fetch tz fs w ps (-1) (profile, db_path) Fa
                  int64_minus_one) as Rw.
    cbn [fst snd] in Cn, Rw. rewrite Cn, Rw. reflexivity.
  - intros rows M NF. unfold _query_profile_rows, _query_profile_count. rewrite C.
    rewrite select_rows_matching, select_count_matching, M.
    rewrite int64_minus_one, int64_zero, limit_offset_unlimited.
    cbn [andb option_map].
    destruct (records_of_rows tz profile rows) as [res|] eqn:R.
    + exfalso. apply NF. apply (records_of_rows_convertible tz profile rows res R).
    + split; [reflexivity|]. destruct rows as [|r rows].
      * exfalso. apply NF. constructor.
      * cbn [List.length]. apply Pos2Z.is_pos.
Qed.

Lemma count_agrees_with_unlimited_fetch_witness :
  (Forall (convertible 0) (join example_db_a) ->
   _query_profile_count example_fs "/tmp/arc_history_search/default_History" [] [] =
   Z.of_nat (List.length
     (_query_profile_rows 0 example_fs "/tmp/arc_history_search/default_History"
        [] [] (-1) 0 "default"))) /\
  (forall rows, matching_rows example_db_a [] [] = Some rows ->
                ~ Forall (convertible 0) rows ->
                _query_profile_rows 0 example_fs "/tmp/arc_history_search/default_History"
                  [] [] (-1) 0 "default" = [] /\
                0 < _query_profile_count example_fs
                      "/tmp/arc_history_search/default_History" [] []).
Proof.
  apply (count_agrees_with_unlimited_fetch 0 example_fs
           "/tmp/arc_history_search/default_History" example_db_a [] [] "default").
  reflexivity.
Defined.

(** ** ISO dates *)
Lemma digit_is_digit k : 0 <= k <= 9 -> is_digit (digit k) = true /\ digit_value (digit k) = k.
Proof.
  intros H.
  assert (C : k = 0 \/ k = 1 \/ k = 2 \/ k = 3 \/ k = 4 \/ k = 5 \/ k = 6 \/ k = 7
              \/ k = 8 \/ k = 9) by lia.
  repeat (destruct C as [->|C]; [split; reflexivity|]). subst k. split; reflexivity.
Qed.

Lemma pad2_eq n :
  pad 2 n = String (digit ((n / 10) mod 10)) (String (digit (n mod 10)) EmptyString).
Proof.
  cbn [pad Z.of_nat Pos.of_succ_nat Pos.succ].
  change (10 ^ 1) with 10. change (10 ^ 0) with 1. rewrite Z.div_1_r. reflexivity.
Qed.

Lemma pad4_eq n :
  pad 4 n = String (digit ((n / 1000) mod 10)) (String (digit ((n / 100) mod 10))
            (String (digit ((n / 10) mod 10)) (String (digit (n mod 10)) EmptyString))).
Proof.
  cbn [pad Z.of_nat Pos.of_succ_nat Pos.succ].
  change (10 ^ 3) with 1000. change (10 ^ 2) with 100.
  change (10 ^ 1) with 10. change (10 ^ 0) with 1. rewrite Z.div_1_r. reflexivity.
Qed.

Lemma date_fromisoformat_digits y1 y2 y3 y4 m1 m2 d1 d2 :
  date_fromisoformat
    (String y1 (String y2 (String y3 (String y4 (String "-"
    (String m1 (String m2 (String "-" (String d1 (String d2 EmptyString)))))))))) =
  if forallb is_digit [y1; y2; y3; y4; m1; m2; d1; d2] then
    if valid_date
         (((digit_value y1 * 10 + digit_value y2) * 10 + digit_value y3) * 10
          + digit_value y4)
         (digit_value m1 * 10 + digit_value m2)
         (digit_value d1 * 10 + digit_value d2)
    then Some (mk_date
                 (((digit_value y1 * 10 + digit_value y2) * 10 + digit_value y3) * 10
                  + digit_value y4)
                 (digit_value m1 * 10 + digit_value m2)
                 (digit_value d1 * 10 + digit_value d2))
    else None
  else None.
Proof. reflexivity. Qed.

Lemma iso_text_of_a_date_is_accepted y m d :
  valid_date y m d = true ->
  parse_date_arg (pad 4 y ++ "-" ++ pad 2 m ++ "-" ++ pad 2 d)
  = Some (mk_datetime y m d 0 0 0 0).
Proof.
  intros V.
  assert (Vd : valid_datetime (mk_datetime y m d 0 0 0 0) = true).
  { unfold valid_datetime. cbn [year month day hour minute second microsecond].
    rewrite V. reflexivity. }
  apply valid_datetime_fields in Vd as [Y [M [Dd _]]].
  cbn [year month day] in Y, M, Dd.
  rewrite pad4_eq, !pad2_eq. cbn [append].
  unfold parse_date_arg. rewrite date_fromisoformat_digits.
  assert (Hy1 : 0 <= (y / 1000) mod 10 <= 9) by (clear V; lia).
  assert (Hy2 : 0 <= (y / 100) mod 10 <= 9) by (clear V; lia).
  assert (Hy3 : 0 <= (y / 10) mod 10 <= 9) by (clear V; lia).
  assert (Hy4 : 0 <= y mod 10 <= 9) by (clear V; lia).
  assert (Hm1 : 0 <= (m / 10) mod 10 <= 9) by (clear V; lia).
  assert (Hm2 : 0 <= m mod 10 <= 9) by (clear V; lia).
  assert (Hd1 : 0 <= (d / 10) mod 10 <= 9) by (clear V; lia).
  assert (Hd2 : 0 <= d mod 10 <= 9) by (clear V; lia).
  destruct (digit_is_digit _ Hy1) as [A1 B1]. destruct (digit_is_digit _ Hy2) as [A2 B2].
  destruct (digit_is_digit _ Hy3) as [A3 B3]. destruct (digit_is_digit _ Hy4) as [A4 B4].
  destruct (digit_is_digit _ Hm1) as [A5 B5]. destruct (digit_is_digit _ Hm2) as [A6 B6].
  destruct (digit_is_digit _ Hd1) as [A7 B7]. destruct (digit_is_digit _ Hd2) as [A8 B8].
  cbn [forallb]. rewrite A1, A2, A3, A4, A5, A6, A7, A8. cbn [andb].
  rewrite B1, B2, B3, B4, B5, B6, B7, B8.
  replace ((((y / 1000) mod 10 * 10 + (y / 100) mod 10) * 10 + (y / 10) mod 10) * 10
           + y mod 10) with y by (clear V; lia).
  replace ((m / 10) mod 10 * 10 + m mod 10) with m by (clear V; lia).
  replace ((d / 10) mod 10 * 10 + d mod 10) with d by (clear V; lia).
  rewrite V. cbn [d_year d_month d_day].
  unfold make_datetime. rewrite V. reflexivity.
Qed.

Lemma parse_date_arg_midnight s dt :
  parse_date_arg s = Some dt ->
  valid_datetime dt = true /\
  hour dt = 0 /\ minute dt = 0 /\ second dt = 0 /\ microsecond dt = 0.
Proof.
  unfold parse_date_arg. destruct s as [|c s]; [discriminate|].
  destruct (date_fromisoformat (String c s)) as [d|]; [|discriminate].
  intros M. apply make_datetime_some in M as [-> V].
  split; [exact V|]. repeat split.
Qed.

(** X29: the dates of the route are midnights.  A date argument the route
    accepts is passed to the search as a valid datetime at 00:00:00 with
    no microseconds, and the ISO text [YYYY-MM-DD] of every date that
    exists is accepted and read as that date. *)
Theorem route_dates_are_midnights :
  (forall s dt,
     parse_date_arg s = Some dt ->
     valid_datetime dt = true /\
     hour dt = 0 /\ minute dt = 0 /\ second dt = 0 /\ microsecond dt = 0) /\
  (forall y m d,
     valid_date y m d = true ->
     parse_date_arg (pad 4 y ++ "-" ++ pad 2 m ++ "-" ++ pad 2 d)
     = Some (mk_datetime y m d 0 0 0 0)).
Proof.
  split.
  - exact parse_date_arg_midnight.
  - exact iso_text_of_a_date_is_accepted.
Qed.
